(** * polymarket-relay: request signing, trade execution and admission control

    A shallow embedding of the relay's JavaScript sources:
    - [src/utils/hmac.js]       ([Hmac])
    - [src/utils/polymarket.js] ([Polymarket])
    - [src/middleware/auth.js]  ([Auth])
    - [src/server.js]           ([Server])
    - [src/db/init.js] and [src/routes/polymarket.js] ([Routes])

    together with the pieces of the Node.js runtime these files call
    (string operations, base64, SHA-256 and HMAC, JSON values). *)

From Stdlib Require Import ZArith Lia Bool Ascii String DecimalString.
From stdpp Require Import gmap strings list sorting.

Set Warnings "-register-all".

Local Open Scope Z_scope.

(** ** JavaScript strings

    A JavaScript string is a sequence of UTF-16 code units.  The model is a
    [string] whose characters are the code units; it covers the strings whose
    code units are all below 256 (ASCII and Latin-1), which is what HTTP
    header values, hexadecimal addresses, base64 text and decimal numbers
    are made of. *)
Module Js.

Definition code (c : ascii) : Z := Z.of_N (N_of_ascii c).
Definition chr (n : Z) : ascii := ascii_of_N (Z.to_N n).

Definition chars (s : string) : list ascii := list_ascii_of_string s.

(** [String.prototype.toLowerCase] on code units below 256: [A-Z] and the
    Latin-1 capitals U+00C0..U+00DE (but not the sign U+00D7) move up by 32. *)
Definition lower_char (c : ascii) : ascii :=
  let n := code c in
  if ((65 <=? n) && (n <=? 90)) || ((192 <=? n) && (n <=? 222) && negb (n =? 215))
  then chr (n + 32) else c.

Fixpoint toLowerCase (s : string) : string :=
  match s with
  | EmptyString => EmptyString
  | String c r => String (lower_char c) (toLowerCase r)
  end.

(** [s.replace(/c/g, d)] for single characters [c] and [d]. *)
Fixpoint replace_all (c d : ascii) (s : string) : string :=
  match s with
  | EmptyString => EmptyString
  | String x r => String (if Ascii.eqb x c then d else x) (replace_all c d r)
  end.

(** [s.includes(c)] for a single character. *)
Fixpoint includes (c : ascii) (s : string) : bool :=
  match s with
  | EmptyString => false
  | String x r => Ascii.eqb x c || includes c r
  end.

(** [s.slice(-n)]: the last [n] characters (the whole string when shorter). *)
Definition slice_last (n : nat) (s : string) : string :=
  string_of_list_ascii (skipn (List.length (chars s) - n)%nat (chars s)).

(** The UTF-8 bytes of a string, as [Buffer.from(s, "utf8")] and the crypto
    functions produce them: one byte below 128, two bytes from 128 to 255. *)
Definition utf8_char (c : ascii) : list Z :=
  let n := code c in
  if n <? 128 then [n] else [Z.lor 192 (Z.shiftr n 6); Z.lor 128 (Z.land n 63)].

Definition utf8 (s : string) : list Z := flat_map utf8_char (chars s).

(** Template-literal and [String(n)] rendering of an integer number.  The
    model is for the integers a JavaScript number holds exactly, those up to
    2^53 - 1 in absolute value, which JavaScript writes in full; clock
    readings, timestamps in seconds and HTTP status codes are of that kind.
    Larger numbers, which JavaScript rounds and from 10^21 on writes with an
    exponent, are not covered. *)
Definition of_int (n : Z) : string := NilZero.string_of_int (Z.to_int n).

(** A string is truthy when it is not empty. *)
Definition nonempty (s : string) : bool := negb (String.eqb s "").

End Js.

(** ** Base64 as Node.js reads and writes it *)
Module Base64.

(** The value of a base64 digit.  Node's decoder also reads the URL-safe
    digits [-] and [_]. *)
Definition sextet (c : ascii) : option Z :=
  let n := Js.code c in
  if (65 <=? n) && (n <=? 90) then Some (n - 65)
  else if (97 <=? n) && (n <=? 122) then Some (n - 71)
  else if (48 <=? n) && (n <=? 57) then Some (n + 4)
  else if (n =? 43) || (n =? 45) then Some 62
  else if (n =? 47) || (n =? 95) then Some 63
  else None.

(** The digits up to the first [=]; characters that are no digits are
    skipped, as the decoder does. *)
Fixpoint sextets (l : list ascii) : list Z :=
  match l with
  | [] => []
  | c :: r =>
      if Ascii.eqb c "="%char then []
      else match sextet c with
           | Some v => v :: sextets r
           | None => sextets r
           end
  end.

(** Four digits give three bytes, a rest of three digits two bytes, a rest
    of two digits one byte, a single left-over digit none. *)
Fixpoint bytes_of_sextets (l : list Z) : list Z :=
  match l with
  | a :: b :: c :: d :: r =>
      let n := a * 262144 + b * 4096 + c * 64 + d in
      (n / 65536) :: ((n / 256) mod 256) :: (n mod 256) :: bytes_of_sextets r
  | [a; b; c] =>
      let n := a * 4096 + b * 64 + c in
      [n / 1024; (n / 4) mod 256]
  | [a; b] => [(a * 64 + b) / 16]
  | _ => []
  end.

(** [Buffer.from(s, "base64")] *)
Definition decode (s : string) : list Z := bytes_of_sextets (sextets (Js.chars s)).

(** The standard alphabet, used for output. *)
Definition digit (v : Z) : ascii :=
  if v <? 26 then Js.chr (v + 65)
  else if v <? 52 then Js.chr (v + 71)
  else if v <? 62 then Js.chr (v - 4)
  else if v =? 62 then "+"%char else "/"%char.

Fixpoint encode_chars (l : list Z) : list ascii :=
  match l with
  | a :: b :: c :: r =>
      digit (a / 4) :: digit ((a mod 4) * 16 + b / 16)
        :: digit ((b mod 16) * 4 + c / 64) :: digit (c mod 64) :: encode_chars r
  | [a; b] =>
      [digit (a / 4); digit ((a mod 4) * 16 + b / 16); digit ((b mod 16) * 4); "="%char]
  | [a] => [digit (a / 4); digit ((a mod 4) * 16); "="%char; "="%char]
  | [] => []
  end.

(** [buf.toString("base64")] and [digest("base64")] *)
Definition encode (l : list Z) : string := string_of_list_ascii (encode_chars l).

(** A character of the standard alphabet (not the URL-safe one). *)
Definition is_std_digit (c : ascii) : bool :=
  let n := Js.code c in
  ((65 <=? n) && (n <=? 90)) || ((97 <=? n) && (n <=? 122))
  || ((48 <=? n) && (n <=? 57)) || (n =? 43) || (n =? 47).

End Base64.

(** ** SHA-256 and HMAC (the [crypto] module) *)
Module Crypto.

Definition w32 (x : Z) : Z := x mod 4294967296.
Definition add32 (a b : Z) : Z := w32 (a + b).
Definition rotr (n x : Z) : Z := Z.lor (Z.shiftr x n) (w32 (Z.shiftl x (32 - n))).
Definition not32 (x : Z) : Z := Z.lxor x 0xffffffff.

Definition Ch (x y z : Z) : Z := Z.lxor (Z.land x y) (Z.land (not32 x) z).
Definition Maj (x y z : Z) : Z :=
  Z.lxor (Z.lxor (Z.land x y) (Z.land x z)) (Z.land y z).
Definition bsig0 (x : Z) : Z := Z.lxor (Z.lxor (rotr 2 x) (rotr 13 x)) (rotr 22 x).
Definition bsig1 (x : Z) : Z := Z.lxor (Z.lxor (rotr 6 x) (rotr 11 x)) (rotr 25 x).
Definition ssig0 (x : Z) : Z := Z.lxor (Z.lxor (rotr 7 x) (rotr 18 x)) (Z.shiftr x 3).
Definition ssig1 (x : Z) : Z := Z.lxor (Z.lxor (rotr 17 x) (rotr 19 x)) (Z.shiftr x 10).

(** The primes below 312: there are 64 of them. *)
Definition is_prime (n : nat) : bool :=
  forallb (fun d => negb (Nat.eqb (n mod d) 0)) (seq 2 (n - 2)).

Definition primes : list Z :=
  Eval vm_compute in map Z.of_nat (List.filter is_prime (seq 2 310)).

(** The integer cube root, by bisection between [lo] and [hi]. *)
Fixpoint root3 (fuel : nat) (lo hi x : Z) : Z :=
  match fuel with
  | O => lo
  | S k =>
      if hi - lo <=? 1 then lo
      else
        let mid := (lo + hi) / 2 in
        if mid * mid * mid <=? x then root3 k mid hi x else root3 k lo mid x
  end.

(** The first 32 bits of the fractional part of a cube root and of a square
    root. *)
Definition frac_root3 (p : Z) : Z := w32 (root3 128 0 (2 ^ 36) (p * 2 ^ 96)).
Definition frac_root2 (p : Z) : Z := w32 (Z.sqrt (p * 2 ^ 64)).

(** The round constants: from the cube roots of the first 64 primes. *)
Definition K : list Z := Eval vm_compute in map frac_root3 primes.

(** The initial hash value: from the square roots of the first 8 primes. *)
Definition H0 : list Z := Eval vm_compute in map frac_root2 (firstn 8 primes).

(** Big-endian bytes of a number, [n] of them. *)
Fixpoint be_bytes (n : nat) (x : Z) : list Z :=
  match n with
  | O => []
  | S k => (x / 256 ^ Z.of_nat k) mod 256 :: be_bytes k x
  end.

Fixpoint be_words (l : list Z) : list Z :=
  match l with
  | a :: b :: c :: d :: r => (a * 16777216 + b * 65536 + c * 256 + d) :: be_words r
  | _ => []
  end.

(** The message followed by the byte 0x80, zeros up to 56 modulo 64, and the
    bit length on eight bytes. *)
Definition pad (msg : list Z) : list Z :=
  let len := Z.of_nat (List.length msg) in
  let zeros := Z.to_nat ((55 - len) mod 64) in
  msg ++ [128] ++ repeat 0 zeros ++ be_bytes 8 (8 * len).

(** The message schedule, newest word first. *)
Fixpoint schedule (n : nat) (rev_w : list Z) : list Z :=
  match n with
  | O => rev_w
  | S k =>
      let w := add32 (add32 (ssig1 (nth 1 rev_w 0)) (nth 6 rev_w 0))
                     (add32 (ssig0 (nth 14 rev_w 0)) (nth 15 rev_w 0)) in
      schedule k (w :: rev_w)
  end.

Definition round (st : list Z) (kw : Z * Z) : list Z :=
  match st with
  | [a; b; c; d; e; f; g; h] =>
      let t1 := add32 (add32 (add32 h (bsig1 e)) (add32 (Ch e f g) (fst kw))) (snd kw) in
      let t2 := add32 (bsig0 a) (Maj a b c) in
      [add32 t1 t2; a; b; c; add32 d t1; e; f; g]
  | _ => st
  end.

Definition compress (h : list Z) (block : list Z) : list Z :=
  let w := rev (schedule 48 (rev (be_words block))) in
  let st := fold_left round (combine K w) h in
  map (fun p => add32 (fst p) (snd p)) (combine h st).

Fixpoint blocks (fuel : nat) (l : list Z) : list (list Z) :=
  match fuel, l with
  | S k, _ :: _ => firstn 64 l :: blocks k (skipn 64 l)
  | _, _ => []
  end.

Definition sha256 (msg : list Z) : list Z :=
  let p := pad msg in
  flat_map (be_bytes 4) (fold_left compress (blocks (List.length p) p) H0).

(** [crypto.createHmac("sha256", key).update(msg).digest()] *)
Definition hmac_sha256 (key msg : list Z) : list Z :=
  let k0 := if 64 <? Z.of_nat (List.length key) then sha256 key else key in
  let k := k0 ++ repeat 0 (64 - List.length k0)%nat in
  sha256 (map (Z.lxor 0x5c) k ++ sha256 (map (Z.lxor 0x36) k ++ msg)).

End Crypto.

(** ** JSON values *)
Module Json.

(** The values [JSON.parse] produces.  Numbers are the integers; the fields
    of an object are its properties in enumeration order. *)
Inductive json : Type :=
  | JNull
  | JBool (b : bool)
  | JNum (n : Z)
  | JStr (s : string)
  | JArr (items : list json)
  | JObj (fields : list (string * json)).

(** A JavaScript value that may be [undefined]. *)
Abbreviation jsval := (option json).

(** Truthiness, as [!v], [v && ...] and [v || ...] test it. *)
Definition truthy (v : json) : bool :=
  match v with
  | JNull => false
  | JBool b => b
  | JNum n => negb (n =? 0)
  | JStr s => Js.nonempty s
  | JArr _ | JObj _ => true
  end.

Definition truthy_val (v : jsval) : bool :=
  match v with Some j => truthy j | None => false end.

(** [a || b] *)
Definition or_else (a b : jsval) : jsval := if truthy_val a then a else b.

Fixpoint assoc (name : string) (fields : list (string * json)) : jsval :=
  match fields with
  | [] => None
  | (k, v) :: r => if String.eqb k name then Some v else assoc name r
  end.

(** [v.name] on a value that is not [null], for a name that no prototype
    defines: the property of an object, [undefined] on anything else. *)
Definition prop (name : string) (v : json) : jsval :=
  match v with
  | JObj fields => assoc name fields
  | _ => None
  end.

(** [v?.name] on a value that may be [undefined] or [null]. *)
Definition opt_prop (name : string) (v : jsval) : jsval :=
  match v with
  | Some j => prop name j
  | None => None
  end.

Definition hex_digit (n : Z) : ascii :=
  if n <? 10 then Js.chr (n + 48) else Js.chr (n + 87).

Definition dquote : ascii := "034"%char.
Definition backslash : ascii := "092"%char.

(** A character inside a JSON string literal. *)
Definition escape_char (c : ascii) : string :=
  let n := Js.code c in
  if n =? 34 then String backslash (String dquote EmptyString)
  else if n =? 92 then "\\"
  else if n =? 8 then "\b"
  else if n =? 12 then "\f"
  else if n =? 10 then "\n"
  else if n =? 13 then "\r"
  else if n =? 9 then "\t"
  else if n <? 32 then "\u00" +:+ String (hex_digit (n / 16)) (String (hex_digit (n mod 16)) "")
  else String c "".

Fixpoint escape (s : string) : string :=
  match s with
  | EmptyString => EmptyString
  | String c r => escape_char c +:+ escape r
  end.

Definition quote (s : string) : string :=
  String dquote (escape s) +:+ String dquote EmptyString.

Definition commas (l : list string) : string :=
  match l with
  | [] => ""
  | x :: r => fold_left (fun acc y => acc +:+ "," +:+ y) r x
  end.

(** [JSON.stringify(v)] without indentation. *)
Fixpoint stringify (v : json) : string :=
  match v with
  | JNull => "null"
  | JBool true => "true"
  | JBool false => "false"
  | JNum n => Js.of_int n
  | JStr s => quote s
  | JArr items => "[" +:+ commas (map stringify items) +:+ "]"
  | JObj fields =>
      "{" +:+ commas (map (fun kv => quote (fst kv) +:+ ":" +:+ stringify (snd kv)) fields) +:+ "}"
  end.

End Json.
Export Json(json(..)).

(** ** The outside world: the clock and the exchange

    The handlers are asynchronous functions that read the clock, call
    [fetch] and may throw.  They are written in a state-and-exception monad
    over a [World]; what the outside answers is given by an [Env]. *)
Module Net.
Import Json.

Record Request := {
  method : string;
  url : string;
  headers : list (string * string);
  body : option string
}.

(** The value of a header, [None] when the request does not carry it. *)
Fixpoint header (name : string) (hs : list (string * string)) : option string :=
  match hs with
  | [] => None
  | (k, v) :: r => if String.eqb k name then Some v else header name r
  end.

(** What [JSON.parse] makes of a text. *)
Inductive Parse :=
  | Parsed (v : json)
  | SyntaxError (message : string).

(** The body of a response: reading it fails, or it gives a text, which
    [JSON.parse] reads or rejects. *)
Inductive Body :=
  | BodyFails (message : string)
  | BodyText (text : string) (parse : Parse).

Record Response := { status : Z; payload : Body }.

(** [response.ok] *)
Definition ok (r : Response) : bool := (200 <=? status r) && (status r <=? 299).

(** A call of [fetch] rejects (a failure of the transport) or resolves to a
    response, of any status. *)
Inductive FetchOutcome :=
  | Rejects (message : string)
  | Resolves (r : Response).

(** The exchange answers a request knowing the requests sent before it;
    [clock k] is what the [k]-th reading of [Date.now()] returns. *)
Record Env := {
  upstream : list Request -> Request -> FetchOutcome;
  clock : nat -> Z
}.

Record World := {
  sent : list Request;   (* the requests handed to fetch, oldest first *)
  reads : nat;           (* how often the clock was read *)
  waited : Z             (* milliseconds spent in setTimeout *)
}.

Definition start : World := {| sent := []; reads := 0%nat; waited := 0 |}.

Inductive Res (A : Type) :=
  | Ok (a : A)
  | Throw (message : string).
Arguments Ok {A} a.
Arguments Throw {A} message.

Definition M (A : Type) : Type := Env -> World -> Res A * World.

Definition ret {A} (a : A) : M A := fun _ w => (Ok a, w).

Definition bind {A B} (m : M A) (k : A -> M B) : M B :=
  fun env w =>
    match m env w with
    | (Ok a, w') => k a env w'
    | (Throw e, w') => (Throw e, w')
    end.

Definition throw {A} (message : string) : M A := fun _ w => (Throw message, w).

(** [try { m } catch (e) { h(e.message) }] *)
Definition try_catch {A} (m : M A) (h : string -> M A) : M A :=
  fun env w =>
    match m env w with
    | (Ok a, w') => (Ok a, w')
    | (Throw e, w') => h e env w'
    end.

(** [Date.now()] *)
Definition now : M Z :=
  fun env w =>
    (Ok (clock env (reads w)),
     {| sent := sent w; reads := S (reads w); waited := waited w |}).

(** [await fetch(url, { method, headers, body })] *)
Definition fetch (req : Request) : M Response :=
  fun env w =>
    let w' := {| sent := sent w ++ [req]; reads := reads w; waited := waited w |} in
    match upstream env (sent w) req with
    | Rejects e => (Throw e, w')
    | Resolves r => (Ok r, w')
    end.

(** [await new Promise(resolve => setTimeout(resolve, ms))] *)
Definition sleep (ms : Z) : M unit :=
  fun _ w => (Ok tt, {| sent := sent w; reads := reads w; waited := waited w + ms |}).

(** [await response.text()] *)
Definition text_of (r : Response) : M string :=
  match payload r with
  | BodyFails e => throw e
  | BodyText t _ => ret t
  end.

(** [JSON.parse] of the text that [text_of] returned. *)
Definition parse_of (r : Response) : Parse :=
  match payload r with
  | BodyFails e => SyntaxError e
  | BodyText _ p => p
  end.

(** [await response.json()] *)
Definition json_of (r : Response) : M json :=
  match payload r with
  | BodyFails e => throw e
  | BodyText _ (SyntaxError e) => throw e
  | BodyText _ (Parsed v) => ret v
  end.

(** [let up = await r.text(); try { up = JSON.parse(up); } catch {}] *)
Definition text_or_json (r : Response) : M json :=
  bind (text_of r) (fun t =>
  ret (match parse_of r with Parsed v => v | SyntaxError _ => JStr t end)).

(** Reading a property of [null] throws a TypeError. *)
Definition null_read (name : string) : string :=
  "Cannot read properties of null (reading '" +:+ name +:+ "')".

(** [v.name], which throws when [v] is [null]. *)
Definition read (name : string) (v : json) : M jsval :=
  match v with
  | JNull => throw (null_read name)
  | _ => ret (prop name v)
  end.

End Net.

Declare Scope js_scope.
Delimit Scope js_scope with js.
Notation "'await' x <- m ; k" := (Net.bind m (fun x => k))
  (at level 10, x name, m at level 100, k at level 200,
   format "'[v' 'await'  x  <-  m ; '/' k ']'") : js_scope.

(** ** [src/utils/hmac.js] *)
Module Hmac.

(** [secret.replace(/-/g, '+').replace(/_/g, '/')] *)
Definition normalizedSecret (secret : string) : string :=
  Js.replace_all "_" "/" (Js.replace_all "-" "+" secret).

(** The key [crypto.createHmac('sha256', normalizedSecret)] works with: a
    string key stands for its UTF-8 bytes. *)
Definition hmac_key (secret : string) : list Z := Js.utf8 (normalizedSecret secret).

Definition hmacBase64 (secret message : string) : string :=
  Base64.encode (Crypto.hmac_sha256 (hmac_key secret) (Js.utf8 message)).

(** The template literal [`${method}${path}${timestamp}${body}`]. *)
Definition preimage (method path : string) (timestamp : Z) (body : string) : string :=
  method +:+ path +:+ Js.of_int timestamp +:+ body.

(** [body] is [None] when the caller passes no fifth argument; the default
    parameter value is the empty string. *)
Definition generateSignature (secret method path : string) (timestamp : Z)
    (body : option string) : string :=
  hmacBase64 secret (preimage method path timestamp (default EmptyString body)).

Definition isValidSignature (signature : string) : bool := Js.nonempty signature.

End Hmac.

(** ** [src/utils/polymarket.js] *)
Module Polymarket.
Import Json Net.
Local Open Scope js_scope.

Definition CLOB_BASE_URL : string := "https://clob.polymarket.com".

Definition getBrowserHeaders (address apiKey passphrase : string) (timestamp : Z)
    (signature : string) : list (string * string) :=
  [ ("Accept", "application/json");
    ("Accept-Encoding", "gzip, deflate, br");
    ("Accept-Language", "en-US,en;q=0.9");
    ("Content-Type", "application/json");
    ("Origin", "https://polymarket.com");
    ("Referer", "https://polymarket.com/");
    ("User-Agent", "Mozilla/5.0 (Macintosh; Intel Mac OS X 10_15_7) AppleWebKit/537.36 (KHTML, like Gecko) Chrome/120.0.0.0 Safari/537.36");
    ("sec-ch-ua", String Json.dquote "Not_A Brand" +:+ String Json.dquote ";v="
                    +:+ String Json.dquote "8" +:+ String Json.dquote ", "
                    +:+ String Json.dquote "Chromium" +:+ String Json.dquote ";v="
                    +:+ String Json.dquote "120" +:+ String Json.dquote EmptyString);
    ("sec-ch-ua-mobile", "?0");
    ("sec-ch-ua-platform", String Json.dquote "macOS" +:+ String Json.dquote EmptyString);
    ("sec-fetch-dest", "empty");
    ("sec-fetch-mode", "cors");
    ("sec-fetch-site", "same-site");
    ("POLY_ADDRESS", address);
    ("POLY_API_KEY", apiKey);
    ("POLY_PASSPHRASE", passphrase);
    ("POLY_TIMESTAMP", Js.of_int timestamp);
    ("POLY_SIGNATURE", signature) ].

(** What one attempt returns: [{ success, data, error, status }]. *)
Record Attempt := {
  success : bool;
  data : jsval;
  error : jsval;
  status : Z
}.

(** The request an attempt sends, from the clock reading [ms]. *)
Definition order_request (address apiKey secret passphrase : string)
    (signedOrder : json) (ms : Z) : Request :=
  let timestamp := ms / 1000 in
  let body := Json.stringify signedOrder in
  let signature := Hmac.generateSignature secret "POST" "/order" timestamp (Some body) in
  {| method := "POST";
     url := CLOB_BASE_URL +:+ "/order";
     headers := getBrowserHeaders address apiKey passphrase timestamp signature;
     body := Some body |}.

Definition attemptTrade (address apiKey secret passphrase : string)
    (signedOrder : json) : M Attempt :=
  await ms <- now;
  try_catch
    (await response <- fetch (order_request address apiKey secret passphrase signedOrder ms);
     await responseText <- text_of response;
     let data :=
       match parse_of response with
       | Parsed v => v
       | SyntaxError _ => JObj [("raw", JStr responseText)]
       end in
     await err <-
       (if negb (ok response) then
          await e <- read "error" data;
          ret (or_else (or_else e (prop "message" data)) (Some (JStr responseText)))
        else ret None);
     ret {| success := ok response; data := Some data; error := err;
            status := Net.status response |})
    (fun message =>
       ret {| success := false; data := None; error := Some (JStr message);
              status := 500 |}).

Inductive Identity := owner | funder.

(** [{ api_key, secret, passphrase }] *)
Record Credentials := {
  api_key : string;
  secret : string;
  passphrase : string
}.

(** What [executeTrade] returns: [{ success: true, orderId, attemptedWith }]
    or [{ success: false, error, status, attemptedWith }]. *)
Inductive Executed :=
  | Placed (orderId : json) (attemptedWith : Identity)
  | Failed (error : json) (status : Z) (attemptedWith : Identity).

Definition succeeded (r : Executed) : bool :=
  match r with Placed _ _ => true | Failed _ _ _ => false end.

Definition attemptedWith (r : Executed) : Identity :=
  match r with Placed _ i => i | Failed _ _ i => i end.

(** The address of the second attempt, when there is one:
    [result.status === 403 && funderAddress &&
     funderAddress.toLowerCase() !== ownerAddress.toLowerCase()].
    An absent funder address ([undefined] or [null]) is [None]. *)
Definition retry_with (first_status : Z) (ownerAddress : string)
    (funderAddress : option string) : option string :=
  match funderAddress with
  | Some f =>
      if (first_status =? 403) && Js.nonempty f
         && negb (String.eqb (Js.toLowerCase f) (Js.toLowerCase ownerAddress))
      then Some f else None
  | None => None
  end.

(** [v || s] for a string [s] *)
Definition or_string (v : jsval) (s : string) : json :=
  match v with
  | Some j => if truthy j then j else JStr s
  | None => JStr s
  end.

Definition executeTrade (credentials : Credentials) (signedOrder : json)
    (ownerAddress : string) (funderAddress : option string) : M Executed :=
  let '{| api_key := api_key; secret := secret; passphrase := passphrase |} := credentials in
  await first <- attemptTrade ownerAddress api_key secret passphrase signedOrder;
  await last <-
    match retry_with (status first) ownerAddress funderAddress with
    | Some f =>
        await _ <- sleep 350;
        await second <- attemptTrade f api_key secret passphrase signedOrder;
        ret (second, funder)
    | None => ret (first, owner)
    end;
  let '(result, who) := last in
  let failed := Failed (or_string (error result) "Trade failed") (status result) who in
  match opt_prop "orderID" (data result) with
  | Some orderID =>
      if success result && truthy orderID then ret (Placed orderID who) else ret failed
  | None => ret failed
  end.

(** What [checkTradingStatus] returns:
    [{ tradingEnabled, closedOnly }] or [{ tradingEnabled: false, error }]. *)
Record TradingStatus := {
  tradingEnabled : bool;
  closedOnly : jsval;
  status_error : option string
}.

Definition status_request (address apiKey secret passphrase : string) (ms : Z) : Request :=
  let timestamp := ms / 1000 in
  let signature :=
    Hmac.generateSignature secret "GET" "/auth/ban-status/closed-only" timestamp None in
  {| method := "GET";
     url := CLOB_BASE_URL +:+ "/auth/ban-status/closed-only";
     headers := List.filter (fun kv => negb (String.eqb (fst kv) "Content-Type"))
                  (getBrowserHeaders address apiKey passphrase timestamp signature);
     body := None |}.

Definition checkTradingStatus (address apiKey secret passphrase : string) : M TradingStatus :=
  await ms <- now;
  try_catch
    (await response <- fetch (status_request address apiKey secret passphrase ms);
     if negb (ok response) then
       ret {| tradingEnabled := false; closedOnly := None;
              status_error := Some ("Status check failed: " +:+ Js.of_int (Net.status response)) |}
     else
       await data <- json_of response;
       await flag <- read "closedOnly" data;
       ret {| tradingEnabled := negb (truthy_val flag); closedOnly := flag;
              status_error := None |})
    (fun message =>
       ret {| tradingEnabled := false; closedOnly := None; status_error := Some message |}).

End Polymarket.

(** ** [src/middleware/auth.js] *)
Module Auth.
Import Json.

(** The environment variables the module reads. *)
Record Config := {
  API_SECRET_KEY : option string;
  NODE_ENV : option string
}.

(** [process.env.API_SECRET_KEY || 'dev-secret-key-change-in-production'] *)
Definition API_SECRET (cfg : Config) : string :=
  match API_SECRET_KEY cfg with
  | Some s => if Js.nonempty s then s else "dev-secret-key-change-in-production"
  | None => "dev-secret-key-change-in-production"
  end.

Definition RATE_LIMIT_WINDOW : Z := 60 * 1000.
Definition RATE_LIMIT_MAX_REQUESTS : Z := 10.

(** What a middleware does with a request: it answers, or it calls [next]. *)
Inductive Verdict :=
  | Answer (code : Z) (reply : json)
  | Next.

(** The class [\s] on code units below 256. *)
Definition is_space (c : ascii) : bool :=
  let n := Js.code c in
  ((9 <=? n) && (n <=? 13)) || (n =? 32) || (n =? 160).

Fixpoint drop_spaces (l : list ascii) : list ascii :=
  match l with
  | c :: r => if is_space c then drop_spaces r else l
  | [] => []
  end.

(** [authHeader.replace(/^Bearer\s+/i, '')] *)
Definition strip_bearer (authHeader : string) : string :=
  match Js.chars authHeader with
  | b :: e :: a :: r :: e' :: r' :: sp :: rest =>
      if String.eqb (Js.toLowerCase (string_of_list_ascii [b; e; a; r; e'; r'])) "bearer"
         && is_space sp
      then string_of_list_ascii (drop_spaces rest)
      else authHeader
  | _ => authHeader
  end.

(** [authorization] is the header of the request, [None] when it has none. *)
Definition authenticateRequest (cfg : Config) (authorization : option string) : Verdict :=
  match authorization with
  | None => Answer 401 (JObj [("error", JStr "Missing authorization header")])
  | Some authHeader =>
      if negb (Js.nonempty authHeader) then
        Answer 401 (JObj [("error", JStr "Missing authorization header")])
      else
        let token := strip_bearer authHeader in
        if bool_decide (NODE_ENV cfg = Some "production")
           && negb (String.eqb token (API_SECRET cfg))
           && negb (Js.includes "." token)
        then Answer 403 (JObj [("error", JStr "Invalid API key")])
        else Next
  end.

(** [Math.ceil(x / 1000)] *)
Definition ceil_seconds (x : Z) : Z := (x + 999) / 1000.

(** [timestamp => now - timestamp < RATE_LIMIT_WINDOW] *)
Definition fresh (now timestamp : Z) : bool := now - timestamp <? RATE_LIMIT_WINDOW.

(** What the rate limiter does.  [Missing] is the answer 400
    [{ error: 'Missing userId for rate limiting' }]; [Exceeded r] is the
    answer 429 [{ error, retryAfter: r, limit: 10, window: 60 }], where [r] is
    [None] if the arithmetic gives no number; [Pass k] is the call of [next]
    after the headers were set, [X-RateLimit-Remaining] to [k]. *)
Inductive Limit :=
  | Missing
  | Exceeded (retryAfter : option Z)
  | Pass (remaining : Z).

(** [rateLimitMap] is the map of the module; [userId] is [None] when neither
    body nor query has one; [now] is what [Date.now()] returns.  The new map
    is returned with the outcome. *)
Definition rateLimiter (rateLimitMap : gmap string (list Z)) (userId : option string)
    (now : Z) : Limit * gmap string (list Z) :=
  match userId with
  | None => (Missing, rateLimitMap)
  | Some userId =>
      if negb (Js.nonempty userId) then (Missing, rateLimitMap)
      else
        let userKey := "ratelimit:" +:+ userId in
        let requests := default [] (rateLimitMap !! userKey) in
        let requests := List.filter (fresh now) requests in
        if RATE_LIMIT_MAX_REQUESTS <=? Z.of_nat (List.length requests) then
          let retryAfter :=
            match requests with
            | oldestRequest :: _ =>
                Some (ceil_seconds (RATE_LIMIT_WINDOW - (now - oldestRequest)))
            | [] => None
            end in
          (Exceeded retryAfter, rateLimitMap)
        else
          let requests := requests ++ [now] in
          (Pass (RATE_LIMIT_MAX_REQUESTS - Z.of_nat (List.length requests)),
           <[userKey := requests]> rateLimitMap)
  end.

(** The periodic clean-up: every list loses its expired entries, and a key
    whose list becomes empty is deleted. *)
Definition cleanup (rateLimitMap : gmap string (list Z)) (now : Z) : gmap string (list Z) :=
  omap (fun requests =>
          match List.filter (fresh now) requests with
          | [] => None
          | validRequests => Some validRequests
          end) rateLimitMap.

(** What happens to the module over time: requests pass through the
    limiter, and the timer fires. *)
Inductive Event :=
  | Req (userId : string) (now : Z)
  | Sweep (now : Z).

Definition time_of (e : Event) : Z :=
  match e with Req _ t => t | Sweep t => t end.

Definition step (m : gmap string (list Z)) (e : Event) : gmap string (list Z) :=
  match e with
  | Req u t => snd (rateLimiter m (Some u) t)
  | Sweep t => cleanup m t
  end.

Definition play (m : gmap string (list Z)) (evs : list Event) : gmap string (list Z) :=
  fold_left step evs m.

End Auth.

(** ** [src/server.js] *)
Module Server.
Import Json Net.
Local Open Scope js_scope.

(** [ENV] is [process.env.NODE_ENV || "prod"], [RELAY_KEY] is
    [process.env.RELAY_KEY || ""]. *)
Record Config := {
  ENV : string;
  RELAY_KEY : string
}.

Definition CLOB : string := "https://clob.polymarket.com".

(** A row of [STORE]: [{ key, secret, pass, owner }]. *)
Record Row := {
  key : string;
  secret : string;
  pass : string;
  owner : string
}.

(** [`polymarket:${ENV}:${String(eoa).toLowerCase()}`] *)
Definition rowKey (cfg : Config) (eoa : string) : string :=
  "polymarket:" +:+ ENV cfg +:+ ":" +:+ Js.toLowerCase eoa.

(** [String(Math.floor(Date.now() / 1000))] *)
Definition tsSec : M string :=
  await ms <- now;
  ret (Js.of_int (ms / 1000)).

Fixpoint drop_digits (l : list ascii) : list ascii :=
  match l with
  | c :: r => if Base64.is_std_digit c then drop_digits r else l
  | [] => []
  end.

(** [/^[A-Za-z0-9+/]+={0,2}$/.test(s || "")] *)
Definition isB64 (s : string) : bool :=
  match Js.chars s with
  | c :: r =>
      Base64.is_std_digit c
      && match drop_digits r with
         | [] => true
         | [e] => Ascii.eqb e "="
         | [e1; e2] => Ascii.eqb e1 "=" && Ascii.eqb e2 "="
         | _ => false
         end
  | [] => false
  end.

(** [isB64(secret) ? Buffer.from(secret, "base64") : Buffer.from(secret, "utf8")] *)
Definition hmac_key (secret : string) : list Z :=
  if isB64 secret then Base64.decode secret else Js.utf8 secret.

Definition hmacB64 (secret pre : string) : string :=
  Base64.encode (Crypto.hmac_sha256 (hmac_key secret) (Js.utf8 pre)).

(** [res.status(code).json(reply)] *)
Record Reply := { code : Z; reply : json }.

(** [req.headers["x-relay-key"] !== RELAY_KEY] *)
Definition okRelay (cfg : Config) (relay_key : option string) : bool :=
  match relay_key with
  | Some k => String.eqb k (RELAY_KEY cfg)
  | None => false
  end.

Definition unauthorized : Reply :=
  {| code := 401; reply := JObj [("ok", JBool false); ("error", JStr "Unauthorized relay")] |}.

Definition crash (message : string) : Reply :=
  {| code := 500;
     reply := JObj [("ok", JBool false); ("error", JStr "RelayCrash"); ("message", JStr message)] |}.

(** A number or a string, as a client writes a timestamp or a nonce. *)
Inductive scalar :=
  | Num (n : Z)
  | Str (s : string).

Definition scalar_truthy (v : scalar) : bool :=
  match v with Num n => negb (n =? 0) | Str s => Js.nonempty s end.

(** [String(v)] *)
Definition scalar_string (v : scalar) : string :=
  match v with Num n => Js.of_int n | Str s => s end.

(** The fields the handler takes from the body of an [auth-create] request;
    a field the body does not have is [None]. *)
Record L1Input := {
  address : option string;
  timestamp : option scalar;
  nonce : option scalar;
  eip712Signature : option string
}.

(** The body of a request to the relay, as the handler sees it: a string
    that [JSON.parse] rejects, or the fields of the parsed value. *)
Inductive Incoming (F : Type) :=
  | BadJson (message : string)
  | Fields (f : F).
Arguments BadJson {F} message.
Arguments Fields {F} f.

Definition L1 (address signature : string) (timestamp nonce : scalar) : list (string * string) :=
  [ ("content-type", "application/json");
    ("accept", "application/json");
    ("POLY_ADDRESS", address);
    ("POLY_SIGNATURE", signature);
    ("POLY_TIMESTAMP", scalar_string timestamp);
    ("POLY_NONCE", scalar_string nonce) ].

Definition create_request (l1 : list (string * string)) : Request :=
  {| method := "POST"; url := CLOB +:+ "/auth/api-key"; headers := l1; body := Some "{}" |}.

Definition derive_request (l1 : list (string * string)) : Request :=
  {| method := "GET"; url := CLOB +:+ "/auth/derive-api-key"; headers := l1; body := None |}.

Definition access_request (address : string) : Request :=
  {| method := "GET"; url := CLOB +:+ "/auth/access-status?address=" +:+ address;
     headers := []; body := None |}.

Definition L2 (eoa key passphrase ts sig : string) : list (string * string) :=
  [ ("accept", "application/json");
    ("POLY_ADDRESS", eoa);
    ("POLY_API_KEY", key);
    ("POLY_PASSPHRASE", passphrase);
    ("POLY_TIMESTAMP", ts);
    ("POLY_SIGNATURE", sig) ].

Definition verify_request (eoa key secret passphrase ts : string) : Request :=
  let pre := "GET/auth/api-keys" +:+ ts in
  {| method := "GET"; url := CLOB +:+ "/auth/api-keys";
     headers := L2 eoa key passphrase ts (hmacB64 secret pre); body := None |}.

(** [sent: { keySfx: key.slice(-6), passSfx: passphrase.slice(-4), ts, pre }] *)
Definition sent_info (key passphrase ts pre : string) : json :=
  JObj [("keySfx", JStr (Js.slice_last 6 key)); ("passSfx", JStr (Js.slice_last 4 passphrase));
        ("ts", JStr ts); ("pre", JStr pre)].

(** The credentials an answer of the exchange carries:
    [const { key, secret, passphrase } = up || {}]. *)
Definition credential (name : string) (up : json) : jsval := prop name up.

Definition as_string (v : jsval) : option string :=
  match v with Some (JStr s) => Some s | _ => None end.

(** What a handler did: it answered, or it met a value whose handling is
    not modelled.  The exchange sends [key], [secret] and [passphrase] as
    strings; an answer in which one of them is a number, [true], an array or
    an object passes the handler's test for presence, and what the runtime
    then does with it as an HMAC key or a header is left out. *)
Inductive Outcome :=
  | Replied (r : Reply)
  | OutsideModel.

(** [POST /polymarket/auth-create].  The handler gets the store and returns
    it, changed by [STORE.set] or not. *)
Definition auth_create (cfg : Config) (STORE : gmap string Row)
    (relay_key : option string) (body : Incoming L1Input)
    : M (Outcome * gmap string Row) :=
  if negb (okRelay cfg relay_key) then ret (Replied unauthorized, STORE) else
  try_catch
    (await body <- match body with BadJson e => throw e | Fields f => ret f end;
     match address body, timestamp body, eip712Signature body with
     | Some address, Some timestamp, Some eip712Signature =>
       if negb (Js.nonempty address && scalar_truthy timestamp
                && Js.nonempty eip712Signature)
       then ret (Replied {| code := 400;
                            reply := JObj [("ok", JBool false);
                                           ("error", JStr "Missing L1 inputs")] |}, STORE)
       else
       let l1 := L1 address eip712Signature timestamp (default (Num 0) (nonce body)) in
       await r <- fetch (create_request l1);
       await up <- text_or_json r;
       await created <-
         (if negb (ok r) then
            await r <- fetch (derive_request l1);
            await up <- text_or_json r;
            if negb (ok r) then
              await a <- fetch (access_request address);
              await aJSON <- text_or_json a;
              ret (inl {| code := Net.status r;
                          reply := JObj [("ok", JBool false); ("where", JStr "derive");
                                         ("upstream", up); ("accessStatus", aJSON)] |})
            else ret (inr up)
          else ret (inr up));
       match created with
       | inl failure => ret (Replied failure, STORE)
       | inr up =>
         let key := credential "key" up in
         let secret := credential "secret" up in
         let passphrase := credential "passphrase" up in
         if negb (truthy_val key && truthy_val secret && truthy_val passphrase)
         then ret (Replied {| code := 502;
                              reply := JObj [("ok", JBool false);
                                             ("error", JStr "Malformed API-key response");
                                             ("upstream", up)] |}, STORE)
         else
         match as_string key, as_string secret, as_string passphrase with
         | Some key, Some secret, Some passphrase =>
           let eoa := address in
           await ts <- tsSec;
           let pre := "GET/auth/api-keys" +:+ ts in
           await v <- fetch (verify_request eoa key secret passphrase ts);
           await vJSON <- text_or_json v;
           if negb (ok v) then
             ret (Replied {| code := Net.status v;
                             reply := JObj [("ok", JBool false); ("where", JStr "verify");
                                            ("upstream", vJSON);
                                            ("sent", sent_info key passphrase ts pre)] |},
                  STORE)
           else
             let STORE := <[rowKey cfg eoa :=
                              {| key := key; secret := secret; pass := passphrase;
                                 owner := Js.toLowerCase eoa |}]> STORE in
             ret (Replied {| code := 200;
                             reply := JObj [("ok", JBool true); ("owner", JStr eoa);
                                            ("keySuffix", JStr (Js.slice_last 6 key));
                                            ("passSuffix", JStr (Js.slice_last 4 passphrase))] |},
                  STORE)
         | _, _, _ => ret (OutsideModel, STORE)
         end
       end
     | _, _, _ =>
       ret (Replied {| code := 400;
                       reply := JObj [("ok", JBool false);
                                      ("error", JStr "Missing L1 inputs")] |}, STORE)
     end)
    (fun message => ret (Replied (crash message), STORE)).

(** The answer of the two handlers that forward a signed request:
    [{ ok: r.ok, status: r.status, upstream: up, sent: {...} }]. *)
Definition forwarded (r : Response) (up : json) (row : Row) (ts pre : string) : Reply :=
  {| code := Net.status r;
     reply := JObj [("ok", JBool (ok r)); ("status", JNum (Net.status r)); ("upstream", up);
                    ("sent", sent_info (key row) (pass row) ts pre)] |}.

Definition no_creds : Reply :=
  {| code := 400; reply := JObj [("ok", JBool false); ("error", JStr "No creds for EOA")] |}.

Definition sanity_request (eoa : string) (row : Row) (ts : string) : Request :=
  let pre := "GET/auth/ban-status/closed-only" +:+ ts in
  {| method := "GET"; url := CLOB +:+ "/auth/ban-status/closed-only";
     headers := L2 eoa (key row) (pass row) ts (hmacB64 (secret row) pre); body := None |}.

(** [GET /polymarket/l2-sanity]; [address] is [req.query.address]. *)
Definition l2_sanity (cfg : Config) (STORE : gmap string Row)
    (relay_key : option string) (address : option string) : M Reply :=
  if negb (okRelay cfg relay_key) then ret unauthorized else
  try_catch
    (let eoa := default EmptyString address in
     match STORE !! rowKey cfg eoa with
     | None => ret no_creds
     | Some row =>
       await ts <- tsSec;
       let pre := "GET/auth/ban-status/closed-only" +:+ ts in
       await r <- fetch (sanity_request eoa row ts);
       await up <- text_or_json r;
       ret (forwarded r up row ts pre)
     end)
    (fun message => ret (crash message)).

Definition order_request (eoa : string) (row : Row) (ts body : string) : Request :=
  let pre := "POST/order" +:+ ts +:+ body in
  {| method := "POST"; url := CLOB +:+ "/order";
     headers :=
       [ ("accept", "application/json");
         ("content-type", "application/json");
         ("POLY_ADDRESS", eoa);
         ("POLY_API_KEY", key row);
         ("POLY_PASSPHRASE", pass row);
         ("POLY_TIMESTAMP", ts);
         ("POLY_SIGNATURE", hmacB64 (secret row) pre) ];
     body := Some body |}.

(** [POST /polymarket/order].  [body] is [req.body] when that is a string
    and [JSON.stringify(req.body)] otherwise; [parsed] gives the [address]
    of the parsed body, or tells that the body is a string which
    [JSON.parse] rejects. *)
Definition order (cfg : Config) (STORE : gmap string Row)
    (relay_key : option string) (body : string) (parsed : Incoming (option string))
    : M Reply :=
  if negb (okRelay cfg relay_key) then ret unauthorized else
  try_catch
    (await address <- match parsed with BadJson e => throw e | Fields a => ret a end;
     let eoa := default EmptyString address in
     match STORE !! rowKey cfg eoa with
     | None => ret no_creds
     | Some row =>
       await ts <- tsSec;
       let pre := "POST/order" +:+ ts +:+ body in
       await r <- fetch (order_request eoa row ts body);
       await up <- text_or_json r;
       ret (forwarded r up row ts pre)
     end)
    (fun message => ret (crash message)).

End Server.


(** ** [src/db/init.js] and [src/routes/polymarket.js] *)
Module Routes.
Import Json Net.
Local Open Scope js_scope.

(** The environment variables the two files read. *)
Record Config := {
  auth : Auth.Config;
  DATABASE_URL : option string
}.

(** [!!(process.env.DATABASE_URL || process.env.NODE_ENV === 'production')] *)
Definition isPostgres (cfg : Config) : bool :=
  match DATABASE_URL cfg with
  | Some s => Js.nonempty s || bool_decide (Auth.NODE_ENV (auth cfg) = Some "production")
  | None => bool_decide (Auth.NODE_ENV (auth cfg) = Some "production")
  end.

(** A row of the table [user_credentials].  The text columns hold strings;
    [funder_address] may be [NULL].  The two time columns are kept as the
    text the driver gives back for them. *)
Record Row := {
  user_id : string;
  api_key : string;
  secret : string;
  passphrase : string;
  wallet_address : string;
  funder_address : option string;
  created_at : string;
  updated_at : string
}.

(** The database of the process: [getDb] throws before [initDatabase] has
    run; a database that is there answers the queries over its rows, one row
    per [user_id], or fails them. *)
Inductive Db :=
  | NotInitialized
  | Failing
  | Ready (rows : gmap string Row).

(** [getDb()] followed by a query: the rows, or the message thrown. *)
Definition query (db : Db) : Res (gmap string Row) :=
  match db with
  | NotInitialized => Throw "Database not initialized. Call initDatabase() first."
  | Failing => Throw "query failed"
  | Ready rows => Ok rows
  end.

(** [res.status(code).json(reply)] *)
Record Reply := { code : Z; reply : json }.

Definition error_reply (code : Z) (message : string) : Reply :=
  {| code := code; reply := JObj [("error", JStr message)] |}.

(** [v || null] for a string that may be absent *)
Definition or_null (v : option string) : option string :=
  match v with
  | Some s => if Js.nonempty s then Some s else None
  | None => None
  end.

Definition present (v : option string) : bool :=
  match v with Some s => Js.nonempty s | None => false end.

(** The body of [POST /credentials]; a field the body lacks is [None].
    The fields are strings, as the clients of the relay send them. *)
Record CredentialsBody := {
  c_userId : option string;
  c_apiKey : option string;
  c_secret : option string;
  c_passphrase : option string;
  c_walletAddress : option string;
  c_funderAddress : option string
}.

(** The two statements that store a row.  PostgreSQL updates the row of the
    user in place ([ON CONFLICT (user_id) DO UPDATE]), which keeps its
    [created_at]; SQLite replaces the row ([INSERT OR REPLACE]), which gives
    it the default [created_at] again.  [stamp] is what the database takes for
    [CURRENT_TIMESTAMP], [now] is [new Date().toISOString()]. *)
Definition upsert (postgres : bool) (stamp now : string) (userId apiKey secret passphrase
    walletAddress : string) (funderAddress : option string) (rows : gmap string Row)
    : gmap string Row :=
  let created :=
    match rows !! userId with
    | Some old => if postgres then created_at old else stamp
    | None => stamp
    end in
  <[userId := {| user_id := userId; api_key := apiKey; secret := secret;
                 passphrase := passphrase; wallet_address := walletAddress;
                 funder_address := funderAddress; created_at := created;
                 updated_at := now |}]> rows.

(** The handler of [POST /credentials]; it returns the database with its
    answer. *)
Definition store_credentials (cfg : Config) (db : Db) (stamp now : string)
    (body : CredentialsBody) : Reply * Db :=
  match c_userId body, c_apiKey body, c_secret body, c_passphrase body,
        c_walletAddress body with
  | Some userId, Some apiKey, Some secret, Some passphrase, Some walletAddress =>
      if negb (Js.nonempty userId && Js.nonempty apiKey && Js.nonempty secret
               && Js.nonempty passphrase && Js.nonempty walletAddress)
      then (error_reply 400 "Missing required fields", db)
      else
        match query db with
        | Throw _ => (error_reply 500 "Failed to store credentials", db)
        | Ok rows =>
            ({| code := 200; reply := JObj [("success", JBool true)] |},
             Ready (upsert (isPostgres cfg) stamp now userId apiKey secret passphrase
                      walletAddress (or_null (c_funderAddress body)) rows))
        end
  | _, _, _, _, _ => (error_reply 400 "Missing required fields", db)
  end.

Definition null_or_string (v : option string) : json :=
  match v with Some s => JStr s | None => JNull end.

(** The handler of [GET /credentials/:userId] *)
Definition fetch_credentials (db : Db) (userId : string) : Reply :=
  match query db with
  | Throw _ => error_reply 500 "Failed to fetch credentials"
  | Ok rows =>
      match rows !! userId with
      | None => error_reply 404 "Credentials not found"
      | Some result =>
          {| code := 200;
             reply := JObj [("userId", JStr (user_id result));
                            ("walletAddress", JStr (wallet_address result));
                            ("funderAddress", null_or_string (funder_address result));
                            ("hasCredentials", JBool true);
                            ("createdAt", JStr (created_at result))] |}
      end
  end.

(** The handler of [DELETE /credentials/:userId] *)
Definition delete_credentials (db : Db) (userId : string) : Reply * Db :=
  match query db with
  | Throw _ => (error_reply 500 "Failed to delete credentials", db)
  | Ok rows =>
      ({| code := 200; reply := JObj [("success", JBool true)] |}, Ready (delete userId rows))
  end.

(** The [credentials] object a trade request may carry. *)
Record ProvidedCreds := {
  p_api_key : option string;
  p_secret : option string;
  p_passphrase : option string;
  p_funder_address : option string
}.

(** The body of [POST /trade]. *)
Record TradeBody := {
  userId : option string;
  signedOrder : option json;
  walletAddress : option string;
  funderAddress : option string;
  credentials : option ProvidedCreds
}.

(** The credentials the trade handler works with, from the request or from
    the database: the three secrets, absent or empty when the object lacks
    them, and the funder address. *)
Record Chosen := {
  chosen_api_key : option string;
  chosen_secret : option string;
  chosen_passphrase : option string;
  chosen_funder_address : option string
}.

Definition of_provided (p : ProvidedCreds) : Chosen :=
  {| chosen_api_key := p_api_key p; chosen_secret := p_secret p;
     chosen_passphrase := p_passphrase p; chosen_funder_address := p_funder_address p |}.

Definition of_row (r : Row) : Chosen :=
  {| chosen_api_key := Some (api_key r); chosen_secret := Some (secret r);
     chosen_passphrase := Some (passphrase r); chosen_funder_address := funder_address r |}.

(** [providedCreds && providedCreds.api_key && providedCreds.secret &&
     providedCreds.passphrase] *)
Definition usable (p : option ProvidedCreds) : bool :=
  match p with
  | Some p => present (p_api_key p) && present (p_secret p) && present (p_passphrase p)
  | None => false
  end.

Definition identity_name (who : Polymarket.Identity) : string :=
  match who with Polymarket.owner => "owner" | Polymarket.funder => "funder" end.

(** The answer to a trade that was executed. *)
Definition trade_reply (result : Polymarket.Executed) : Reply :=
  match result with
  | Polymarket.Placed orderId who =>
      {| code := 200;
         reply := JObj [("success", JBool true); ("orderId", orderId);
                        ("attemptedWith", JStr (identity_name who))] |}
  | Polymarket.Failed error status who =>
      {| code := if status =? 0 then 400 else status;
         reply := JObj [("success", JBool false); ("error", error);
                        ("attemptedWith", JStr (identity_name who))] |}
  end.

(** The handler of [POST /trade]. *)
Definition trade (db : Db) (body : TradeBody) : M Reply :=
  try_catch
    (match signedOrder body, walletAddress body with
     | Some signedOrder, Some walletAddress =>
       if negb (truthy signedOrder && Js.nonempty walletAddress)
       then ret (error_reply 400 "Missing required fields: signedOrder, walletAddress")
       else
       await credentials <-
         (if usable (credentials body) then ret (of_provided <$> credentials body)
          else if present (userId body) then
            match query db with
            | Throw e => throw e
            | Ok rows => ret (of_row <$> (rows !! default EmptyString (userId body)))
            end
          else ret None);
       match credentials with
       | None => ret (error_reply 404 "Credentials not found. Please connect your wallet first.")
       | Some credentials =>
         match chosen_api_key credentials, chosen_secret credentials,
               chosen_passphrase credentials with
         | Some api_key, Some secret, Some passphrase =>
           if negb (Js.nonempty api_key && Js.nonempty secret && Js.nonempty passphrase)
           then ret (error_reply 400
                       "Incomplete credentials. Missing api_key, secret, or passphrase.")
           else
           match userId body with
           | None => throw "Cannot read properties of undefined (reading 'slice')"
           | Some _ =>
             await result <-
               Polymarket.executeTrade
                 {| Polymarket.api_key := api_key; Polymarket.secret := secret;
                    Polymarket.passphrase := passphrase |}
                 signedOrder walletAddress
                 (if present (funderAddress body) then funderAddress body
                  else chosen_funder_address credentials);
             ret (trade_reply result)
           end
         | _, _, _ =>
           ret (error_reply 400
                  "Incomplete credentials. Missing api_key, secret, or passphrase.")
         end
       end
     | _, _ => ret (error_reply 400 "Missing required fields: signedOrder, walletAddress")
     end)
    (fun _ => ret (error_reply 500 "Internal server error")).

(** What [res.json(status)] sends of a trading status: a field that is
    [undefined] is left out. *)
Definition status_json (s : Polymarket.TradingStatus) : json :=
  JObj ([("tradingEnabled", JBool (Polymarket.tradingEnabled s))]
        ++ match Polymarket.closedOnly s with Some v => [("closedOnly", v)] | None => [] end
        ++ match Polymarket.status_error s with
           | Some e => [("error", JStr e)]
           | None => []
           end).

(** The handler of [GET /status]; [userId] is [req.query.userId]. *)
Definition status (db : Db) (userId : option string) : M Reply :=
  try_catch
    (if negb (present userId) then ret (error_reply 400 "Missing userId parameter")
     else
       match query db with
       | Throw e => throw e
       | Ok rows =>
           match rows !! default EmptyString userId with
           | None => ret (error_reply 404 "Credentials not found")
           | Some credentials =>
               await status <-
                 Polymarket.checkTradingStatus (wallet_address credentials)
                   (api_key credentials) (secret credentials) (passphrase credentials);
               ret {| code := 200; reply := status_json status |}
           end
       end)
    (fun _ => ret (error_reply 500 "Failed to check status")).

(** The answer of a middleware, as a reply. *)
Definition of_verdict (v : Auth.Verdict) : option Reply :=
  match v with
  | Auth.Answer code reply => Some {| code := code; reply := reply |}
  | Auth.Next => None
  end.

Definition number_or_null (v : option Z) : json :=
  match v with Some n => JNum n | None => JNull end.

(** The answer of the rate limiter, when it gives one. *)
Definition of_limit (l : Auth.Limit) : option Reply :=
  match l with
  | Auth.Missing => Some (error_reply 400 "Missing userId for rate limiting")
  | Auth.Exceeded retryAfter =>
      Some {| code := 429;
              reply := JObj [("error", JStr "Rate limit exceeded");
                             ("retryAfter", number_or_null retryAfter);
                             ("limit", JNum Auth.RATE_LIMIT_MAX_REQUESTS);
                             ("window", JNum (Auth.RATE_LIMIT_WINDOW / 1000))] |}
  | Auth.Pass _ => None
  end.

(** [router.post('/trade', authenticateRequest, rateLimiter, handler)]: the
    request goes through the gate, then through the limiter, which reads the
    clock once it has found a user id, then to the handler.  The map of the
    limiter is returned with the answer; the [X-RateLimit] headers the limiter
    sets on a request that passes are left out of the reply. *)
Definition trade_route (cfg : Config) (rateLimitMap : gmap string (list Z)) (db : Db)
    (authorization : option string) (body : TradeBody)
    : M (Reply * gmap string (list Z)) :=
  match of_verdict (Auth.authenticateRequest (auth cfg) authorization) with
  | Some answer => ret (answer, rateLimitMap)
  | None =>
      await t <- (if present (userId body) then now else ret 0);
      let '(limit, rateLimitMap) := Auth.rateLimiter rateLimitMap (userId body) t in
      match of_limit limit with
      | Some answer => ret (answer, rateLimitMap)
      | None =>
          await answer <- trade db body;
          ret (answer, rateLimitMap)
      end
  end.

(** [router.post('/credentials', authenticateRequest, handler)] and the two
    routes beside it. *)
Definition credentials_route (cfg : Config) (db : Db) (authorization : option string)
    (stamp now : string) (body : CredentialsBody) : Reply * Db :=
  match of_verdict (Auth.authenticateRequest (auth cfg) authorization) with
  | Some answer => (answer, db)
  | None => store_credentials cfg db stamp now body
  end.

Definition fetch_route (cfg : Config) (db : Db) (authorization : option string)
    (userId : string) : Reply :=
  match of_verdict (Auth.authenticateRequest (auth cfg) authorization) with
  | Some answer => answer
  | None => fetch_credentials db userId
  end.

Definition delete_route (cfg : Config) (db : Db) (authorization : option string)
    (userId : string) : Reply * Db :=
  match of_verdict (Auth.authenticateRequest (auth cfg) authorization) with
  | Some answer => (answer, db)
  | None => delete_credentials db userId
  end.

Definition status_route (cfg : Config) (db : Db) (authorization : option string)
    (userId : option string) : M Reply :=
  match of_verdict (Auth.authenticateRequest (auth cfg) authorization) with
  | Some answer => ret answer
  | None => status db userId
  end.

End Routes.
(** * Properties *)

(** ** Vocabulary of the statements *)





(** A whole number that every JavaScript number holds exactly, and that a
    template literal writes in full: one between -(2^53 - 1) and 2^53 - 1. *)
Definition safe_integer (n : Z) : Prop := Z.abs n <= 9007199254740991.

(** A byte. *)
Definition is_byte (b : Z) : Prop := 0 <= b < 256.

Section TradeVocabulary.
Import Json Net Polymarket.

(** A request is signed for [method] and [path] with [key]: its signature
    header is the padded standard base64 of the HMAC-SHA256, under [key], of
    the bytes of the method, the path, the timestamp header and the body it
    carries, one after the other. *)
Definition carries_signature (key : list Z) (method path : string) (req : Request) : Prop :=
  exists ts,
    header "POLY_TIMESTAMP" (headers req) = Some ts
    /\ header "POLY_SIGNATURE" (headers req)
       = Some (Base64.encode
                 (Crypto.hmac_sha256 key
                    (Js.utf8 method ++ Js.utf8 path ++ Js.utf8 ts
                     ++ Js.utf8 (default EmptyString (body req))))).

(** The world after one attempt: the clock was read once and one request
    was sent. *)
Definition after_attempt (w : World) (req : Request) : World :=
  {| sent := sent w ++ [req]; reads := S (reads w); waited := waited w |}.

Definition after_sleep (w : World) : World :=
  {| sent := sent w; reads := reads w; waited := waited w + 350 |}.

(** The value of a body that was read. *)
Definition body_value (t : string) (p : Parse) : json :=
  match p with
  | Parsed v => v
  | SyntaxError _ => JObj [("raw", JStr t)]
  end.

Definition thrown (message : string) : Attempt :=
  {| success := false; data := None; error := Some (JStr message); status := 500 |}.

(** What an attempt returns, by what the exchange did with its request. *)
Definition attempt_of (out : FetchOutcome) : Attempt :=
  match out with
  | Rejects e => thrown e
  | Resolves r =>
      match payload r with
      | BodyFails e => thrown e
      | BodyText t p =>
          let data := body_value t p in
          if ok r then
            {| success := true; data := Some data; error := None; status := Net.status r |}
          else
            match data with
            | JNull => thrown (null_read "error")
            | _ =>
                {| success := false; data := Some data;
                   error := or_else (or_else (prop "error" data) (prop "message" data))
                              (Some (JStr t));
                   status := Net.status r |}
            end
      end
  end.

(** What [executeTrade] makes of the last attempt. *)
Definition conclude (result : Attempt) (who : Identity) : Executed :=
  let failed := Failed (or_string (error result) "Trade failed") (status result) who in
  match opt_prop "orderID" (data result) with
  | Some orderID => if success result && truthy orderID then Placed orderID who else failed
  | None => failed
  end.

(** The exchange answered 2xx with a body that parses to a value with a
    truthy [orderID]. *)
Definition placed_by (out : FetchOutcome) (orderID : json) : Prop :=
  exists r t v,
    out = Resolves r /\ ok r = true /\ payload r = BodyText t (Parsed v)
    /\ prop "orderID" v = Some orderID /\ truthy orderID = true.

(** The exchange answered with the status 403 and with a body that can be
    read and is not the JSON value [null]. *)
Definition blocked (out : FetchOutcome) : Prop :=
  exists r t p,
    out = Resolves r /\ Net.status r = 403 /\ payload r = BodyText t p /\ p <> Parsed JNull.

(** The funder address is there and differs from the owner address,
    whatever the case of the letters. *)
Definition distinct_funder (ownerAddress : string) (funderAddress : option string)
    (f : string) : Prop :=
  funderAddress = Some f /\ f <> EmptyString
  /\ Js.toLowerCase f <> Js.toLowerCase ownerAddress.

End TradeVocabulary.

Section ServerVocabulary.
Import Json Net Server.

(** What [text_or_json] makes of a response whose body can be read. *)
Definition answer (r : Response) : option json :=
  match payload r with
  | BodyFails _ => None
  | BodyText _ (Parsed v) => Some v
  | BodyText t (SyntaxError _) => Some (JStr t)
  end.

(** After the requests [earlier], the exchange answers [req] with the
    response [r], whose body reads as [up]. *)
Definition answers (env : Env) (earlier : list Request) (req : Request)
    (r : Response) (up : json) : Prop :=
  upstream env earlier req = Resolves r /\ answer r = Some up.

Definition refuses (env : Env) (earlier : list Request) (req : Request)
    (r : Response) (up : json) : Prop :=
  answers env earlier req r up /\ ok r = false.

Definition grants (env : Env) (earlier : list Request) (req : Request)
    (r : Response) (up : json) : Prop :=
  answers env earlier req r up /\ ok r = true.

(** The exchange issued credentials: it granted the create request, or it
    refused that one and granted the derive request.  [earlier] are the
    requests sent by then, [up] is the body that carries the credentials. *)
Definition issued (env : Env) (w : World) (l1 : list (string * string))
    (earlier : list Request) (up : json) : Prop :=
  (exists r, grants env (sent w) (create_request l1) r up
             /\ earlier = sent w ++ [create_request l1])
  \/ (exists r1 up1 r2,
        refuses env (sent w) (create_request l1) r1 up1
        /\ grants env (sent w ++ [create_request l1]) (derive_request l1) r2 up
        /\ earlier = sent w ++ [create_request l1; derive_request l1]).

(** A credential the exchange sent as a string that is not empty. *)
Definition has_credential (up : json) (name value : string) : Prop :=
  prop name up = Some (JStr value) /\ value <> EmptyString.

(** The world after a handler read the clock once and sent [req]. *)
Definition after_request (w : World) (req : Request) : World :=
  {| sent := sent w ++ [req]; reads := S (reads w); waited := waited w |}.

(** The tag [where] of a reply, when it has one. *)
Definition where_tag (r : Reply) : jsval := prop "where" (reply r).

(** The field [ok] of a reply. *)
Definition reports_ok (r : Reply) : jsval := prop "ok" (reply r).

End ServerVocabulary.

(** ** Scenarios

    Concrete exchanges and stores, for the examples. *)
Section Scenarios.
Import Json Net.

(** A body that carries the JSON value [v]. *)
Definition json_body (v : json) : Body := BodyText (Json.stringify v) (Parsed v).

Fixpoint route (url : string) (table : list (string * FetchOutcome)) : FetchOutcome :=
  match table with
  | [] => Rejects "getaddrinfo ENOTFOUND"
  | (u, out) :: r => if String.eqb u url then out else route url r
  end.

(** An exchange that answers by the URL of the request; the clock stands at
    1700000000123 milliseconds. *)
Definition exchange (table : list (string * FetchOutcome)) : Env :=
  {| upstream := fun _ req => route (url req) table;
     clock := fun _ => 1700000000123 |}.

Definition relay : Server.Config := {| Server.ENV := "prod"; Server.RELAY_KEY := "relay-key" |}.

Definition proof_of_0xAbC1 : Server.L1Input :=
  {| Server.address := Some "0xAbC1";
     Server.timestamp := Some (Server.Num 1700000000);
     Server.nonce := None;
     Server.eip712Signature := Some "0x5161" |}.

Definition issued_credentials : json :=
  JObj [("key", JStr "key-0123456789"); ("secret", JStr "c2VjcmV0LWJ5dGVz");
        ("passphrase", JStr "pass-phrase")].

Definition refusal (code : Z) : FetchOutcome :=
  Resolves {| status := code; payload := json_body (JObj [("error", JStr "forbidden")]) |}.

Definition create_url : string := "https://clob.polymarket.com/auth/api-key".
Definition derive_url : string := "https://clob.polymarket.com/auth/derive-api-key".
Definition access_url : string :=
  "https://clob.polymarket.com/auth/access-status?address=0xAbC1".
Definition verify_url : string := "https://clob.polymarket.com/auth/api-keys".
Definition order_url : string := "https://clob.polymarket.com/order".

(** Create and derive are refused, and the diagnostic request fails in the
    transport. *)
Definition refusing_then_down : Env :=
  exchange [(create_url, refusal 403); (derive_url, refusal 403);
            (access_url, Rejects "read ECONNRESET")].

(** Create is granted, and the verify request fails in the transport. *)
Definition issuing_then_down : Env :=
  exchange [(create_url, Resolves {| status := 200; payload := json_body issued_credentials |});
            (verify_url, Rejects "read ECONNRESET")].

(** Create and derive are refused, the diagnostic request is answered. *)
Definition refusing : Env :=
  exchange [(create_url, refusal 403); (derive_url, refusal 401);
            (access_url, Resolves {| status := 200;
                                     payload := json_body (JObj [("cert_required", JBool false)]) |})].

(** Create is refused, derive is granted, verify is refused. *)
Definition issuing_unusable : Env :=
  exchange [(create_url, refusal 400);
            (derive_url, Resolves {| status := 200; payload := json_body issued_credentials |});
            (verify_url, refusal 401)].

(** Create is granted and so is verify. *)
Definition issuing : Env :=
  exchange [(create_url, Resolves {| status := 200; payload := json_body issued_credentials |});
            (verify_url, Resolves {| status := 200; payload := json_body (JArr []) |})].

Definition row_of_0xAbC1 : Server.Row :=
  {| Server.key := "key-0123456789"; Server.secret := "c2VjcmV0LWJ5dGVz";
     Server.pass := "pass-phrase"; Server.owner := "0xabc1" |}.

Definition store_of_0xAbC1 : gmap string Server.Row :=
  {[ "polymarket:prod:0xabc1" := row_of_0xAbC1 ]}.

(** The body of an order request to the relay, and its text. *)
Definition order_of_0xAbC1 : json :=
  JObj [("address", JStr "0xAbC1"); ("salt", JNum 1234); ("tokenId", JStr "71321");
        ("makerAmount", JStr "1000000"); ("side", JNum 0)].

Definition order_text : string := Eval vm_compute in Json.stringify order_of_0xAbC1.

(** The exchange answers an order with 200 and an empty object. *)
Definition accepting_without_id : Env :=
  exchange [(order_url, Resolves {| status := 200; payload := json_body (JObj []) |})].

(** The exchange blocks the address 0xAA and takes orders of every other
    one. *)
Definition blocking_0xAA : Env :=
  {| upstream := fun _ req =>
       if bool_decide (header "POLY_ADDRESS" (headers req) = Some "0xAA")
       then refusal 403
       else Resolves {| status := 200;
                        payload := json_body (JObj [("orderID", JStr "ord-123")]) |};
     clock := fun _ => 1700000000123 |}.

Definition some_credentials : Polymarket.Credentials :=
  {| Polymarket.api_key := "key-0123456789"; Polymarket.secret := "c2VjcmV0LWJ5dGVz";
     Polymarket.passphrase := "pass-phrase" |}.

Definition some_order : json :=
  JObj [("salt", JNum 1234); ("maker", JStr "0xAA"); ("tokenId", JStr "71321");
        ("makerAmount", JStr "1000000"); ("side", JNum 0)].

End Scenarios.

Section LimiterVocabulary.
Import Auth.

(** The key of a user in [rateLimitMap]. *)
Definition key_of (userId : string) : string := "ratelimit:" +:+ userId.

(** The list stored for a user, empty when there is none. *)
Definition stored (m : gmap string (list Z)) (userId : string) : list Z :=
  default [] (m !! key_of userId).

(** The timestamps of a list that are inside the window at [now]. *)
Definition live (now : Z) (l : list Z) : list Z := List.filter (fresh now) l.

(** The limiter lets the request of [userId] at [now] pass. *)
Definition passes (m : gmap string (list Z)) (userId : string) (now : Z) : bool :=
  match fst (rateLimiter m (Some userId) now) with
  | Pass _ => true
  | _ => false
  end.

(** The times of the requests of [userId] among [evs] that the limiter let
    pass, when the events happen in turn from the map [m]. *)
Fixpoint passed (m : gmap string (list Z)) (userId : string) (evs : list Event) : list Z :=
  match evs with
  | [] => []
  | e :: rest =>
      match e with
      | Req u t =>
          if String.eqb u userId && passes m userId t then [t] else []
      | Sweep _ => []
      end ++ passed (step m e) userId rest
  end.

(** The times of all the requests of [userId] among [evs]. *)
Fixpoint requests_of (userId : string) (evs : list Event) : list Z :=
  match evs with
  | [] => []
  | Req u t :: rest =>
      (if String.eqb u userId then [t] else []) ++ requests_of userId rest
  | Sweep _ :: rest => requests_of userId rest
  end.

(** The attempts at the times [ts] are refused one after the other. *)
Fixpoint all_refused (m : gmap string (list Z)) (userId : string) (ts : list Z) : Prop :=
  match ts with
  | [] => True
  | t :: rest =>
      (exists retryAfter, fst (rateLimiter m (Some userId) t) = Exceeded retryAfter)
      /\ all_refused (snd (rateLimiter m (Some userId) t)) userId rest
  end.

(** No list of the map is longer than the limit. *)
Definition bounded (m : gmap string (list Z)) : Prop :=
  forall k l, m !! k = Some l -> Z.of_nat (List.length l) <= RATE_LIMIT_MAX_REQUESTS.

(** The events happen at times that never go back. *)
Definition in_order (evs : list Event) : Prop :=
  StronglySorted (fun e1 e2 => time_of e1 <= time_of e2) evs.

(** Every list of the map is in ascending order and has no entry after [T]. *)
Definition tidy (m : gmap string (list Z)) (T : Z) : Prop :=
  forall k l, m !! k = Some l -> StronglySorted Z.le l /\ Forall (fun x => x <= T) l.

(** Ten requests of one user, a millisecond apart, from the time [t0]. *)
Definition burst (userId : string) (t0 : Z) : list Event :=
  map (fun i => Req userId (t0 + Z.of_nat i)) (seq 0 10).

End LimiterVocabulary.

Section GateVocabulary.

Definition production : Auth.Config :=
  {| Auth.API_SECRET_KEY := Some "s3cret-of-the-relay"; Auth.NODE_ENV := Some "production" |}.

End GateVocabulary.

(** ** Vocabulary of the further properties *)
Section MoreLimiterVocabulary.
Import Auth.

(** No entry of the map is later than [T]. *)
Definition no_later (m : gmap string (list Z)) (T : Z) : Prop :=
  forall k l, m !! k = Some l -> Forall (fun x => x <= T) l.

(** No list of the map is empty. *)
Definition stocked (m : gmap string (list Z)) : Prop :=
  forall k l, m !! k = Some l -> l <> [].

(** The sweeps among the events happen no later than [T]. *)
Definition swept_by (T : Z) (evs : list Event) : Prop :=
  Forall (fun e => match e with Sweep t => t <= T | Req _ _ => True end) evs.

(** The token does not begin with white space. *)
Definition begins_with_text (token : string) : Prop :=
  match Js.chars token with
  | c :: _ => is_space c = false
  | [] => True
  end.

(** A header of the bearer scheme: the word [Bearer] in any case of its
    letters, white space, and a token that does not begin with white space. *)
Definition bearer (scheme : string) (spaces : list ascii) (token : string) : Prop :=
  Js.toLowerCase scheme = "bearer"
  /\ spaces <> []
  /\ Forall (fun c => is_space c = true) spaces
  /\ begins_with_text token.

Definition development : Auth.Config :=
  {| Auth.API_SECRET_KEY := Some "s3cret-of-the-relay"; Auth.NODE_ENV := Some "development" |}.

End MoreLimiterVocabulary.

Section MoreScenarios.
Import Json Net.

(** The exchange answers every order with 403 and the body [null]. *)
Definition blocking_with_null : Env :=
  {| upstream := fun _ _ => Resolves {| status := 403; payload := json_body JNull |};
     clock := fun _ => 1700000000123 |}.

End MoreScenarios.

Section RoutesVocabulary.
Import Json Net Routes.

(** Every row of the database has a key, a secret and a passphrase that are
    not empty. *)
Definition complete (db : Db) : Prop :=
  match db with
  | Ready rows =>
      forall u r, rows !! u = Some r ->
        api_key r <> EmptyString /\ secret r <> EmptyString /\ passphrase r <> EmptyString
  | _ => True
  end.

Definition incomplete_credentials : Reply :=
  error_reply 400 "Incomplete credentials. Missing api_key, secret, or passphrase.".

(** The reply that shows the stored credentials of a user. *)
Definition shown (userId walletAddress : string) (funderAddress : option string)
    (createdAt : string) : Reply :=
  {| code := 200;
     reply := JObj [("userId", JStr userId); ("walletAddress", JStr walletAddress);
                    ("funderAddress", null_or_string funderAddress);
                    ("hasCredentials", JBool true); ("createdAt", JStr createdAt)] |}.

(** The time of creation the database has for a user, if any. *)
Definition creation (db : Db) (userId : string) : option string :=
  match db with
  | Ready rows => created_at <$> (rows !! userId)
  | _ => None
  end.



Definition sqlite_development : Config :=
  {| auth := development; DATABASE_URL := None |}.

Definition postgres_production : Config :=
  {| auth := production; DATABASE_URL := Some "postgres://relay@db/relay" |}.

Definition credentials_of_alice : CredentialsBody :=
  {| c_userId := Some "alice"; c_apiKey := Some "key-0123456789";
     c_secret := Some "c2VjcmV0LWJ5dGVz"; c_passphrase := Some "pass-phrase";
     c_walletAddress := Some "0xAA"; c_funderAddress := Some "" |}.

Definition row_of_alice : Row :=
  {| user_id := "alice"; api_key := "key-0123456789"; secret := "c2VjcmV0LWJ5dGVz";
     passphrase := "pass-phrase"; wallet_address := "0xAA"; funder_address := Some "0xBB";
     created_at := "2024-05-01 10:00:00"; updated_at := "2024-05-01T10:00:00.000Z" |}.

Definition db_of_alice : Db := Ready {[ "alice" := row_of_alice ]}.

(** A trade request of alice that relies on the stored credentials. *)
Definition trade_of_alice : TradeBody :=
  {| userId := Some "alice"; signedOrder := Some some_order; walletAddress := Some "0xAA";
     funderAddress := None; credentials := None |}.


End RoutesVocabulary.

Section MoreRoutesScenarios.
Import Routes.

(** A trade request that brings its credentials but names no user. *)
Definition trade_without_user : TradeBody :=
  {| userId := None; signedOrder := Some some_order; walletAddress := Some "0xAA";
     funderAddress := None;
     credentials := Some {| p_api_key := Some "key-of-the-request";
                            p_secret := Some "c2VjcmV0"; p_passphrase := Some "phrase";
                            p_funder_address := None |} |}.

(** The map of the limiter after ten requests of alice, the last of them
    114 milliseconds before the clock of the scenarios. *)
Definition used_up : gmap string (list Z) := Auth.play ∅ (burst "alice" 1700000000000).

End MoreRoutesScenarios.

Section MoreRoutesScenarios2.
Import Routes.

Definition credentials_of_the_request : Polymarket.Credentials :=
  {| Polymarket.api_key := "key-of-the-request"; Polymarket.secret := "c2VjcmV0";
     Polymarket.passphrase := "phrase" |}.


End MoreRoutesScenarios2.
(** ** Strings and bytes *)
Section StringFacts.

Lemma chars_app (a b : string) : Js.chars (a +:+ b) = Js.chars a ++ Js.chars b.
Proof.
  induction a as [|c a IH]; simpl; [reflexivity|].
  unfold Js.chars in *. simpl. now rewrite IH.
Qed.

Lemma utf8_app (a b : string) : Js.utf8 (a +:+ b) = Js.utf8 a ++ Js.utf8 b.
Proof. unfold Js.utf8. now rewrite chars_app, flat_map_app. Qed.

Lemma includes_In (c : ascii) (s : string) :
  Js.includes c s = true <-> In c (Js.chars s).
Proof.
  induction s as [|x s IH]; simpl.
  - split; [discriminate | tauto].
  - rewrite orb_true_iff, IH. unfold Js.chars; simpl.
    destruct (Ascii.eqb_spec x c); intuition congruence.
Qed.

Lemma nonempty_true (s : string) : Js.nonempty s = true <-> s <> EmptyString.
Proof.
  unfold Js.nonempty. destruct (String.eqb_spec s ""); simpl; split; congruence.
Qed.


Lemma replace_all_absent (c d : ascii) (s : string) :
  Js.includes c s = false -> Js.replace_all c d s = s.
Proof.
  induction s as [|x s IH]; simpl; [reflexivity|].
  intros H. apply orb_false_iff in H as [Hx Hs].
  now rewrite Hx, IH.
Qed.


End StringFacts.

(** ** The two ways of making an HMAC key *)
Section Keys.


Lemma normalizedSecret_fixed (secret : string) :
  Js.includes "-" secret = false -> Js.includes "_" secret = false ->
  Hmac.normalizedSecret secret = secret.
Proof.
  intros H1 H2. unfold Hmac.normalizedSecret.
  rewrite (replace_all_absent "-" "+" secret H1).
  now apply replace_all_absent.
Qed.


Lemma drop_digits_all (P : ascii -> Prop) (l : list ascii) :
  (forall c, Base64.is_std_digit c = true -> P c) ->
  Forall P (Server.drop_digits l) -> Forall P l.
Proof.
  intros HP. induction l as [|c l IH]; simpl; [trivial|].
  destruct (Base64.is_std_digit c) eqn:Hc; [|trivial].
  intros H. constructor; auto.
Qed.

Lemma isB64_chars (s : string) :
  Server.isB64 s = true ->
  Forall (fun c => Base64.is_std_digit c = true \/ c = "="%char) (Js.chars s).
Proof.
  unfold Server.isB64. destruct (Js.chars s) as [|c r]; [discriminate|].
  intros H. apply andb_true_iff in H as [Hc Hr].
  constructor; [now left|].
  apply drop_digits_all; [now left|].
  destruct (Server.drop_digits r) as [|e1 [|e2 [|e3 t]]]; try discriminate.
  - constructor.
  - apply Ascii.eqb_eq in Hr. constructor; [now right | constructor].
  - apply andb_true_iff in Hr as [H1 H2].
    apply Ascii.eqb_eq in H1, H2.
    constructor; [now right|]. constructor; [now right | constructor].
Qed.

Lemma isB64_not_url (s : string) :
  Server.isB64 s && (Js.includes "-" s || Js.includes "_" s) = false.
Proof.
  destruct (Server.isB64 s) eqn:Hb; [simpl|reflexivity].
  pose proof (proj1 (List.Forall_forall _ _) (isB64_chars s Hb)) as Hall.
  apply orb_false_iff. split; apply not_true_is_false; intros Hin;
    apply includes_In, Hall in Hin; destruct Hin as [Hd|He]; discriminate.
Qed.

Lemma drop_digits_app (digits pad : list ascii) :
  Forall (fun c => Base64.is_std_digit c = true) digits ->
  Server.drop_digits (digits ++ pad) = Server.drop_digits pad.
Proof.
  induction 1 as [|c l Hc _ IH]; [reflexivity|]. cbn [app Server.drop_digits]. now rewrite Hc.
Qed.



End Keys.






(** ** The shape of a digest *)
Section Digest.


Lemma be_bytes_length (n : nat) (x : Z) : List.length (Crypto.be_bytes n x) = n.
Proof. induction n; simpl; congruence. Qed.

Lemma be_bytes_range (n : nat) (x : Z) : Forall is_byte (Crypto.be_bytes n x).
Proof.
  induction n; simpl; constructor; trivial.
  apply Z.mod_pos_bound. lia.
Qed.

Lemma round_length (st : list Z) (kw : Z * Z) :
  List.length st = 8%nat -> List.length (Crypto.round st kw) = 8%nat.
Proof.
  intros H.
  destruct st as [|a [|b [|c [|d [|e [|f [|g [|h [|i st]]]]]]]]]; try discriminate.
  reflexivity.
Qed.

Lemma rounds_length (kws : list (Z * Z)) (st : list Z) :
  List.length st = 8%nat -> List.length (fold_left Crypto.round kws st) = 8%nat.
Proof.
  revert st. induction kws as [|kw kws IH]; intros st H; simpl; [exact H|].
  apply IH, round_length, H.
Qed.

Lemma compress_length (h block : list Z) :
  List.length h = 8%nat -> List.length (Crypto.compress h block) = 8%nat.
Proof.
  intros H. unfold Crypto.compress.
  rewrite length_map, length_combine, rounds_length by exact H. lia.
Qed.

Lemma sha256_length (msg : list Z) : List.length (Crypto.sha256 msg) = 32%nat.
Proof.
  unfold Crypto.sha256.
  set (bs := Crypto.blocks _ _).
  assert (H : List.length (fold_left Crypto.compress bs Crypto.H0) = 8%nat).
  { generalize Crypto.H0 (eq_refl : List.length Crypto.H0 = 8%nat).
    induction bs as [|b bs IH]; intros h Hh; simpl; [exact Hh|].
    apply IH, compress_length, Hh. }
  revert H. generalize (fold_left Crypto.compress bs Crypto.H0). intros l Hl.
  do 9 (destruct l as [|? l]; try discriminate). reflexivity.
Qed.

Lemma sha256_range (msg : list Z) : Forall is_byte (Crypto.sha256 msg).
Proof.
  unfold Crypto.sha256.
  generalize (fold_left Crypto.compress
                (Crypto.blocks (List.length (Crypto.pad msg)) (Crypto.pad msg)) Crypto.H0).
  intros l. induction l as [|x l IH]; cbn [flat_map]; [constructor|].
  apply Forall_app. split; [apply be_bytes_range | exact IH].
Qed.

Lemma hmac_sha256_length (key msg : list Z) :
  List.length (Crypto.hmac_sha256 key msg) = 32%nat.
Proof. apply sha256_length. Qed.

Lemma hmac_sha256_range (key msg : list Z) : Forall is_byte (Crypto.hmac_sha256 key msg).
Proof. apply sha256_range. Qed.

Lemma digit_std (v : Z) : 0 <= v < 64 -> Base64.is_std_digit (Base64.digit v) = true.
Proof.
  intros Hv.
  assert (Hall : forallb (fun n => Base64.is_std_digit (Base64.digit (Z.of_nat n)))
                         (seq 0 64) = true) by (vm_compute; reflexivity).
  rewrite forallb_forall in Hall.
  specialize (Hall (Z.to_nat v)). rewrite Z2Nat.id in Hall by lia.
  apply Hall, in_seq. lia.
Qed.

(** A whole number of triples and two more bytes give digits and one [=]. *)
Lemma encode_chars_two_left (n : nat) (l : list Z) :
  List.length l = (3 * n + 2)%nat -> Forall is_byte l ->
  exists digits,
    Base64.encode_chars l = digits ++ ["="%char]
    /\ List.length digits = (4 * n + 3)%nat
    /\ Forall (fun c => Base64.is_std_digit c = true) digits.
Proof.
  revert l. induction n as [|n IH]; intros l Hlen Hl.
  - destruct l as [|a [|b [|c l]]]; try discriminate.
    apply Forall_cons in Hl as [Ha Hl]. apply Forall_cons in Hl as [Hb _].
    unfold is_byte in *.
    eexists [_; _; _]. split; [reflexivity|]. split; [reflexivity|].
    repeat constructor; apply digit_std.
    + split; [apply Z.div_pos | apply Z.div_lt_upper_bound]; lia.
    + pose proof (Z.mod_pos_bound a 4). 
      assert (0 <= b / 16 < 16)
        by (split; [apply Z.div_pos | apply Z.div_lt_upper_bound]; lia). lia.
    + pose proof (Z.mod_pos_bound b 16). lia.
  - destruct l as [|a [|b [|c l]]]; try (simpl in Hlen; lia).
    apply Forall_cons in Hl as [Ha Hl]. apply Forall_cons in Hl as [Hb Hl].
    apply Forall_cons in Hl as [Hc Hl]. unfold is_byte in *.
    destruct (IH l) as (digits & Heq & Hdl & Hds); [simpl in Hlen; lia | exact Hl |].
    exists (Base64.digit (a / 4) :: Base64.digit ((a mod 4) * 16 + b / 16)
            :: Base64.digit ((b mod 16) * 4 + c / 64) :: Base64.digit (c mod 64) :: digits).
    split; [|split].
    + change (Base64.encode_chars (a :: b :: c :: l))
        with (Base64.digit (a / 4) :: Base64.digit ((a mod 4) * 16 + b / 16)
              :: Base64.digit ((b mod 16) * 4 + c / 64) :: Base64.digit (c mod 64)
              :: Base64.encode_chars l).
      now rewrite Heq.
    + simpl. lia.
    + repeat (apply Forall_cons; split); trivial; apply digit_std.
      * split; [apply Z.div_pos | apply Z.div_lt_upper_bound]; lia.
      * pose proof (Z.mod_pos_bound a 4).
        assert (0 <= b / 16 < 16)
          by (split; [apply Z.div_pos | apply Z.div_lt_upper_bound]; lia). lia.
      * pose proof (Z.mod_pos_bound b 16).
        assert (0 <= c / 64 < 4)
          by (split; [apply Z.div_pos | apply Z.div_lt_upper_bound]; lia). lia.
      * apply Z.mod_pos_bound. lia.
Qed.

(** A digest of 32 bytes is written as 43 digits and one [=]. *)
Lemma digest_base64 (key msg : list Z) :
  exists digits,
    Js.chars (Base64.encode (Crypto.hmac_sha256 key msg)) = digits ++ ["="%char]
    /\ List.length digits = 43%nat
    /\ Forall (fun c => Base64.is_std_digit c = true) digits.
Proof.
  unfold Base64.encode, Js.chars. rewrite list_ascii_of_string_of_list_ascii.
  apply (encode_chars_two_left 10).
  - apply hmac_sha256_length.
  - apply hmac_sha256_range.
Qed.

End Digest.

(** Two known digests: SHA-256 of [abc], and an HMAC with a short key. *)
Example sha256_abc :
  Base64.encode (Crypto.sha256 (Js.utf8 "abc"))
  = "ungWv48Bz+pBQUDeXa4iI7ADYaOWF3qctBD/YfIAFa0=".
Proof. vm_compute. reflexivity. Qed.

Example hmac_sha256_fox :
  Base64.encode (Crypto.hmac_sha256 (Js.utf8 "key")
                   (Js.utf8 "The quick brown fox jumps over the lazy dog"))
  = "97yD9DBThCSxMpjmqm+xQ+9NWaFJRhdZl0edvC0aPNg=".
Proof. vm_compute. reflexivity. Qed.

(** ** Trade execution *)
Section Trades.
Import Json Net Polymarket.
Variable env : Env.

Lemma attemptTrade_run address apiKey secret passphrase order w :
  let req := order_request address apiKey secret passphrase order (clock env (reads w)) in
  attemptTrade address apiKey secret passphrase order env w
  = (Ok (attempt_of (upstream env (sent w) req)), after_attempt w req).
Proof.
  intros req. subst req.
  unfold attemptTrade, bind, try_catch, now, fetch, after_attempt, attempt_of.
  cbn [sent reads waited].
  destruct (upstream env (sent w) _) as [e|r]; [reflexivity|].
  unfold text_of, parse_of, read, body_value.
  destruct (payload r) as [e|t p]; [reflexivity|].
  destruct (ok r); [reflexivity|].
  destruct p as [[]|]; reflexivity.
Qed.

Lemma attempt_of_success (out : FetchOutcome) :
  success (attempt_of out) = true ->
  exists r t p, out = Resolves r /\ ok r = true /\ payload r = BodyText t p
                /\ data (attempt_of out) = Some (body_value t p).
Proof.
  unfold attempt_of. destruct out as [e|r]; [discriminate|].
  destruct (payload r) as [e|t p] eqn:Hp; [discriminate|].
  destruct (ok r) eqn:Hok.
  - intros _. exists r, t, p. repeat split; trivial.
  - destruct (body_value t p); discriminate.
Qed.

Lemma attempt_of_placed (out : FetchOutcome) (orderID : json) :
  (success (attempt_of out) = true
   /\ opt_prop "orderID" (data (attempt_of out)) = Some orderID
   /\ truthy orderID = true)
  <-> placed_by out orderID.
Proof.
  split.
  - intros (Hs & Hid & Ht).
    destruct (attempt_of_success out Hs) as (r & t & p & -> & Hok & Hp & Hd).
    rewrite Hd in Hid. cbn [opt_prop] in Hid.
    destruct p as [v|e]; [|discriminate].
    exists r, t, v. repeat split; trivial.
  - intros (r & t & v & -> & Hok & Hp & Hid & Ht).
    unfold attempt_of. rewrite Hp, Hok. cbn. repeat split; trivial.
Qed.

Lemma attempt_of_rejected (e : string) : status (attempt_of (Rejects e)) = 500.
Proof. reflexivity. Qed.

Lemma executeTrade_run credentials order ownerAddress funderAddress w :
  executeTrade credentials order ownerAddress funderAddress env w
  = match retry_with
            (status (attempt_of (upstream env (sent w)
               (order_request ownerAddress (api_key credentials) (secret credentials)
                  (passphrase credentials) order (clock env (reads w))))))
            ownerAddress funderAddress with
    | Some f =>
        (Ok (conclude
               (attempt_of
                  (upstream env
                     (sent w ++ [order_request ownerAddress (api_key credentials)
                                   (secret credentials) (passphrase credentials) order
                                   (clock env (reads w))])
                     (order_request f (api_key credentials) (secret credentials)
                        (passphrase credentials) order (clock env (S (reads w))))))
               funder),
         after_attempt
           (after_sleep
              (after_attempt w
                 (order_request ownerAddress (api_key credentials) (secret credentials)
                    (passphrase credentials) order (clock env (reads w)))))
           (order_request f (api_key credentials) (secret credentials)
              (passphrase credentials) order (clock env (S (reads w)))))
    | None =>
        (Ok (conclude
               (attempt_of (upstream env (sent w)
                  (order_request ownerAddress (api_key credentials) (secret credentials)
                     (passphrase credentials) order (clock env (reads w)))))
               owner),
         after_attempt w
           (order_request ownerAddress (api_key credentials) (secret credentials)
              (passphrase credentials) order (clock env (reads w))))
    end.
Proof.
  destruct credentials as [k s p]. cbn [api_key secret passphrase].
  set (req1 := order_request ownerAddress k s p order (clock env (reads w))).
  set (first := attempt_of (upstream env (sent w) req1)).
  unfold executeTrade. unfold bind at 1. rewrite attemptTrade_run.
  fold req1. fold first. unfold bind at 1.
  destruct (retry_with (status first) ownerAddress funderAddress) as [f|].
  - unfold bind at 1. unfold sleep at 1. unfold bind at 1.
    rewrite attemptTrade_run. cbn [sent reads waited after_attempt].
    unfold ret at 1. unfold conclude.
    destruct (opt_prop "orderID" _) as [id|]; [|reflexivity].
    destruct (success _ && truthy id); reflexivity.
  - unfold ret at 1. unfold conclude.
    destruct (opt_prop "orderID" _) as [id|]; [|reflexivity].
    destruct (success _ && truthy id); reflexivity.
Qed.

Lemma retry_with_spec (st : Z) (ownerAddress : string) (funderAddress : option string)
    (f : string) :
  retry_with st ownerAddress funderAddress = Some f
  <-> st = 403 /\ distinct_funder ownerAddress funderAddress f.
Proof.
  unfold retry_with, distinct_funder. destruct funderAddress as [g|].
  - destruct (st =? 403) eqn:Hst; cbn [andb].
    + apply Z.eqb_eq in Hst.
      destruct (Js.nonempty g) eqn:Hg; cbn [andb].
      * apply nonempty_true in Hg.
        destruct (String.eqb_spec (Js.toLowerCase g) (Js.toLowerCase ownerAddress));
          cbn [negb]; split.
        -- discriminate.
        -- intros (_ & Hf & _ & Hne). inversion Hf; subst. contradiction.
        -- intros Hf. inversion Hf; subst. repeat split; trivial.
        -- intros (_ & Hf & _). exact Hf.
      * split; [discriminate|].
        intros (_ & Hf & Hne & _). inversion Hf; subst.
        apply nonempty_true in Hne. congruence.
    + apply Z.eqb_neq in Hst. split; [discriminate | tauto].
  - split; [discriminate|]. intros (_ & Hf & _). discriminate.
Qed.

Lemma conclude_who (a : Attempt) (who : Identity) : attemptedWith (conclude a who) = who.
Proof.
  unfold conclude. destruct (opt_prop "orderID" (data a)) as [id|]; [|reflexivity].
  destruct (success a && truthy id); reflexivity.
Qed.

Lemma conclude_placed (a : Attempt) (who : Identity) (orderID : json) :
  conclude a who = Placed orderID who
  <-> success a = true /\ opt_prop "orderID" (data a) = Some orderID
      /\ truthy orderID = true.
Proof.
  unfold conclude. destruct (opt_prop "orderID" (data a)) as [id|].
  - destruct (success a) eqn:Hs; cbn [andb].
    + destruct (truthy id) eqn:Ht; split.
      * intros H. inversion H; subst. auto.
      * intros (_ & H & _). inversion H; subst. reflexivity.
      * discriminate.
      * intros (_ & H & Hid). inversion H; subst. congruence.
    + split; [discriminate | intros (H & _); discriminate].
  - split; [discriminate | intros (_ & H & _); discriminate].
Qed.

Lemma conclude_succeeded (a : Attempt) (who : Identity) :
  succeeded (conclude a who) = true <-> exists orderID, conclude a who = Placed orderID who.
Proof.
  split.
  - unfold conclude. destruct (opt_prop "orderID" (data a)) as [id|]; [|discriminate].
    destruct (success a && truthy id); [eauto | discriminate].
  - intros [id ->]. reflexivity.
Qed.

(** The status of an attempt, by what the exchange did with its request. *)
Lemma attempt_of_status (out : FetchOutcome) :
  status (attempt_of out)
  = match out with
    | Rejects _ => 500
    | Resolves r =>
        match payload r with
        | BodyFails _ => 500
        | BodyText _ (Parsed JNull) => if ok r then Net.status r else 500
        | BodyText _ _ => Net.status r
        end
    end.
Proof.
  destruct out as [e|r]; [reflexivity|]. unfold attempt_of.
  destruct (payload r) as [e|t [v|e]]; [reflexivity| |]; cbn [body_value];
    [destruct v|]; destruct (ok r); reflexivity.
Qed.

Lemma attempt_of_blocked (out : FetchOutcome) :
  status (attempt_of out) = 403 <-> blocked out.
Proof.
  rewrite attempt_of_status. unfold blocked. split.
  - destruct out as [e|r]; [discriminate|].
    destruct (payload r) as [e|t p] eqn:Hp; [discriminate|].
    assert (Hok : ok r = true -> Net.status r <> 403).
    { unfold ok. intros H. apply andb_true_iff in H as [_ H]. apply Z.leb_le in H. lia. }
    intros H. exists r, t, p.
    destruct p as [v|e]; [destruct v|].
    1: { cbn in H. destruct (ok r); [destruct (Hok eq_refl H) | discriminate H]. }
    all: repeat split; [exact H | exact Hp | discriminate].
  - intros (r & t & p & -> & H403 & -> & Hp).
    destruct p as [v|e]; [destruct v|]; trivial. now destruct Hp.
Qed.

(** C2.  [executeTrade] always returns.  The status of the first attempt is
    the status the exchange answered with, except that it is 500 when the
    transport threw, when the body could not be read, and when the exchange
    refused with a body that is the JSON value [null].  A second request is
    sent exactly when the exchange answered the first one with the status 403
    and a body that can be read and is not [null], and a funder address is
    given that is not empty and differs from the owner address after
    lowercasing; the second request is then the only other one, it carries the
    funder address in [POLY_ADDRESS], and the result is attributed to the
    funder.  In every other case the first request stays the only one and the
    result is attributed to the owner: so after any other status, after a
    transport that threw, and also after a 403 whose body is [null]. *)
Theorem retry_exactly_on_403_with_distinct_funder
    (w : World) (credentials : Credentials) (signedOrder : json)
    (ownerAddress : string) (funderAddress : option string) :
  let request_as address ms :=
    order_request address (api_key credentials) (secret credentials)
      (passphrase credentials) signedOrder ms in
  let first_request := request_as ownerAddress (clock env (reads w)) in
  let answer := upstream env (sent w) first_request in
  exists first result w',
    attemptTrade ownerAddress (api_key credentials) (secret credentials)
      (passphrase credentials) signedOrder env w
    = (Ok first, after_attempt w first_request)
    /\ executeTrade credentials signedOrder ownerAddress funderAddress env w = (Ok result, w')
    /\ status first
       = match answer with
         | Rejects _ => 500
         | Resolves r =>
             match payload r with
             | BodyFails _ => 500
             | BodyText _ (Parsed JNull) => if ok r then Net.status r else 500
             | BodyText _ _ => Net.status r
             end
         end
    /\ (status first = 403 <-> blocked answer)
    /\ ((blocked answer
         /\ exists f, distinct_funder ownerAddress funderAddress f
            /\ sent w' = sent w ++ [first_request; request_as f (clock env (S (reads w)))]
            /\ header "POLY_ADDRESS" (headers (request_as f (clock env (S (reads w))))) = Some f
            /\ attemptedWith result = funder)
        \/ (~ (blocked answer /\ exists f, distinct_funder ownerAddress funderAddress f)
            /\ sent w' = sent w ++ [first_request]
            /\ attemptedWith result = owner))
    /\ (forall r t,
          answer = Resolves r -> Net.status r = 403 -> payload r = BodyText t (Parsed JNull) ->
          status first = 500 /\ sent w' = sent w ++ [first_request]
          /\ attemptedWith result = owner).
Proof.
  cbv zeta beta.
  set (first_request := order_request ownerAddress _ _ _ _ _).
  set (answer := upstream env (sent w) first_request).
  set (first := attempt_of answer).
  pose proof (executeTrade_run credentials signedOrder ownerAddress funderAddress w) as Hrun.
  fold first_request in Hrun. fold answer in Hrun. fold first in Hrun.
  pose proof (attempt_of_status answer) as Hstatus. fold first in Hstatus.
  pose proof (attempt_of_blocked answer) as Hblocked. fold first in Hblocked.
  assert (Hnull : forall r t,
             answer = Resolves r -> Net.status r = 403 ->
             payload r = BodyText t (Parsed JNull) -> status first = 500).
  { intros r t Ha H403 Hp. rewrite Hstatus, Ha, Hp.
    destruct (ok r) eqn:Hok; [|reflexivity].
    unfold ok in Hok. apply andb_true_iff in Hok as [_ Hok]. apply Z.leb_le in Hok. lia. }
  destruct (retry_with (status first) ownerAddress funderAddress) as [f|] eqn:Hretry.
  - apply retry_with_spec in Hretry as [H403 Hf].
    eexists first, _, _.
    split; [apply attemptTrade_run|]. split; [exact Hrun|]. split; [exact Hstatus|].
    split; [exact Hblocked|]. split.
    + left. split; [now apply Hblocked|]. exists f. repeat split; try apply Hf.
      * cbn [sent after_attempt after_sleep]. now rewrite <- app_assoc.
      * apply conclude_who.
    + intros r t Ha Hr Hp. rewrite (Hnull r t Ha Hr Hp) in H403. discriminate H403.
  - eexists first, _, _.
    split; [apply attemptTrade_run|]. split; [exact Hrun|]. split; [exact Hstatus|].
    split; [exact Hblocked|]. split.
    + right. repeat split.
      * intros (Hb & f & Hf). apply Hblocked in Hb.
        assert (retry_with (status first) ownerAddress funderAddress = Some f) as Hsome
          by (apply retry_with_spec; auto).
        congruence.
      * apply conclude_who.
    + intros r t Ha Hr Hp. repeat split; [now apply (Hnull r t) | apply conclude_who].
Qed.

(** The part of C3 that holds: [executeTrade] reports success exactly when
    the exchange answered the last request it sent with a 2xx status and a
    body that parses to a value with a truthy [orderID]. *)
Lemma executeTrade_success (w : World) (credentials : Credentials) (signedOrder : json)
    (ownerAddress : string) (funderAddress : option string) :
  exists result w' earlier last,
    executeTrade credentials signedOrder ownerAddress funderAddress env w = (Ok result, w')
    /\ sent w' = earlier ++ [last]
    /\ (succeeded result = true <-> exists orderID, placed_by (upstream env earlier last) orderID)
    /\ (forall orderID, (exists who, result = Placed orderID who)
                        <-> placed_by (upstream env earlier last) orderID).
Proof.
  pose proof (executeTrade_run credentials signedOrder ownerAddress funderAddress w) as Hrun.
  set (req1 := order_request ownerAddress _ _ _ _ _) in Hrun.
  assert (Hgen : forall a who, forall orderID,
             (exists who', conclude a who = Placed orderID who')
             <-> success a = true /\ opt_prop "orderID" (data a) = Some orderID
                 /\ truthy orderID = true).
  { intros a who id. rewrite <- (conclude_placed a who id). split.
    - intros [who' H]. pose proof (conclude_who a who) as Hw.
      rewrite H in Hw. cbn in Hw. now subst.
    - eauto. }
  destruct (retry_with _ ownerAddress funderAddress) as [f|].
  - set (req2 := order_request f _ _ _ _ _) in Hrun.
    eexists _, _, (sent w ++ [req1]), req2. split; [exact Hrun|].
    split; [reflexivity|]. split.
    + rewrite conclude_succeeded. split.
      * intros [id H]. exists id. apply attempt_of_placed, conclude_placed with funder, H.
      * intros [id H]. exists id. apply conclude_placed, attempt_of_placed, H.
    + intros id. rewrite Hgen. apply attempt_of_placed.
  - eexists _, _, (sent w), req1. split; [exact Hrun|].
    split; [reflexivity|]. split.
    + rewrite conclude_succeeded. split.
      * intros [id H]. exists id. apply attempt_of_placed, conclude_placed with owner, H.
      * intros [id H]. exists id. apply conclude_placed, attempt_of_placed, H.
    + intros id. rewrite Hgen. apply attempt_of_placed.
Qed.

End Trades.

(** The two end-to-end runs of the specification: a blocked owner with a
    distinct funder is retried as the funder and the order is placed; an owner
    who is their own funder gets the 403 back. *)
Lemma retry_exactly_on_403_with_distinct_funder_witness :
  (exists result w',
     Polymarket.executeTrade some_credentials some_order "0xAA" (Some "0xBB")
       blocking_with_null Net.start = (Net.Ok result, w')
     /\ List.length (Net.sent w') = 1%nat
     /\ Polymarket.attemptedWith result = Polymarket.owner)
  /\ (exists result w',
        Polymarket.executeTrade some_credentials some_order "0xAA" (Some "0xBB")
          blocking_0xAA Net.start = (Net.Ok result, w')
        /\ List.length (Net.sent w') = 2%nat
        /\ Polymarket.attemptedWith result = Polymarket.funder).
Proof.
  split.
  - destruct (retry_exactly_on_403_with_distinct_funder blocking_with_null Net.start
                some_credentials some_order "0xAA" (Some "0xBB"))
      as (first & result & w' & _ & Hrun & _ & _ & _ & Hnull).
    exists result, w'. split; [exact Hrun|].
    destruct (Hnull {| Net.status := 403; Net.payload := json_body JNull |} "null"
                eq_refl eq_refl eq_refl) as (_ & Hsent & Hwho).
    split; [now rewrite Hsent | exact Hwho].
  - destruct (retry_exactly_on_403_with_distinct_funder blocking_0xAA Net.start
                some_credentials some_order "0xAA" (Some "0xBB"))
      as (first & result & w' & _ & Hrun & _ & _ & [(_ & f & _ & Hsent & _ & Hwho) | (Hno & _)] & _).
    + exists result, w'. split; [exact Hrun|]. split; [now rewrite Hsent | exact Hwho].
    + exfalso. apply Hno. split.
      * eexists _, _, _. split; [vm_compute; reflexivity|].
        split; [reflexivity|]. split; [reflexivity | discriminate].
      * exists "0xBB". repeat split; discriminate.
Defined.

Example blocked_owner_retried_as_funder :
  fst (Polymarket.executeTrade some_credentials some_order "0xAA" (Some "0xBB")
         blocking_0xAA Net.start)
  = Net.Ok (Polymarket.Placed (JStr "ord-123") Polymarket.funder).
Proof. vm_compute. reflexivity. Qed.

Example blocked_owner_without_funder :
  fst (Polymarket.executeTrade some_credentials some_order "0xAA" (Some "0xaa")
         blocking_0xAA Net.start)
  = Net.Ok (Polymarket.Failed (JStr "forbidden") 403 Polymarket.owner).
Proof. vm_compute. reflexivity. Qed.

(** ** Running the monad *)
Section Running.
Import Json Net.
Variable env : Env.

Lemma bind_ok {A B} (m : M A) (k : A -> M B) (w w' : World) (a : A) :
  m env w = (Ok a, w') -> bind m k env w = k a env w'.
Proof. intros H. unfold bind. now rewrite H. Qed.

Lemma bind_throw {A B} (m : M A) (k : A -> M B) (w w' : World) (e : string) :
  m env w = (Throw e, w') -> bind m k env w = (Throw e, w').
Proof. intros H. unfold bind. now rewrite H. Qed.

Lemma try_catch_ok {A} (m : M A) (h : string -> M A) (w w' : World) (a : A) :
  m env w = (Ok a, w') -> try_catch m h env w = (Ok a, w').
Proof. intros H. unfold try_catch. now rewrite H. Qed.

Lemma try_catch_throw {A} (m : M A) (h : string -> M A) (w w' : World) (e : string) :
  m env w = (Throw e, w') -> try_catch m h env w = h e env w'.
Proof. intros H. unfold try_catch. now rewrite H. Qed.

Lemma fetch_resolves (req : Request) (r : Response) (w : World) :
  upstream env (sent w) req = Resolves r ->
  fetch req env w
  = (Ok r, {| sent := sent w ++ [req]; reads := reads w; waited := waited w |}).
Proof. intros H. unfold fetch. now rewrite H. Qed.

Lemma fetch_rejects (req : Request) (e : string) (w : World) :
  upstream env (sent w) req = Rejects e ->
  fetch req env w
  = (Throw e, {| sent := sent w ++ [req]; reads := reads w; waited := waited w |}).
Proof. intros H. unfold fetch. now rewrite H. Qed.

Lemma text_or_json_answer (r : Response) (up : json) (w : World) :
  answer r = Some up -> text_or_json r env w = (Ok up, w).
Proof.
  unfold answer, text_or_json, bind, text_of, parse_of, ret, throw.
  destruct (payload r) as [e|t [v|e]]; intros H; inversion H; reflexivity.
Qed.

Lemma text_or_json_run (r : Response) (w : World) :
  text_or_json r env w
  = match payload r with
    | BodyFails e => (Throw e, w)
    | BodyText t p => (Ok (match p with Parsed v => v | SyntaxError _ => JStr t end), w)
    end.
Proof.
  unfold text_or_json, bind, text_of, parse_of, ret, throw.
  destruct (payload r); reflexivity.
Qed.

Lemma tsSec_run (w : World) :
  Server.tsSec env w
  = (Ok (Js.of_int (clock env (reads w) / 1000)),
     {| sent := sent w; reads := S (reads w); waited := waited w |}).
Proof. reflexivity. Qed.

End Running.

(** ** The handlers of [server.js] *)
Section Handlers.
Import Json Net Server.
Variable env : Env.
Variable cfg : Config.

Lemma rowKey_case (a b : string) :
  rowKey cfg a = rowKey cfg b <-> Js.toLowerCase a = Js.toLowerCase b.
Proof.
  unfold rowKey. split; [|now intros ->].
  intros H. do 3 apply (inj (String.append _)) in H. exact H.
Qed.

Lemma order_signed (eoa : string) (row : Row) (ts body : string) :
  carries_signature (hmac_key (secret row)) "POST" "/order" (order_request eoa row ts body)
  /\ Net.body (order_request eoa row ts body) = Some body.
Proof.
  split; [|reflexivity]. exists ts. split; [reflexivity|].
  cbn [order_request headers Net.body header String.eqb Ascii.eqb Bool.eqb default].
  unfold hmacB64. rewrite !utf8_app. reflexivity.
Qed.

(** With the relay key and a stored row, the order handler sends one
    request and forwards what the exchange answers. *)
Lemma order_forwards (STORE : gmap string Row) (relay_key : option string)
    (body : string) (address : option string) (row : Row) (r : Response) (up : json)
    (w : World) :
  let eoa := default EmptyString address in
  let ts := Js.of_int (clock env (reads w) / 1000) in
  okRelay cfg relay_key = true ->
  STORE !! rowKey cfg eoa = Some row ->
  answers env (sent w) (order_request eoa row ts body) r up ->
  order cfg STORE relay_key body (Fields address) env w
  = (Ok (forwarded r up row ts ("POST/order" +:+ ts +:+ body)),
     after_request w (order_request eoa row ts body)).
Proof.
  intros eoa ts Hkey Hrow [Hup Hans]. unfold order. rewrite Hkey. cbn [negb].
  apply try_catch_ok. erewrite bind_ok by reflexivity.
  fold eoa. rewrite Hrow.
  erewrite bind_ok by apply tsSec_run. fold ts.
  erewrite bind_ok by (apply fetch_resolves; exact Hup).
  erewrite bind_ok by (apply text_or_json_answer; exact Hans).
  reflexivity.
Qed.

(** Whatever happens, the order handler answers, and a request it sends is
    an order request made from a stored row. *)
Lemma order_sends (STORE : gmap string Row) (relay_key : option string)
    (body : string) (parsed : Incoming (option string)) (w : World) :
  exists reply w',
    order cfg STORE relay_key body parsed env w = (Ok reply, w')
    /\ (sent w' = sent w
        \/ exists eoa row ts,
             STORE !! rowKey cfg eoa = Some row
             /\ sent w' = sent w ++ [order_request eoa row ts body]).
Proof.
  unfold order. destruct (negb (okRelay cfg relay_key)); [unfold ret; eauto|].
  unfold try_catch, bind. destruct parsed as [e|address]; [unfold throw, ret; eauto|].
  unfold ret at 1.
  destruct (STORE !! rowKey cfg (default EmptyString address)) as [row|] eqn:Hrow;
    [|unfold ret; eauto].
  rewrite tsSec_run. unfold fetch. cbn [sent reads waited].
  destruct (upstream env (sent w) _) as [e|r].
  - unfold ret. do 2 eexists. split; [reflexivity|]. right. cbn [sent]. eauto.
  - rewrite text_or_json_run.
    destruct (payload r) as [e|t p]; unfold ret; do 2 eexists;
      (split; [reflexivity|]); right; cbn [sent]; eauto.
Qed.

Lemma sanity_signed (eoa : string) (row : Row) (ts : string) :
  carries_signature (hmac_key (secret row)) "GET" "/auth/ban-status/closed-only"
    (sanity_request eoa row ts)
  /\ Net.body (sanity_request eoa row ts) = None.
Proof.
  split; [|reflexivity]. exists ts. split; [reflexivity|].
  cbn [sanity_request L2 headers Net.body header String.eqb Ascii.eqb Bool.eqb default].
  unfold hmacB64. rewrite !utf8_app, app_nil_r. reflexivity.
Qed.

(** With the relay key and a stored row, the sanity handler signs with the
    secret of the row and sends one request. *)
Lemma l2_sanity_sends (STORE : gmap string Row) (relay_key : option string)
    (address : option string) (row : Row) (w : World) :
  let eoa := default EmptyString address in
  let ts := Js.of_int (clock env (reads w) / 1000) in
  okRelay cfg relay_key = true ->
  STORE !! rowKey cfg eoa = Some row ->
  exists reply,
    l2_sanity cfg STORE relay_key address env w
    = (Ok reply, after_request w (sanity_request eoa row ts)).
Proof.
  intros eoa ts Hkey Hrow. unfold l2_sanity. rewrite Hkey. cbn [negb].
  fold eoa. rewrite Hrow. unfold try_catch, bind. rewrite tsSec_run. fold ts.
  unfold fetch. cbn [sent reads waited].
  destruct (upstream env (sent w) _) as [e|r]; [unfold ret, crash; eauto|].
  rewrite text_or_json_run.
  destruct (payload r) as [e|t p]; unfold ret; eauto.
Qed.

Lemma order_sends_row (STORE : gmap string Row) (relay_key : option string)
    (body : string) (address : option string) (row : Row) (w : World) :
  let eoa := default EmptyString address in
  let ts := Js.of_int (clock env (reads w) / 1000) in
  okRelay cfg relay_key = true ->
  STORE !! rowKey cfg eoa = Some row ->
  exists reply,
    order cfg STORE relay_key body (Fields address) env w
    = (Ok reply, after_request w (order_request eoa row ts body)).
Proof.
  intros eoa ts Hkey Hrow. unfold order. rewrite Hkey. cbn [negb].
  unfold try_catch, bind. unfold ret at 1. fold eoa. rewrite Hrow.
  rewrite tsSec_run. fold ts.
  unfold fetch. cbn [sent reads waited].
  destruct (upstream env (sent w) _) as [e|r]; [unfold ret, crash; eauto|].
  rewrite text_or_json_run.
  destruct (payload r) as [e|t p]; unfold ret; eauto.
Qed.

End Handlers.

(** ** Provisioning credentials *)
Section Provisioning.
Import Json Net Server.
Variable env : Env.
Variable cfg : Config.

Lemma truthy_string (s : string) : s <> EmptyString -> truthy (JStr s) = true.
Proof. intros H. now apply nonempty_true. Qed.

Section ValidInput.
Variable STORE : gmap string Row.
Variable relay_key : option string.
Variables addr signature : string.
Variable stamp : scalar.
Variable nonce0 : option scalar.
Variable w : World.
Hypothesis relay_ok : okRelay cfg relay_key = true.
Hypothesis address_given : addr <> EmptyString.
Hypothesis timestamp_given : scalar_truthy stamp = true.
Hypothesis signature_given : signature <> EmptyString.

Let input : Incoming L1Input :=
  Fields {| address := Some addr; timestamp := Some stamp; nonce := nonce0;
            eip712Signature := Some signature |}.
Let l1 := L1 addr signature stamp (default (Num 0) nonce0).

(** Past the relay key and the test of the inputs. *)
Ltac enter :=
  unfold auth_create; rewrite relay_ok; cbn [negb]; subst input;
  unfold tsSec; unfold try_catch, bind, fetch, now, ret, throw;
  cbn [address timestamp eip712Signature nonce sent reads waited];
  rewrite (proj2 (nonempty_true addr) address_given), timestamp_given,
    (proj2 (nonempty_true signature) signature_given);
  cbn [andb negb]; fold l1.

(** The exchange answers the next request as [H] tells. *)
Ltac answered H :=
  let Hup := fresh in let Hans := fresh in
  destruct H as [Hup Hans];
  cbn [sent reads waited negb]; rewrite <- ?app_assoc; cbn [app];
  rewrite Hup; cbn [sent reads waited];
  rewrite (text_or_json_answer env _ _ _ Hans); cbn [sent reads waited].

Lemma derive_refused r1 up1 r2 up2 r3 up3 :
  refuses env (sent w) (create_request l1) r1 up1 ->
  refuses env (sent w ++ [create_request l1]) (derive_request l1) r2 up2 ->
  answers env (sent w ++ [create_request l1; derive_request l1]) (access_request addr) r3 up3 ->
  exists w',
    auth_create cfg STORE relay_key input env w
    = (Ok (Replied {| code := Net.status r2;
                      reply := JObj [("ok", JBool false); ("where", JStr "derive");
                                     ("upstream", up2); ("accessStatus", up3)] |},
           STORE), w').
Proof.
  intros [H1 Hok1] [H2 Hok2] H3. enter.
  answered H1. rewrite Hok1.
  answered H2. rewrite Hok2.
  answered H3. eauto.
Qed.

(** The credentials in [up] pass the test for presence and are strings. *)
Ltac credentials Hk Hs Hp :=
  let H1 := fresh in let H2 := fresh in
  unfold credential;
  destruct Hk as [H1 H2]; rewrite H1; apply nonempty_true in H2;
  cbn [truthy_val truthy as_string]; rewrite H2; clear H1 H2;
  destruct Hs as [H1 H2]; rewrite H1; apply nonempty_true in H2;
  cbn [truthy_val truthy as_string]; rewrite H2; clear H1 H2;
  destruct Hp as [H1 H2]; rewrite H1; apply nonempty_true in H2;
  cbn [truthy_val truthy as_string]; rewrite H2; clear H1 H2;
  cbn [andb negb].

Lemma verify_refused earlier up key secret pass v vJSON :
  let ts := Js.of_int (clock env (reads w) / 1000) in
  issued env w l1 earlier up ->
  has_credential up "key" key ->
  has_credential up "secret" secret ->
  has_credential up "passphrase" pass ->
  refuses env earlier (verify_request addr key secret pass ts) v vJSON ->
  exists w',
    auth_create cfg STORE relay_key input env w
    = (Ok (Replied {| code := Net.status v;
                      reply := JObj [("ok", JBool false); ("where", JStr "verify");
                                     ("upstream", vJSON);
                                     ("sent", sent_info key pass ts
                                                ("GET/auth/api-keys" +:+ ts))] |},
           STORE), w').
Proof.
  intros ts Hissued Hk Hs Hp [Hv Hokv]. enter.
  destruct Hissued as [(r & [H1 Hok1] & ->) | (r1 & up1 & r2 & [H1 Hok1] & [H2 Hok2] & ->)].
  - answered H1. rewrite Hok1. cbn [negb]. credentials Hk Hs Hp.
    cbn [sent reads waited]. fold ts. answered Hv. rewrite Hokv. cbn [negb]. eauto.
  - answered H1. rewrite Hok1. answered H2. rewrite Hok2. cbn [negb].
    credentials Hk Hs Hp.
    cbn [sent reads waited]. fold ts. answered Hv. rewrite Hokv. cbn [negb]. eauto.
Qed.

Lemma verify_granted earlier up key secret pass v vJSON :
  let ts := Js.of_int (clock env (reads w) / 1000) in
  issued env w l1 earlier up ->
  has_credential up "key" key ->
  has_credential up "secret" secret ->
  has_credential up "passphrase" pass ->
  grants env earlier (verify_request addr key secret pass ts) v vJSON ->
  exists w',
    auth_create cfg STORE relay_key input env w
    = (Ok (Replied {| code := 200;
                      reply := JObj [("ok", JBool true); ("owner", JStr addr);
                                     ("keySuffix", JStr (Js.slice_last 6 key));
                                     ("passSuffix", JStr (Js.slice_last 4 pass))] |},
           <[rowKey cfg addr := {| Server.key := key; Server.secret := secret;
                                   Server.pass := pass;
                                   owner := Js.toLowerCase addr |}]> STORE), w').
Proof.
  intros ts Hissued Hk Hs Hp [Hv Hokv]. enter.
  destruct Hissued as [(r & [H1 Hok1] & ->) | (r1 & up1 & r2 & [H1 Hok1] & [H2 Hok2] & ->)].
  - answered H1. rewrite Hok1. cbn [negb]. credentials Hk Hs Hp.
    cbn [sent reads waited]. fold ts. answered Hv. rewrite Hokv. cbn [negb]. eauto.
  - answered H1. rewrite Hok1. answered H2. rewrite Hok2. cbn [negb].
    credentials Hk Hs Hp.
    cbn [sent reads waited]. fold ts. answered Hv. rewrite Hokv. cbn [negb]. eauto.
Qed.

End ValidInput.
Lemma text_or_json_inv (r : Response) (up : json) (w0 w1 : World) :
  text_or_json r env w0 = (Ok up, w1) -> answer r = Some up /\ w1 = w0.
Proof.
  rewrite text_or_json_run. unfold answer.
  destruct (payload r) as [e|t [v|e]]; intros H; inversion H; auto.
Qed.

(** Destruct what the next [match] of the goal looks at. *)
Ltac step :=
  match goal with
  | |- context [match ?x with _ => _ end] =>
      lazymatch x with
      | context [match _ with _ => _ end] => fail
      | _ => destruct x eqn:?
      end
  end.

(** The leaf of the handler in which the verify request was granted. *)
Ltac verified :=
  match goal with
  | Hup : upstream env ?earlier (verify_request ?a ?k ?s ?p ?ts) = Resolves ?v |- _ =>
      match goal with
      | Hb : _ = Fields ?f, Ht : text_or_json v env _ = (Ok ?vJSON, _),
        Hok : negb (ok v) = false |- _ =>
          let Hans := fresh "Hans" in
          apply text_or_json_inv in Ht as [Hans ->];
          apply negb_false_iff in Hok;
          exists f, a, {| key := k; secret := s; pass := p; owner := Js.toLowerCase a |},
                 ts, earlier, v, vJSON
      end
  end.

(** The handler always returns.  Either it leaves the store as it was, and
    then its reply says [ok: false] (or the run left the model); or the
    exchange granted the verify request, the last one sent, and then the reply
    says [ok: true] and the store has got the row of the owner. *)
Lemma auth_create_outcomes (STORE : gmap string Row) (relay_key : option string)
    (body : Incoming L1Input) (w : World) :
  exists out STORE' w',
    auth_create cfg STORE relay_key body env w = (Ok (out, STORE'), w')
    /\ ((STORE' = STORE
         /\ (out = OutsideModel
             \/ exists r, out = Replied r /\ reports_ok r = Some (JBool false)))
        \/ exists f a row ts earlier v vJSON r,
             body = Fields f /\ address f = Some a
             /\ STORE' = <[rowKey cfg a := row]> STORE
             /\ owner row = Js.toLowerCase a
             /\ sent w' = earlier ++ [verify_request a (key row) (secret row) (pass row) ts]
             /\ grants env earlier (verify_request a (key row) (secret row) (pass row) ts)
                  v vJSON
             /\ out = Replied r /\ reports_ok r = Some (JBool true)).
Proof.
  unfold auth_create.
  destruct (negb (okRelay cfg relay_key)).
  { unfold ret. do 3 eexists. split; [reflexivity|]. left. split; [reflexivity|].
    right. eexists. split; reflexivity. }
  unfold tsSec. unfold try_catch, bind, fetch, now, ret, throw.
  repeat step.
  all: do 3 eexists; (split; [reflexivity|]).
  all: try (left; split; [reflexivity|]; first
              [ left; reflexivity | right; eexists; split; reflexivity ]).
  all: right.
  all: verified.
  all: eexists; repeat split; try reflexivity; assumption.
Qed.

End Provisioning.

(** ** The trading status *)
Section Status.
Import Json Net Polymarket.
Variable env : Env.

(** The status check reads the clock once, sends one request and returns. *)
Lemma checkTradingStatus_total (address apiKey secret passphrase : string) (w : World) :
  exists result,
    checkTradingStatus address apiKey secret passphrase env w
    = (Ok result,
       after_attempt w (status_request address apiKey secret passphrase (clock env (reads w)))).
Proof.
  unfold checkTradingStatus, bind, try_catch, now, fetch, after_attempt.
  cbn [sent reads waited].
  destruct (upstream env (sent w) _) as [e|r]; [eexists; reflexivity|].
  destruct (ok r); cbn [negb]; [|eexists; reflexivity].
  unfold json_of, read.
  destruct (payload r) as [e|t [[]|e]]; eexists; reflexivity.
Qed.

(** C8.  [checkTradingStatus] always returns a result, having read the
    clock once and sent one request.  When the transport throws, when the
    status is not 2xx, when the body of a 2xx response cannot be read as JSON
    or is [null], trading is reported as not enabled and an error text is
    given.  On a 2xx response whose body is another JSON value, trading is
    enabled exactly when [closedOnly] is not truthy, and no error is given. *)
Theorem checkTradingStatus_always_returns
    (address apiKey secret passphrase : string) (w : World) :
  let req := status_request address apiKey secret passphrase (clock env (reads w)) in
  exists result,
    checkTradingStatus address apiKey secret passphrase env w
    = (Ok result, after_attempt w req)
    /\ match upstream env (sent w) req with
       | Rejects e => tradingEnabled result = false /\ status_error result = Some e
       | Resolves r =>
           if ok r then
             match payload r with
             | BodyFails e | BodyText _ (SyntaxError e) =>
                 tradingEnabled result = false /\ status_error result = Some e
             | BodyText _ (Parsed JNull) =>
                 tradingEnabled result = false
                 /\ status_error result = Some (null_read "closedOnly")
             | BodyText _ (Parsed data) =>
                 tradingEnabled result = negb (truthy_val (prop "closedOnly" data))
                 /\ closedOnly result = prop "closedOnly" data
                 /\ status_error result = None
             end
           else
             tradingEnabled result = false
             /\ status_error result
                = Some ("Status check failed: " +:+ Js.of_int (Net.status r))
       end.
Proof.
  intros req. subst req.
  unfold checkTradingStatus, bind, try_catch, now, fetch, after_attempt.
  cbn [sent reads waited].
  destruct (upstream env (sent w) _) as [e|r].
  - eexists. split; [reflexivity|]. split; reflexivity.
  - destruct (ok r); cbn [negb].
    + unfold json_of, read.
      destruct (payload r) as [e|t [data|e]].
      * eexists. split; [reflexivity|]. split; reflexivity.
      * destruct data; eexists; (split; [reflexivity|]); repeat split; reflexivity.
      * eexists. split; [reflexivity|]. split; reflexivity.
    + eexists. split; [reflexivity|]. split; reflexivity.
Qed.

Lemma status_signed (address apiKey secret passphrase : string) (ms : Z) :
  carries_signature (Hmac.hmac_key secret) "GET" "/auth/ban-status/closed-only"
    (status_request address apiKey secret passphrase ms)
  /\ Net.body (status_request address apiKey secret passphrase ms) = None.
Proof.
  split; [|reflexivity]. exists (Js.of_int (ms / 1000)). split; [reflexivity|].
  transitivity (Some (Hmac.generateSignature secret "GET" "/auth/ban-status/closed-only"
                        (ms / 1000) None)); [reflexivity|].
  cbn [status_request Net.body default].
  unfold Hmac.generateSignature, Hmac.hmacBase64, Hmac.preimage.
  rewrite !utf8_app. reflexivity.
Qed.

Lemma trade_signed (address apiKey secret passphrase : string) (order : json) (ms : Z) :
  carries_signature (Hmac.hmac_key secret) "POST" "/order"
    (order_request address apiKey secret passphrase order ms)
  /\ Net.body (order_request address apiKey secret passphrase order ms)
     = Some (Json.stringify order).
Proof.
  split; [|reflexivity]. exists (Js.of_int (ms / 1000)). split; [reflexivity|].
  transitivity (Some (Hmac.generateSignature secret "POST" "/order" (ms / 1000)
                        (Some (Json.stringify order)))); [reflexivity|].
  cbn [order_request Net.body default].
  unfold Hmac.generateSignature, Hmac.hmacBase64, Hmac.preimage.
  rewrite !utf8_app. reflexivity.
Qed.

End Status.

(** ** What is signed *)

(** C4.  The signature is the HMAC-SHA256 of the bytes of the method, the
    path, the decimal timestamp and the body, one after the other and nothing
    between them, with the empty text for a missing body; it is written as 43
    digits of the standard base64 alphabet and one [=].  The request of a
    trade attempt carries such a signature over the very body it carries, and
    the status request carries one over no body.  The order handler of
    [server.js], given the relay key and an address the store has a row for,
    sends one request: it carries the body text the handler was given, the
    key of that row, and such a signature, made with the secret of that row,
    over that same body text.  A request the handler sends is always of that
    kind. *)
Theorem signature_of_plain_concatenation
    (secret method path : string) (timestamp : Z) (body : option string) :
  let signature := Hmac.generateSignature secret method path timestamp body in
  (safe_integer timestamp ->
   signature
   = Base64.encode
       (Crypto.hmac_sha256 (Hmac.hmac_key secret)
          (Js.utf8 method ++ Js.utf8 path ++ Js.utf8 (Js.of_int timestamp)
           ++ Js.utf8 (default EmptyString body))))
  /\ (exists digits,
        Js.chars signature = digits ++ ["="%char]
        /\ List.length digits = 43%nat
        /\ Forall (fun c => Base64.is_std_digit c = true) digits)
  /\ (forall env w address apiKey passphrase signedOrder,
        exists result req,
          Polymarket.attemptTrade address apiKey secret passphrase signedOrder env w
          = (Net.Ok result, after_attempt w req)
          /\ carries_signature (Hmac.hmac_key secret) "POST" "/order" req
          /\ Net.body req = Some (Json.stringify signedOrder))
  /\ (forall env w address apiKey passphrase,
        exists result req,
          Polymarket.checkTradingStatus address apiKey secret passphrase env w
          = (Net.Ok result, after_attempt w req)
          /\ carries_signature (Hmac.hmac_key secret) "GET" "/auth/ban-status/closed-only" req
          /\ Net.body req = None)
  /\ (forall env cfg STORE relay_key text address row w,
        Server.okRelay cfg relay_key = true ->
        STORE !! Server.rowKey cfg (default EmptyString address) = Some row ->
        exists reply req,
          Server.order cfg STORE relay_key text (Server.Fields address) env w
          = (Net.Ok reply, after_request w req)
          /\ carries_signature (Server.hmac_key (Server.secret row)) "POST" "/order" req
          /\ Net.body req = Some text
          /\ Net.header "POLY_API_KEY" (Net.headers req) = Some (Server.key row)
          /\ Net.header "POLY_ADDRESS" (Net.headers req) = Some (default EmptyString address))
  /\ (forall env cfg STORE relay_key text parsed w,
        exists reply w',
          Server.order cfg STORE relay_key text parsed env w = (Net.Ok reply, w')
          /\ (Net.sent w' = Net.sent w
              \/ exists eoa row req,
                   STORE !! Server.rowKey cfg eoa = Some row
                   /\ Net.sent w' = Net.sent w ++ [req]
                   /\ carries_signature (Server.hmac_key (Server.secret row)) "POST" "/order" req
                   /\ Net.body req = Some text)).
Proof.
  intros signature. subst signature.
  split; [|split; [|split; [|split; [|split]]]].
  - intros _. unfold Hmac.generateSignature, Hmac.hmacBase64, Hmac.preimage.
    now rewrite !utf8_app.
  - apply digest_base64.
  - intros env w address apiKey passphrase signedOrder.
    do 2 eexists. split; [apply attemptTrade_run|]. apply trade_signed.
  - intros env w address apiKey passphrase.
    destruct (checkTradingStatus_total env address apiKey secret passphrase w)
      as (result & Hrun).
    do 2 eexists. split; [exact Hrun|]. apply status_signed.
  - intros env cfg STORE relay_key text address row w Hkey Hrow.
    destruct (order_sends_row env cfg STORE relay_key text address row w Hkey Hrow)
      as (reply & Hrun).
    do 2 eexists. split; [exact Hrun|].
    split; [apply order_signed|]. repeat split.
  - intros env cfg STORE relay_key text parsed w.
    destruct (order_sends env cfg STORE relay_key text parsed w)
      as (reply & w' & Hrun & [Hsame | (eoa & row & ts & Hrow & Hsent)]).
    + exists reply, w'. split; [exact Hrun|]. now left.
    + exists reply, w'. split; [exact Hrun|]. right.
      exists eoa, row, (Server.order_request eoa row ts text).
      split; [exact Hrow|]. split; [exact Hsent|]. apply order_signed.
Qed.

Lemma signature_of_plain_concatenation_witness :
  Hmac.generateSignature "s3cret!" "GET" "/auth/api-keys" 1700000000 None
  = Base64.encode
      (Crypto.hmac_sha256 (Js.utf8 "s3cret!") (Js.utf8 "GET/auth/api-keys1700000000"))
  /\ exists reply req,
       Server.order relay store_of_0xAbC1 (Some "relay-key") order_text
         (Server.Fields (Some "0xAbC1")) accepting_without_id Net.start
       = (Net.Ok reply, after_request Net.start req)
       /\ carries_signature (Server.hmac_key "c2VjcmV0LWJ5dGVz") "POST" "/order" req
       /\ Net.body req = Some order_text
       /\ Net.header "POLY_API_KEY" (Net.headers req) = Some "key-0123456789"
       /\ Net.header "POLY_ADDRESS" (Net.headers req) = Some "0xAbC1".
Proof.
  destruct (signature_of_plain_concatenation "s3cret!" "GET" "/auth/api-keys" 1700000000 None)
    as (Hsig & _ & _ & _ & Horder & _).
  split.
  - rewrite Hsig; [vm_compute; reflexivity|]. unfold safe_integer. cbn. lia.
  - apply (Horder accepting_without_id relay store_of_0xAbC1 (Some "relay-key") order_text
             (Some "0xAbC1") row_of_0xAbC1 Net.start eq_refl).
    vm_compute. reflexivity.
Defined.

(** ** Success of an order *)

(** C3, as stated, fails on the order handler of [server.js]: the relay has
    the credentials of 0xAbC1 and gets an order of that address; the exchange
    answers 200 with the empty object, which has no order id, and the reply
    of the relay says [ok: true] with status 200. *)
Lemma order_handler_reports_ok_without_order_id :
  exists reply,
    fst (Server.order relay store_of_0xAbC1 (Some "relay-key") order_text
           (Server.Fields (Some "0xAbC1")) accepting_without_id Net.start)
    = Net.Ok reply
    /\ Server.code reply = 200
    /\ reports_ok reply = Some (JBool true)
    /\ Json.prop "upstream" (Server.reply reply) = Some (JObj [])
    /\ Json.prop "orderID" (JObj []) = None.
Proof. eexists. vm_compute. repeat split; reflexivity. Qed.

(** C3, amended.  [executeTrade] reports success exactly when the exchange
    answered the last request it sent with a 2xx status and a body that parses
    to a value with a truthy [orderID] (for a string: one that is not empty),
    which is then the [orderId] of the result; a 200 without order id is a
    failure.  The order handler of [server.js] does not look for an order id:
    its reply carries the status of the exchange, and its [ok] is true exactly
    when that status is 2xx. *)
Theorem success_of_an_order :
  (forall env w credentials signedOrder ownerAddress funderAddress,
     exists result w' earlier last,
       Polymarket.executeTrade credentials signedOrder ownerAddress funderAddress env w
       = (Net.Ok result, w')
       /\ Net.sent w' = earlier ++ [last]
       /\ (Polymarket.succeeded result = true
           <-> exists orderID, placed_by (Net.upstream env earlier last) orderID)
       /\ (forall orderID,
             (exists who, result = Polymarket.Placed orderID who)
             <-> placed_by (Net.upstream env earlier last) orderID))
  /\ (forall env cfg STORE relay_key text address row r up w,
        let eoa := default EmptyString address in
        let ts := Js.of_int (Net.clock env (Net.reads w) / 1000) in
        Server.okRelay cfg relay_key = true ->
        STORE !! Server.rowKey cfg eoa = Some row ->
        answers env (Net.sent w) (Server.order_request eoa row ts text) r up ->
        exists reply w',
          Server.order cfg STORE relay_key text (Server.Fields address) env w
          = (Net.Ok reply, w')
          /\ Server.code reply = Net.status r
          /\ reports_ok reply = Some (JBool (Net.ok r))
          /\ Json.prop "upstream" (Server.reply reply) = Some up).
Proof.
  split.
  - intros. apply executeTrade_success.
  - intros env cfg STORE relay_key text address row r up w eoa ts Hkey Hrow Hans.
    do 2 eexists. split; [apply order_forwards; eassumption|].
    repeat split; reflexivity.
Qed.

Lemma success_of_an_order_witness :
  exists reply w',
    Server.order relay store_of_0xAbC1 (Some "relay-key") order_text
      (Server.Fields (Some "0xAbC1")) accepting_without_id Net.start
    = (Net.Ok reply, w')
    /\ reports_ok reply = Some (JBool true).
Proof.
  destruct success_of_an_order as [_ Hrelay].
  destruct (Hrelay accepting_without_id relay store_of_0xAbC1 (Some "relay-key") order_text
              (Some "0xAbC1") row_of_0xAbC1
              {| Net.status := 200; Net.payload := json_body (JObj []) |} (JObj []) Net.start)
    as (reply & w' & Hrun & _ & Hok & _).
  - reflexivity.
  - vm_compute. reflexivity.
  - split; reflexivity.
  - exists reply, w'. split; [exact Hrun | exact Hok].
Defined.

(** ** Failures of provisioning *)

(** C5, as stated, fails when a request fails in the transport.  Create and
    derive are refused and the diagnostic request that follows throws: the
    reply is the untagged 500 of the catch-all handler.  Create is granted
    and the verify request throws: again the reply carries no [where]. *)
Lemma transport_failures_are_not_tagged :
  (exists r,
     fst (Server.auth_create relay ∅ (Some "relay-key") (Server.Fields proof_of_0xAbC1)
            refusing_then_down Net.start)
     = Net.Ok (Server.Replied r, ∅)
     /\ Server.code r = 500 /\ where_tag r = None)
  /\ (exists r,
        fst (Server.auth_create relay ∅ (Some "relay-key") (Server.Fields proof_of_0xAbC1)
               issuing_then_down Net.start)
        = Net.Ok (Server.Replied r, ∅)
        /\ Server.code r = 500 /\ where_tag r = None).
Proof. split; eexists; vm_compute; repeat split; reflexivity. Qed.

(** C5, amended.  When the exchange answers both the create and the derive
    request with a status that is not 2xx and answers the diagnostic request
    that follows, the reply carries the status of the derive answer and the
    tag [where: "derive"].  When the exchange grants create or derive with a
    key, a secret and a passphrase that are strings and not empty, and answers
    the verify request with a status that is not 2xx, the reply carries that
    status and the tag [where: "verify"].  In both cases the store is left as
    it was.  In every run the handler returns, and it changes the store only
    when the exchange granted the verify request, the last request sent; the
    new row is then stored under the key made of the lowercased address. *)
Theorem provisioning_failures (env : Net.Env) (cfg : Server.Config)
    (STORE : gmap string Server.Row) (w : Net.World) :
  (forall relay_key addr signature stamp nonce0 r1 up1 r2 up2 r3 up3,
     let l1 := Server.L1 addr signature stamp (default (Server.Num 0) nonce0) in
     Server.okRelay cfg relay_key = true ->
     addr <> EmptyString -> Server.scalar_truthy stamp = true -> signature <> EmptyString ->
     refuses env (Net.sent w) (Server.create_request l1) r1 up1 ->
     refuses env (Net.sent w ++ [Server.create_request l1]) (Server.derive_request l1) r2 up2 ->
     answers env (Net.sent w ++ [Server.create_request l1; Server.derive_request l1])
       (Server.access_request addr) r3 up3 ->
     exists w',
       Server.auth_create cfg STORE relay_key
         (Server.Fields {| Server.address := Some addr; Server.timestamp := Some stamp;
                           Server.nonce := nonce0;
                           Server.eip712Signature := Some signature |}) env w
       = (Net.Ok (Server.Replied
                    {| Server.code := Net.status r2;
                       Server.reply := JObj [("ok", JBool false); ("where", JStr "derive");
                                             ("upstream", up2); ("accessStatus", up3)] |},
                  STORE), w'))
  /\ (forall relay_key addr signature stamp nonce0 earlier up key secret pass v vJSON,
        let l1 := Server.L1 addr signature stamp (default (Server.Num 0) nonce0) in
        let ts := Js.of_int (Net.clock env (Net.reads w) / 1000) in
        Server.okRelay cfg relay_key = true ->
        addr <> EmptyString -> Server.scalar_truthy stamp = true -> signature <> EmptyString ->
        issued env w l1 earlier up ->
        has_credential up "key" key ->
        has_credential up "secret" secret ->
        has_credential up "passphrase" pass ->
        refuses env earlier (Server.verify_request addr key secret pass ts) v vJSON ->
        exists w',
          Server.auth_create cfg STORE relay_key
            (Server.Fields {| Server.address := Some addr; Server.timestamp := Some stamp;
                              Server.nonce := nonce0;
                              Server.eip712Signature := Some signature |}) env w
          = (Net.Ok (Server.Replied
                       {| Server.code := Net.status v;
                          Server.reply :=
                            JObj [("ok", JBool false); ("where", JStr "verify");
                                  ("upstream", vJSON);
                                  ("sent", Server.sent_info key pass ts
                                             ("GET/auth/api-keys" +:+ ts))] |},
                     STORE), w'))
  /\ (forall relay_key body,
        exists out STORE' w',
          Server.auth_create cfg STORE relay_key body env w = (Net.Ok (out, STORE'), w')
          /\ (STORE' = STORE
              \/ exists f a row ts earlier v vJSON,
                   body = Server.Fields f /\ Server.address f = Some a
                   /\ STORE' = <[Server.rowKey cfg a := row]> STORE
                   /\ Server.owner row = Js.toLowerCase a
                   /\ Net.sent w'
                      = earlier ++ [Server.verify_request a (Server.key row) (Server.secret row)
                                      (Server.pass row) ts]
                   /\ grants env earlier
                        (Server.verify_request a (Server.key row) (Server.secret row)
                           (Server.pass row) ts) v vJSON)).
Proof.
  repeat split.
  - intros. eapply derive_refused; eassumption.
  - intros. eapply verify_refused; eassumption.
  - intros relay_key body.
    destruct (auth_create_outcomes env cfg STORE relay_key body w)
      as (out & STORE' & w' & Hrun & [[Hsame _] | Hnew]).
    + exists out, STORE', w'. split; [exact Hrun|]. now left.
    + destruct Hnew as (f & a & row & ts & earlier & v & vJSON & r & Hb & Ha & Hs & Ho & Hw & Hg & _).
      exists out, STORE', w'. split; [exact Hrun|]. right.
      exists f, a, row, ts, earlier, v, vJSON. repeat split; trivial; apply Hg.
Qed.

Lemma provisioning_failures_witness :
  (exists r w',
     Server.auth_create relay ∅ (Some "relay-key") (Server.Fields proof_of_0xAbC1)
       refusing Net.start = (Net.Ok (Server.Replied r, ∅), w')
     /\ Server.code r = 401 /\ where_tag r = Some (JStr "derive"))
  /\ (exists r w',
        Server.auth_create relay ∅ (Some "relay-key") (Server.Fields proof_of_0xAbC1)
          issuing_unusable Net.start = (Net.Ok (Server.Replied r, ∅), w')
        /\ Server.code r = 401 /\ where_tag r = Some (JStr "verify")).
Proof.
  split.
  - destruct (provisioning_failures refusing relay ∅ Net.start) as (Hderive & _ & _).
    edestruct (Hderive (Some "relay-key") "0xAbC1" "0x5161" (Server.Num 1700000000) None)
      as [w' Hrun].
    + reflexivity.
    + discriminate.
    + reflexivity.
    + discriminate.
    + split; [split|]; reflexivity.
    + split; [split|]; reflexivity.
    + split; reflexivity.
    + do 2 eexists. split; [exact Hrun|]. split; reflexivity.
  - destruct (provisioning_failures issuing_unusable relay ∅ Net.start) as (_ & Hverify & _).
    pose (l1 := Server.L1 "0xAbC1" "0x5161" (Server.Num 1700000000) (Server.Num 0)).
    edestruct (Hverify (Some "relay-key") "0xAbC1" "0x5161" (Server.Num 1700000000) None
                 [Server.create_request l1; Server.derive_request l1]
                 issued_credentials "key-0123456789" "c2VjcmV0LWJ5dGVz" "pass-phrase")
      as [w' Hrun].
    + reflexivity.
    + discriminate.
    + reflexivity.
    + discriminate.
    + right. do 3 eexists. split; [|split; [|reflexivity]].
      * split; [split|]; reflexivity.
      * split; [split|]; reflexivity.
    + split; [reflexivity | discriminate].
    + split; [reflexivity | discriminate].
    + split; [reflexivity | discriminate].
    + split; [split|]; reflexivity.
    + do 2 eexists. split; [exact Hrun|]. split; reflexivity.
Defined.

(** ** Looking a row up *)

(** C10.  Two addresses have the same store key exactly when they are equal
    after lowercasing.  After an [auth-create] that answered [ok: true] for
    the address [a], the store holds a row under the key of [a], and every
    address [a'] that differs from [a] only in the case of its letters finds
    that same row: the sanity handler and the order handler, called with
    [a'], sign with the secret of the row and send their request. *)
Theorem stored_row_found_in_any_case (env : Net.Env) (cfg : Server.Config)
    (STORE STORE' : gmap string Server.Row) (relay_key : option string)
    (f : Server.L1Input) (a : string) (w w' : Net.World) (r : Server.Reply) :
  Server.auth_create cfg STORE relay_key (Server.Fields f) env w
  = (Net.Ok (Server.Replied r, STORE'), w') ->
  Server.address f = Some a ->
  reports_ok r = Some (JBool true) ->
  (forall b c, Server.rowKey cfg b = Server.rowKey cfg c
               <-> Js.toLowerCase b = Js.toLowerCase c)
  /\ exists row,
       STORE' !! Server.rowKey cfg a = Some row
       /\ Server.owner row = Js.toLowerCase a
       /\ forall a', Js.toLowerCase a' = Js.toLowerCase a ->
            STORE' !! Server.rowKey cfg a' = Some row
            /\ (forall env2 w2, exists reply,
                  Server.l2_sanity cfg STORE' relay_key (Some a') env2 w2
                  = (Net.Ok reply,
                     after_request w2
                       (Server.sanity_request a' row
                          (Js.of_int (Net.clock env2 (Net.reads w2) / 1000)))))
            /\ (forall env2 w2 text, exists reply,
                  Server.order cfg STORE' relay_key text (Server.Fields (Some a')) env2 w2
                  = (Net.Ok reply,
                     after_request w2
                       (Server.order_request a' row
                          (Js.of_int (Net.clock env2 (Net.reads w2) / 1000)) text))).
Proof.
  intros Hrun Ha Hok. split; [apply rowKey_case|].
  assert (Hkey : Server.okRelay cfg relay_key = true).
  { destruct (Server.okRelay cfg relay_key) eqn:Hk; [reflexivity|].
    unfold Server.auth_create in Hrun. rewrite Hk in Hrun. cbn in Hrun.
    inversion Hrun; subst. discriminate. }
  destruct (auth_create_outcomes env cfg STORE relay_key (Server.Fields f) w)
    as (out & S1 & w1 & Hrun1 & Hcases).
  rewrite Hrun in Hrun1. inversion Hrun1; subst out S1 w1. clear Hrun1.
  destruct Hcases as [[_ [Hout | (r0 & Hr0 & Hno)]] | Hnew].
  - discriminate.
  - inversion Hr0; subst r0. congruence.
  - destruct Hnew as (f0 & a0 & row & ts & earlier & v & vJSON & r0 & Hf & Ha0 & HS & Ho & _).
    inversion Hf; subst f0. rewrite Ha in Ha0. inversion Ha0; subst a0.
    exists row.
    assert (Hrow : STORE' !! Server.rowKey cfg a = Some row)
      by (rewrite HS; apply lookup_insert_eq).
    split; [exact Hrow|]. split; [exact Ho|].
    intros a' Hcase.
    assert (Hrow' : STORE' !! Server.rowKey cfg a' = Some row)
      by (rewrite (proj2 (rowKey_case cfg a' a) Hcase); exact Hrow).
    split; [exact Hrow'|]. split.
    + intros env2 w2. apply (l2_sanity_sends env2 cfg STORE' relay_key (Some a')); assumption.
    + intros env2 w2 text.
      apply (order_sends_row env2 cfg STORE' relay_key text (Some a')); assumption.
Qed.

Lemma stored_row_found_in_any_case_witness :
  exists row,
    store_of_0xAbC1 !! Server.rowKey relay "0xAbC1" = Some row
    /\ store_of_0xAbC1 !! Server.rowKey relay "0XABC1" = Some row
    /\ store_of_0xAbC1 !! Server.rowKey relay "0xabc1" = Some row
    /\ row = row_of_0xAbC1.
Proof.
  pose (run := Server.auth_create relay ∅ (Some "relay-key") (Server.Fields proof_of_0xAbC1)
                 issuing Net.start).
  assert (Hrun : run = (Net.Ok (Server.Replied
                                  {| Server.code := 200;
                                     Server.reply :=
                                       JObj [("ok", JBool true); ("owner", JStr "0xAbC1");
                                             ("keySuffix", JStr "456789");
                                             ("passSuffix", JStr "rase")] |},
                                store_of_0xAbC1),
                        snd run)).
  { vm_compute. reflexivity. }
  destruct (stored_row_found_in_any_case issuing relay ∅ store_of_0xAbC1 (Some "relay-key")
              proof_of_0xAbC1 "0xAbC1" Net.start _ _ Hrun eq_refl eq_refl)
    as (_ & row & Hrow & Howner & Hcase).
  exists row.
  split; [exact Hrow|].
  split; [apply (Hcase "0XABC1"); reflexivity|].
  split; [apply (Hcase "0xabc1"); reflexivity|].
  vm_compute in Hrow. inversion Hrow. reflexivity.
Defined.

(** ** The rate limiter *)
Section Limiter.
Import Auth.

Lemma live_app (now : Z) (l1 l2 : list Z) : live now (l1 ++ l2) = live now l1 ++ live now l2.
Proof. apply List.filter_app. Qed.

Lemma live_length (now : Z) (l : list Z) : (List.length (live now l) <= List.length l)%nat.
Proof. apply List.filter_length_le. Qed.

(** What is pruned at [t] is not inside the window at a later time. *)
Lemma live_live (t now : Z) (l : list Z) : t <= now -> live now (live t l) = live now l.
Proof.
  intros Ht. unfold live. induction l as [|x l IH]; [reflexivity|].
  cbn [List.filter]. destruct (fresh t x) eqn:Hx.
  - cbn [List.filter]. now rewrite IH.
  - rewrite IH. destruct (fresh now x) eqn:Hn; [|reflexivity].
    unfold fresh in *. apply Z.ltb_lt in Hn. apply Z.ltb_ge in Hx. lia.
Qed.

Lemma live_none (now : Z) (l : list Z) :
  Forall (fun t => RATE_LIMIT_WINDOW <= now - t) l -> live now l = [].
Proof.
  induction 1 as [|x l Hx _ IH]; [reflexivity|].
  unfold live in *. cbn [List.filter]. rewrite IH.
  unfold fresh. now rewrite (proj2 (Z.ltb_ge _ _) Hx).
Qed.

Lemma key_of_inj (u v : string) : key_of u = key_of v -> u = v.
Proof. unfold key_of. apply (inj (String.append _)). Qed.

(** The limiter on a user id that is not empty. *)
Lemma rateLimiter_eq (m : gmap string (list Z)) (u : string) (now : Z) :
  u <> EmptyString ->
  rateLimiter m (Some u) now
  = let requests := live now (stored m u) in
    if RATE_LIMIT_MAX_REQUESTS <=? Z.of_nat (List.length requests) then
      (Exceeded match requests with
                | oldestRequest :: _ =>
                    Some (ceil_seconds (RATE_LIMIT_WINDOW - (now - oldestRequest)))
                | [] => None
                end, m)
    else
      (Pass (RATE_LIMIT_MAX_REQUESTS - Z.of_nat (List.length (requests ++ [now]))),
       <[key_of u := requests ++ [now]]> m).
Proof.
  intros Hu. unfold rateLimiter. apply nonempty_true in Hu. rewrite Hu. reflexivity.
Qed.

Lemma rateLimiter_refusal (m m' : gmap string (list Z)) (userId : option string)
    (now : Z) (retryAfter : option Z) :
  rateLimiter m userId now = (Exceeded retryAfter, m') -> m' = m.
Proof.
  unfold rateLimiter. destruct userId as [u|]; [|discriminate].
  destruct (negb (Js.nonempty u)); [discriminate|].
  destruct (RATE_LIMIT_MAX_REQUESTS <=? _); intros H; inversion H; reflexivity.
Qed.

Lemma passes_spec (m : gmap string (list Z)) (u : string) (now : Z) :
  u <> EmptyString ->
  passes m u now = (Z.of_nat (List.length (live now (stored m u))) <? RATE_LIMIT_MAX_REQUESTS).
Proof.
  intros Hu. unfold passes. rewrite (rateLimiter_eq m u now Hu). cbv zeta.
  rewrite Z.ltb_antisym. destruct (RATE_LIMIT_MAX_REQUESTS <=? _); reflexivity.
Qed.

(** The list of a user after one event. *)
Lemma stored_step (m : gmap string (list Z)) (u : string) (e : Event) :
  u <> EmptyString ->
  stored (step m e) u
  = match e with
    | Req v t =>
        if String.eqb v u && passes m u t then live t (stored m u) ++ [t] else stored m u
    | Sweep t => live t (stored m u)
    end.
Proof.
  intros Hu. destruct e as [v t|t]; cbn [step].
  - destruct (String.eqb_spec v u) as [->|Hv]; cbn [andb].
    + unfold passes. rewrite (rateLimiter_eq m u t Hu). cbv zeta.
      destruct (RATE_LIMIT_MAX_REQUESTS <=? _); cbn [fst snd]; [reflexivity|].
      unfold stored at 1. now rewrite lookup_insert_eq.
    + unfold rateLimiter. destruct (negb (Js.nonempty v)); [reflexivity|].
      destruct (RATE_LIMIT_MAX_REQUESTS <=? _); cbn [snd]; [reflexivity|].
      unfold stored. rewrite lookup_insert_ne; [reflexivity|].
      intros H. apply Hv. now apply key_of_inj.
  - unfold stored, cleanup. rewrite lookup_omap.
    destruct (m !! key_of u) as [l|]; cbn; [|reflexivity].
    unfold live. destruct (List.filter (fresh t) l); reflexivity.
Qed.

(** The entries of a user that are inside the window at [now]: those that
    were so before the events, and the requests that passed. *)
Lemma live_after (evs : list Event) (m : gmap string (list Z)) (u : string) (now : Z) :
  u <> EmptyString ->
  Forall (fun e => time_of e <= now) evs ->
  live now (stored (play m evs) u) = live now (stored m u) ++ live now (passed m u evs).
Proof.
  intros Hu. revert m. induction evs as [|e evs IH]; intros m Hall.
  - cbn. now rewrite app_nil_r.
  - apply Forall_cons in Hall as [He Hall].
    change (play m (e :: evs)) with (play (step m e) evs).
    rewrite (IH (step m e) Hall). cbn [passed]. rewrite live_app, app_assoc. f_equal.
    rewrite (stored_step m u e Hu).
    destruct e as [v t|t]; cbn [time_of] in He.
    + destruct (String.eqb v u && passes m u t).
      * now rewrite live_app, live_live.
      * now rewrite app_nil_r.
    + cbn. now rewrite app_nil_r, live_live.
Qed.

Lemma live_comm (t now : Z) (l : list Z) : live now (live t l) = live t (live now l).
Proof.
  unfold live. induction l as [|x l IH]; [reflexivity|].
  cbn [List.filter].
  destruct (fresh t x) eqn:Ht, (fresh now x) eqn:Hn; cbn [List.filter];
    rewrite ?Ht, ?Hn, IH; reflexivity.
Qed.

(** A user whose entries are all outside the window from [now] on gets as
    many requests through as the limit allows. *)
Lemma room_for_requests (later : list Event) (m : gmap string (list Z)) (u : string)
    (now : Z) (k : nat) :
  u <> EmptyString ->
  (forall T, now <= T -> (List.length (live T (stored m u)) <= k)%nat) ->
  Forall (fun e => now <= time_of e) later ->
  Z.of_nat (k + List.length (requests_of u later)) <= RATE_LIMIT_MAX_REQUESTS ->
  passed m u later = requests_of u later.
Proof.
  intros Hu. revert m k. induction later as [|e later IH]; intros m k Hk Hall Hroom;
    [reflexivity|].
  apply Forall_cons in Hall as [He Hall].
  assert (Hnext : forall k', 
             (forall T, now <= T -> (List.length (live T (stored (step m e) u)) <= k')%nat) ->
             Z.of_nat (k' + List.length (requests_of u later)) <= RATE_LIMIT_MAX_REQUESTS ->
             passed (step m e) u later = requests_of u later)
    by (intros k' H1 H2; exact (IH (step m e) k' H1 Hall H2)).
  destruct e as [v t|t]; cbn [passed requests_of time_of] in *.
  - destruct (String.eqb_spec v u) as [->|Hv]; cbn [andb].
    + cbn [app List.length] in Hroom.
      assert (Hp : passes m u t = true).
      { rewrite (passes_spec m u t Hu). apply Z.ltb_lt.
        specialize (Hk t He). lia. }
      rewrite Hp. cbn [app]. f_equal. apply (Hnext (S k)); [|lia].
      intros T HT. rewrite (stored_step m u (Req u t) Hu), String.eqb_refl, Hp. cbn [andb].
      rewrite live_app, length_app, live_comm.
      pose proof (live_length t (live T (stored m u))).
      pose proof (live_length T [t]). specialize (Hk T HT). cbn [List.length] in *. lia.
    + cbn [app] in *. apply (Hnext k); [|exact Hroom].
      intros T HT. rewrite (stored_step m u (Req v t) Hu).
      rewrite (proj2 (String.eqb_neq v u) Hv). cbn [andb]. now apply Hk.
  - cbn [app]. apply (Hnext k); [|exact Hroom].
    intros T HT. rewrite (stored_step m u (Sweep t) Hu), live_comm.
    pose proof (live_length t (live T (stored m u))). specialize (Hk T HT). lia.
Qed.

Lemma bounded_step (m : gmap string (list Z)) (e : Event) : bounded m -> bounded (step m e).
Proof.
  intros Hm k l. destruct e as [v t|t]; cbn [step].
  - unfold rateLimiter. destruct (negb (Js.nonempty v)); [apply Hm|].
    destruct (RATE_LIMIT_MAX_REQUESTS <=? _) eqn:Hfull; cbn [snd]; [apply Hm|].
    apply Z.leb_gt in Hfull. rewrite lookup_insert.
    destruct (decide ("ratelimit:" +:+ v = k)) as [_|_]; [|apply Hm].
    intros H. inversion H; subst l. rewrite length_app. cbn [List.length]. lia.
  - unfold cleanup. rewrite lookup_omap.
    destruct (m !! k) as [l0|] eqn:Hl0; cbn; [|discriminate].
    pose proof (List.filter_length_le (fresh t) l0) as Hle. specialize (Hm k l0 Hl0).
    destruct (List.filter (fresh t) l0) eqn:Hf; [discriminate|].
    intros H. inversion H; subst l. lia.
Qed.

Lemma bounded_play (evs : list Event) (m : gmap string (list Z)) :
  bounded m -> bounded (play m evs).
Proof.
  revert m. induction evs as [|e evs IH]; intros m Hm; [exact Hm|].
  apply (IH (step m e)), bounded_step, Hm.
Qed.

Lemma bounded_empty : bounded ∅.
Proof. intros k l H. rewrite lookup_empty in H. discriminate. Qed.

Lemma refused_attempts_keep_the_map (ts : list Z) (m : gmap string (list Z)) (u : string) :
  all_refused m u ts -> play m (map (Req u) ts) = m.
Proof.
  revert m. induction ts as [|t ts IH]; intros m H; [reflexivity|].
  destruct H as [[r Hr] Hrest]. cbn [map].
  change (play m (Req u t :: map (Req u) ts)) with (play (step m (Req u t)) (map (Req u) ts)).
  cbn [step].
  assert (Hsame : snd (rateLimiter m (Some u) t) = m).
  { apply (rateLimiter_refusal m _ (Some u) t r).
    destruct (rateLimiter m (Some u) t) as [o m']. cbn in Hr |- *. now subst. }
  rewrite Hsame in *. now apply IH.
Qed.

Lemma Forall_kept (P : Z -> Prop) (f : Z -> bool) (l : list Z) :
  Forall P l -> Forall P (List.filter f l).
Proof.
  induction 1 as [|x l Hx _ IH]; cbn [List.filter]; [constructor|].
  destruct (f x); [constructor|]; assumption.
Qed.

Lemma ascending_kept (f : Z -> bool) (l : list Z) :
  StronglySorted Z.le l -> StronglySorted Z.le (List.filter f l).
Proof.
  induction 1 as [|x l _ IH Hx]; cbn [List.filter]; [constructor|].
  destruct (f x); [|exact IH]. constructor; [exact IH|]. now apply Forall_kept.
Qed.

Lemma ascending_snoc (l : list Z) (t : Z) :
  StronglySorted Z.le l -> Forall (fun x => x <= t) l -> StronglySorted Z.le (l ++ [t]).
Proof.
  induction 1 as [|x l _ IH Hx]; intros Hle; cbn [app].
  - repeat constructor.
  - apply Forall_cons in Hle as [Hxt Hle]. constructor; [now apply IH|].
    apply Forall_app. split; [exact Hx|]. now constructor.
Qed.

Lemma tidy_later (m : gmap string (list Z)) (T T' : Z) : T <= T' -> tidy m T -> tidy m T'.
Proof.
  intros HT Hm k l Hl. destruct (Hm k l Hl) as [Hs Hb]. split; [exact Hs|].
  eapply Forall_impl; [exact Hb|]. cbn. intros. lia.
Qed.

Lemma tidy_step (m : gmap string (list Z)) (T : Z) (e : Event) :
  tidy m T -> T <= time_of e -> tidy (step m e) (time_of e).
Proof.
  intros Hm HT. pose proof (tidy_later m T (time_of e) HT Hm) as Hm'.
  destruct e as [v t|t]; cbn [step time_of] in *.
  - unfold rateLimiter. destruct (negb (Js.nonempty v)); [exact Hm'|].
    destruct (RATE_LIMIT_MAX_REQUESTS <=? _); cbn [snd]; [exact Hm'|].
    intros k l. rewrite lookup_insert.
    destruct (decide ("ratelimit:" +:+ v = k)) as [_|_]; [|apply Hm'].
    intros H. inversion H; subst l. clear H.
    assert (Hold : StronglySorted Z.le (default [] (m !! ("ratelimit:" +:+ v)))
                   /\ Forall (fun x => x <= t) (default [] (m !! ("ratelimit:" +:+ v)))).
    { destruct (m !! ("ratelimit:" +:+ v)) as [l0|] eqn:Hl0; [apply (Hm' _ _ Hl0)|].
      split; constructor. }
    destruct Hold as [Hs Hb]. split.
    + apply ascending_snoc; [now apply ascending_kept | now apply Forall_kept].
    + apply Forall_app. split; [now apply Forall_kept|]. constructor; [lia | constructor].
  - intros k l. unfold cleanup. rewrite lookup_omap.
    destruct (m !! k) as [l0|] eqn:Hl0; cbn; [|discriminate].
    destruct (Hm' k l0 Hl0) as [Hs Hb].
    pose proof (ascending_kept (fresh t) l0 Hs) as Hs'.
    pose proof (Forall_kept (fun x => x <= t) (fresh t) l0 Hb) as Hb'.
    destruct (List.filter (fresh t) l0); [discriminate|].
    intros H. inversion H; subst l. now split.
Qed.

(** When time never goes back, every list is in ascending order: its first
    entry is the oldest. *)
Lemma ascending_play (evs : list Event) (m : gmap string (list Z)) (T : Z) :
  tidy m T -> Forall (fun e => T <= time_of e) evs -> in_order evs ->
  forall k l, play m evs !! k = Some l -> StronglySorted Z.le l.
Proof.
  revert m T. induction evs as [|e evs IH]; intros m T Hm Hafter Hord k l Hl.
  - apply (Hm k l Hl).
  - apply Forall_cons in Hafter as [He Hafter].
    apply StronglySorted_inv in Hord as [Hord Hnext].
    apply (IH (step m e) (time_of e)) with (k := k); trivial.
    now apply tidy_step with (T := T).
Qed.

Lemma tidy_empty (T : Z) : tidy ∅ T.
Proof. intros k l H. rewrite lookup_empty in H. discriminate. Qed.

End Limiter.

(** ** The token of a header *)
Section Token.
Import Auth.

Lemma drop_spaces_app (spaces rest : list ascii) :
  Forall (fun c => is_space c = true) spaces ->
  drop_spaces (spaces ++ rest) = drop_spaces rest.
Proof.
  induction 1 as [|c l Hc _ IH]; [reflexivity|]. cbn [app drop_spaces]. now rewrite Hc.
Qed.

Lemma drop_spaces_text (token : string) :
  begins_with_text token -> drop_spaces (Js.chars token) = Js.chars token.
Proof.
  unfold begins_with_text. destruct (Js.chars token) as [|c l]; [reflexivity|].
  intros Hc. cbn [drop_spaces]. now rewrite Hc.
Qed.

Lemma strip_bearer_scheme (scheme : string) (spaces : list ascii) (token : string) :
  Js.toLowerCase scheme = "bearer" ->
  spaces <> [] ->
  Forall (fun c => is_space c = true) spaces ->
  begins_with_text token ->
  strip_bearer (scheme +:+ string_of_list_ascii spaces +:+ token) = token.
Proof.
  intros Hscheme Hne Hspaces Htoken.
  destruct spaces as [|sp spaces]; [contradiction|].
  apply Forall_cons in Hspaces as [Hsp Hspaces].
  destruct scheme as [|a [|b [|c [|d [|e [|f [|g s]]]]]]]; try discriminate Hscheme.
  unfold strip_bearer.
  change (Js.chars (String a (String b (String c (String d (String e (String f EmptyString)))))
                    +:+ string_of_list_ascii (sp :: spaces) +:+ token))
    with (a :: b :: c :: d :: e :: f :: sp
            :: Js.chars (string_of_list_ascii spaces +:+ token)).
  cbv iota beta.
  change (string_of_list_ascii [a; b; c; d; e; f])
    with (String a (String b (String c (String d (String e (String f EmptyString)))))).
  rewrite Hscheme, Hsp. cbn [String.eqb Ascii.eqb Bool.eqb andb].
  rewrite chars_app. unfold Js.chars at 1. rewrite list_ascii_of_string_of_list_ascii.
  rewrite (drop_spaces_app _ _ Hspaces), (drop_spaces_text _ Htoken).
  apply string_of_list_ascii_of_string.
Qed.

End Token.

(** ** The sliding window *)

(** C7.  Take any history of requests and sweeps since the start of the
    process, none of them later than [now].  If at least ten requests of a
    user passed within the last minute, the request of that user at [now] is
    answered 429 with a retry-after of at least one second, and the map stays
    as it is.  If instead every request of the user that passed lies a minute
    or more back, then of the events that follow, all requests of the user
    pass, as long as there are no more than ten of them. *)
Theorem sliding_window (evs : list Auth.Event) (u : string) (now : Z) :
  u <> EmptyString ->
  Forall (fun e => Auth.time_of e <= now) evs ->
  let m := Auth.play ∅ evs in
  let made := passed ∅ u evs in
  (Auth.RATE_LIMIT_MAX_REQUESTS <= Z.of_nat (List.length (live now made)) ->
   exists retryAfter,
     Auth.rateLimiter m (Some u) now = (Auth.Exceeded (Some retryAfter), m)
     /\ 0 < retryAfter)
  /\ (Forall (fun t => Auth.RATE_LIMIT_WINDOW <= now - t) made ->
      forall later,
        Forall (fun e => now <= Auth.time_of e) later ->
        Z.of_nat (List.length (requests_of u later)) <= Auth.RATE_LIMIT_MAX_REQUESTS ->
        passed m u later = requests_of u later).
Proof.
  intros Hu Hpast m made.
  assert (Hlive : forall T, now <= T -> live T (stored m u) = live T made).
  { intros T HT. subst m made. rewrite (live_after evs ∅ u T Hu).
    - unfold stored at 1. rewrite lookup_empty. reflexivity.
    - eapply Forall_impl; [exact Hpast|]. cbn. intros. lia. }
  split.
  - intros Hfull. rewrite (rateLimiter_eq m u now Hu). cbv zeta.
    rewrite (Hlive now (Z.le_refl now)).
    rewrite (proj2 (Z.leb_le _ _) Hfull).
    destruct (live now made) as [|oldest rest] eqn:Hl.
    + cbn in Hfull. unfold Auth.RATE_LIMIT_MAX_REQUESTS in Hfull. lia.
    + eexists. split; [reflexivity|].
      assert (Hin : In oldest (live now made)) by (rewrite Hl; now left).
      apply List.filter_In in Hin as [_ Hfresh].
      unfold Auth.fresh in Hfresh. apply Z.ltb_lt in Hfresh.
      unfold Auth.ceil_seconds. apply Z.div_str_pos. lia.
  - intros Hold later Hlater Hcount.
    apply (room_for_requests later m u now 0 Hu); [|exact Hlater|exact Hcount].
    intros T HT. rewrite (Hlive T HT), live_none; [reflexivity|].
    eapply Forall_impl; [exact Hold|]. cbn. intros. lia.
Qed.

Lemma sliding_window_witness :
  (exists retryAfter,
     Auth.rateLimiter (Auth.play ∅ (burst "alice" 1000)) (Some "alice") 2000
     = (Auth.Exceeded (Some retryAfter), Auth.play ∅ (burst "alice" 1000))
     /\ 0 < retryAfter)
  /\ passed (Auth.play ∅ (burst "alice" 1000)) "alice" (burst "alice" 61009)
     = requests_of "alice" (burst "alice" 61009).
Proof.
  split.
  - refine (proj1 (sliding_window (burst "alice" 1000) "alice" 2000 _ _) _).
    + discriminate.
    + refine (bool_decide_unpack _ _). vm_compute. exact I.
    + vm_compute. discriminate.
  - refine (proj2 (sliding_window (burst "alice" 1000) "alice" 61009 _ _) _ _ _ _).
    + discriminate.
    + refine (bool_decide_unpack _ _). vm_compute. exact I.
    + refine (bool_decide_unpack _ _). vm_compute. exact I.
    + refine (bool_decide_unpack _ _). vm_compute. exact I.
    + vm_compute. discriminate.
Defined.

(** C9.  A request that is answered 429 leaves the map as it is.  In a map
    reached from the start of the process, let the list of a user begin with
    the timestamp [oldest], which is the oldest of the list when time never
    went back: however many attempts of that user were refused since, the map
    is still the same, and a request at a time when [oldest] has left the
    window passes. *)
Theorem refused_requests_use_no_quota (evs : list Auth.Event) (u : string)
    (attempts : list Z) (now oldest : Z) (rest : list Z) :
  u <> EmptyString ->
  let m := Auth.play ∅ evs in
  m !! key_of u = Some (oldest :: rest) ->
  all_refused m u attempts ->
  Auth.RATE_LIMIT_WINDOW <= now - oldest ->
  (forall m0 userId t retryAfter m1,
     Auth.rateLimiter m0 userId t = (Auth.Exceeded retryAfter, m1) -> m1 = m0)
  /\ (in_order evs -> Forall (fun t => oldest <= t) rest)
  /\ Auth.play m (map (Auth.Req u) attempts) = m
  /\ exists remaining,
       fst (Auth.rateLimiter (Auth.play m (map (Auth.Req u) attempts)) (Some u) now)
       = Auth.Pass remaining.
Proof.
  intros Hu m Hlist Hrefused Hold.
  split; [intros m0 userId t r m1; apply rateLimiter_refusal|].
  split.
  { intros Hord.
    assert (Hmin : exists T, Forall (fun e => T <= Auth.time_of e) evs).
    { clear. induction evs as [|e l [T IH]]; [exists 0; constructor|].
      exists (Z.min T (Auth.time_of e)). constructor; [lia|].
      eapply Forall_impl; [exact IH|]. cbn. intros. lia. }
    destruct Hmin as [T HT].
    pose proof (ascending_play evs ∅ T (tidy_empty T) HT Hord _ _ Hlist) as Hs.
    now apply StronglySorted_inv in Hs as [_ Hs]. }
  pose proof (refused_attempts_keep_the_map attempts m u Hrefused) as Hsame.
  split; [exact Hsame|]. rewrite Hsame.
  rewrite (rateLimiter_eq m u now Hu). cbv zeta.
  assert (Hb : bounded m) by apply bounded_play, bounded_empty.
  specialize (Hb _ _ Hlist). cbn [List.length] in Hb.
  unfold stored. rewrite Hlist. cbn [default].
  assert (Hdrop : live now (oldest :: rest) = live now rest).
  { unfold live. cbn [List.filter].
    destruct (Auth.fresh now oldest) eqn:Hf; [|reflexivity].
    unfold Auth.fresh in Hf. apply Z.ltb_lt in Hf. lia. }
  unfold id. rewrite Hdrop.
  pose proof (live_length now rest) as Hle.
  destruct (Auth.RATE_LIMIT_MAX_REQUESTS <=? _) eqn:Hfull.
  - apply Z.leb_le in Hfull. lia.
  - eexists. reflexivity.
Qed.

Lemma refused_requests_use_no_quota_witness :
  Auth.play (Auth.play ∅ (burst "alice" 1000)) (map (Auth.Req "alice") [1500; 2000; 30000; 60999])
  = Auth.play ∅ (burst "alice" 1000)
  /\ exists remaining,
       fst (Auth.rateLimiter
              (Auth.play (Auth.play ∅ (burst "alice" 1000))
                 (map (Auth.Req "alice") [1500; 2000; 30000; 60999]))
              (Some "alice") 61000)
       = Auth.Pass remaining.
Proof.
  refine (proj2 (proj2 (refused_requests_use_no_quota (burst "alice" 1000) "alice"
                          [1500; 2000; 30000; 60999] 61000 1000
                          [1001; 1002; 1003; 1004; 1005; 1006; 1007; 1008; 1009] _ _ _ _))).
  - discriminate.
  - vm_compute. reflexivity.
  - vm_compute. repeat split; eexists; reflexivity.
  - vm_compute. discriminate.
Defined.

(** ** The gate *)

(** C6.  The token of a header of the bearer scheme is the text after the
    scheme and the white space that follows it.  In production mode a header
    whose token holds a dot is let through, whether or not the token is the
    shared secret, and so is a header whose token is the shared secret; a
    header whose token differs from the shared secret and holds no dot is
    answered 403, and the answer is 403 for no other header.  The same holds
    with the token read off any header by [strip_bearer]. *)
Theorem dotted_token_passes_in_production (cfg : Auth.Config) :
  Auth.NODE_ENV cfg = Some "production" ->
  (forall scheme spaces token,
     bearer scheme spaces token ->
     let authHeader := scheme +:+ string_of_list_ascii spaces +:+ token in
     Auth.strip_bearer authHeader = token
     /\ (Js.includes "." token = true ->
         Auth.authenticateRequest cfg (Some authHeader) = Auth.Next)
     /\ (token = Auth.API_SECRET cfg ->
         Auth.authenticateRequest cfg (Some authHeader) = Auth.Next)
     /\ (token <> Auth.API_SECRET cfg -> Js.includes "." token = false ->
         Auth.authenticateRequest cfg (Some authHeader)
         = Auth.Answer 403 (JObj [("error", JStr "Invalid API key")]))
     /\ ((exists reply,
            Auth.authenticateRequest cfg (Some authHeader) = Auth.Answer 403 reply)
         <-> token <> Auth.API_SECRET cfg /\ Js.includes "." token = false))
  /\ (forall authHeader,
        Js.includes "." (Auth.strip_bearer authHeader) = true ->
        Auth.authenticateRequest cfg (Some authHeader) = Auth.Next)
  /\ (forall authorization,
        (exists reply, Auth.authenticateRequest cfg authorization = Auth.Answer 403 reply)
        <-> exists authHeader,
              authorization = Some authHeader
              /\ authHeader <> EmptyString
              /\ Auth.strip_bearer authHeader <> Auth.API_SECRET cfg
              /\ Js.includes "." (Auth.strip_bearer authHeader) = false).
Proof.
  intros Hprod. split; [|split].
  - intros scheme spaces token (Hscheme & Hne & Hspaces & Htoken) authHeader.
    pose proof (strip_bearer_scheme scheme spaces token Hscheme Hne Hspaces Htoken) as Hstrip.
    fold authHeader in Hstrip.
    assert (Hheader : Js.nonempty authHeader = true).
    { subst authHeader. destruct scheme; [discriminate Hscheme | reflexivity]. }
    assert (Hrun : Auth.authenticateRequest cfg (Some authHeader)
                   = if negb (String.eqb token (Auth.API_SECRET cfg))
                        && negb (Js.includes "." token)
                     then Auth.Answer 403 (JObj [("error", JStr "Invalid API key")])
                     else Auth.Next).
    { unfold Auth.authenticateRequest. rewrite Hheader, Hstrip.
      now rewrite (bool_decide_eq_true_2 _ Hprod). }
    split; [exact Hstrip|]. rewrite Hrun.
    split; [intros Hd; rewrite Hd, andb_false_r; reflexivity|].
    split; [intros He; rewrite (proj2 (String.eqb_eq _ _) He); reflexivity|].
    split; [intros He Hd; rewrite (proj2 (String.eqb_neq _ _) He), Hd; reflexivity|].
    destruct (String.eqb_spec token (Auth.API_SECRET cfg)) as [He|He]; cbn [negb andb].
    + split; [intros [r Hr]; discriminate Hr | intros [H _]; contradiction].
    + destruct (Js.includes "." token); cbn [negb].
      * split; [intros [r Hr]; discriminate Hr | intros [_ H]; discriminate H].
      * split; [intros _; split; [exact He | reflexivity] | intros _; eexists; reflexivity].
  - intros h Hdot. unfold Auth.authenticateRequest.
    destruct (Js.nonempty h) eqn:Hh; cbn [negb].
    + rewrite Hdot, andb_false_r. reflexivity.
    + apply not_true_iff_false in Hh. rewrite nonempty_true in Hh.
      assert (h = EmptyString) as -> by (destruct h; [reflexivity | exfalso; now apply Hh]).
      discriminate.
  - intros authorization. unfold Auth.authenticateRequest.
    destruct authorization as [h|].
    + destruct (Js.nonempty h) eqn:Hh; cbn [negb].
      * apply nonempty_true in Hh.
        rewrite (bool_decide_eq_true_2 _ Hprod). cbn [andb].
        destruct (String.eqb_spec (Auth.strip_bearer h) (Auth.API_SECRET cfg)) as [He|He];
          cbn [negb andb].
        -- split; [intros [r Hr]; discriminate|].
           intros (h' & Hh' & _ & Hne & _). inversion Hh'; subst. contradiction.
        -- destruct (Js.includes "." (Auth.strip_bearer h)) eqn:Hdot; cbn [negb].
           ++ split; [intros [r Hr]; discriminate|].
              intros (h' & Hh' & _ & _ & Hd). inversion Hh'; subst. congruence.
           ++ split; [|eauto]. intros _. exists h. auto.
      * split; [intros [r Hr]; discriminate|].
        intros (h' & Hh' & Hne & _). inversion Hh'; subst.
        apply nonempty_true in Hne. congruence.
    + split; [intros [r Hr]; discriminate|].
      intros (h' & Hh' & _). discriminate.
Qed.

Lemma dotted_token_passes_in_production_witness :
  Auth.authenticateRequest production (Some "Bearer not.the.secret") = Auth.Next
  /\ "not.the.secret" <> Auth.API_SECRET production
  /\ Auth.authenticateRequest production (Some "Bearer s3cret-of-the-relay") = Auth.Next
  /\ Auth.authenticateRequest production (Some "bearer   nodots")
     = Auth.Answer 403 (JObj [("error", JStr "Invalid API key")]).
Proof.
  destruct (dotted_token_passes_in_production production eq_refl) as [Hbearer _].
  assert (Hspace : forall token, begins_with_text token -> bearer "Bearer" [" "%char] token).
  { intros token Ht. split; [reflexivity|]. split; [discriminate|].
    split; [repeat constructor | exact Ht]. }
  destruct (Hbearer "Bearer" [" "%char] "not.the.secret" (Hspace "not.the.secret" eq_refl))
    as (_ & Hdot & _).
  destruct (Hbearer "Bearer" [" "%char] "s3cret-of-the-relay"
              (Hspace "s3cret-of-the-relay" eq_refl)) as (_ & _ & Hsecret & _).
  assert (Hlower : bearer "bearer" [" "; " "; " "]%char "nodots").
  { split; [reflexivity|]. split; [discriminate|]. split; [repeat constructor | reflexivity]. }
  destruct (Hbearer "bearer" [" "; " "; " "]%char "nodots" Hlower) as (_ & _ & _ & Hrefused & _).
  split; [apply Hdot; reflexivity|]. split; [discriminate|].
  split; [apply Hsecret; reflexivity|]. apply Hrefused; [discriminate | reflexivity].
Defined.

(** * Further properties *)

(** ** The gate *)
Section Gate.
Import Auth.

(** X1.  The answer 401 is given exactly to a request without an
    [Authorization] header or with an empty one, in every mode; when
    [NODE_ENV] is not [production], every other request is let through,
    whatever its token. *)
Theorem only_a_missing_header_is_answered_401 (cfg : Config) :
  (forall authorization,
     (exists reply, authenticateRequest cfg authorization = Answer 401 reply)
     <-> authorization = None \/ authorization = Some EmptyString)
  /\ (forall authHeader,
        NODE_ENV cfg <> Some "production" -> authHeader <> EmptyString ->
        authenticateRequest cfg (Some authHeader) = Next).
Proof.
  split.
  - intros [h|]; unfold authenticateRequest.
    + destruct (Js.nonempty h) eqn:Hh; cbn [negb].
      * apply nonempty_true in Hh.
        split.
        -- intros [r Hr]. destruct (_ && _); discriminate.
        -- intros [H|H]; [discriminate | inversion H; contradiction].
      * apply not_true_iff_false in Hh. rewrite nonempty_true in Hh.
        assert (h = EmptyString) as -> by (destruct h; [reflexivity | exfalso; now apply Hh]).
        split; eauto.
    + split; eauto.
  - intros h Hmode Hh. unfold authenticateRequest.
    rewrite (proj2 (nonempty_true h) Hh). cbn [negb].
    now rewrite (bool_decide_eq_false_2 _ Hmode).
Qed.

(** X2.  The scheme of the header is read without regard to case and may be
    followed by any amount of white space: what is compared with the shared
    secret is the text after it.  So in production a header made of the scheme
    and the shared secret is let through. *)
Theorem bearer_header_with_the_secret_passes (cfg : Config) (scheme : string)
    (spaces : list ascii) (token : string) :
  Js.toLowerCase scheme = "bearer" ->
  spaces <> [] ->
  Forall (fun c => is_space c = true) spaces ->
  begins_with_text token ->
  strip_bearer (scheme +:+ string_of_list_ascii spaces +:+ token) = token
  /\ (token = API_SECRET cfg ->
      authenticateRequest cfg (Some (scheme +:+ string_of_list_ascii spaces +:+ token)) = Next).
Proof.
  intros Hscheme Hne Hspaces Htoken.
  pose proof (strip_bearer_scheme scheme spaces token Hscheme Hne Hspaces Htoken) as Hstrip.
  split; [exact Hstrip|]. intros ->.
  unfold authenticateRequest. rewrite Hstrip, String.eqb_refl.
  destruct scheme; [discriminate Hscheme|]. cbn [append Js.nonempty String.eqb negb].
  now rewrite andb_false_r.
Qed.

Lemma bearer_header_with_the_secret_passes_witness :
  strip_bearer "bEaReR   s3cret-of-the-relay" = "s3cret-of-the-relay"
  /\ authenticateRequest production (Some "bEaReR   s3cret-of-the-relay") = Next.
Proof.
  destruct (bearer_header_with_the_secret_passes production "bEaReR" [" "; " "; " "]%char
              "s3cret-of-the-relay") as [H1 H2].
  - reflexivity.
  - discriminate.
  - repeat constructor.
  - reflexivity.
  - split; [exact H1 | exact (H2 eq_refl)].
Defined.

End Gate.

Lemma only_a_missing_header_is_answered_401_witness :
  (exists reply, Auth.authenticateRequest production (Some EmptyString) = Auth.Answer 401 reply)
  /\ Auth.authenticateRequest development (Some "Bearer whatever") = Auth.Next.
Proof.
  destruct (only_a_missing_header_is_answered_401 production) as [H401 _].
  destruct (only_a_missing_header_is_answered_401 development) as [_ Hdev].
  split; [apply H401; now right | apply Hdev; discriminate].
Defined.

(** ** The rate limiter: isolation, ranges and the clean-up *)
Section LimiterMore.
Import Auth.

(** The verdict on a request depends on the map only through the entries of
    the user that are inside the window. *)
Lemma verdict_of_live (m m' : gmap string (list Z)) (u : string) (now : Z) :
  u <> EmptyString ->
  live now (stored m' u) = live now (stored m u) ->
  fst (rateLimiter m' (Some u) now) = fst (rateLimiter m (Some u) now).
Proof.
  intros Hu Hlive. rewrite !(rateLimiter_eq _ u now Hu). cbv zeta. rewrite Hlive.
  destruct (RATE_LIMIT_MAX_REQUESTS <=? _); reflexivity.
Qed.

Lemma live_of_others (evs : list Event) (m : gmap string (list Z)) (u : string) (now : Z) :
  u <> EmptyString ->
  requests_of u evs = [] ->
  swept_by now evs ->
  live now (stored (play m evs) u) = live now (stored m u).
Proof.
  intros Hu. revert m. induction evs as [|e evs IH]; intros m Hnone Hsweeps; [reflexivity|].
  apply Forall_cons in Hsweeps as [He Hsweeps].
  change (play m (e :: evs)) with (play (step m e) evs).
  destruct e as [v t|t]; cbn [requests_of] in Hnone.
  - apply app_eq_nil in Hnone as [Hv Hnone].
    rewrite (IH (step m (Req v t)) Hnone Hsweeps), (stored_step m u (Req v t) Hu).
    destruct (String.eqb v u); [discriminate Hv | reflexivity].
  - rewrite (IH (step m (Sweep t)) Hnone Hsweeps), (stored_step m u (Sweep t) Hu).
    now apply live_live.
Qed.

(** X3.  The limiter keeps the users apart, and the clean-up is not seen:
    whatever the other users send and whenever the timer fired, a request of
    a user gets the verdict it would have got without these events. *)
Theorem verdict_ignores_other_users_and_sweeps (evs : list Event)
    (m : gmap string (list Z)) (u : string) (now : Z) :
  u <> EmptyString ->
  requests_of u evs = [] ->
  swept_by now evs ->
  fst (rateLimiter (play m evs) (Some u) now) = fst (rateLimiter m (Some u) now).
Proof.
  intros Hu Hnone Hsweeps. apply (verdict_of_live _ _ u now Hu).
  now apply live_of_others.
Qed.

Lemma verdict_ignores_other_users_and_sweeps_witness :
  fst (rateLimiter
         (play (play ∅ (burst "alice" 1000))
            (burst "bob" 1500 ++ [Sweep 1600; Req "carol" 1700; Sweep 1800]))
         (Some "alice") 2000)
  = fst (rateLimiter (play ∅ (burst "alice" 1000)) (Some "alice") 2000).
Proof.
  apply (verdict_ignores_other_users_and_sweeps
           (burst "bob" 1500 ++ [Sweep 1600; Req "carol" 1700; Sweep 1800])
           (play ∅ (burst "alice" 1000)) "alice" 2000).
  - discriminate.
  - reflexivity.
  - unfold swept_by, burst. cbn [map seq app].
    repeat (constructor; [first [exact I | lia]|]). constructor.
Defined.

Lemma no_later_step (m : gmap string (list Z)) (T : Z) (e : Event) :
  no_later m T -> time_of e <= T -> no_later (step m e) T.
Proof.
  intros Hm He k l. destruct e as [v t|t]; cbn [step time_of] in *.
  - unfold rateLimiter. destruct (negb (Js.nonempty v)); [apply Hm|].
    destruct (RATE_LIMIT_MAX_REQUESTS <=? _); cbn [snd]; [apply Hm|].
    rewrite lookup_insert.
    destruct (decide ("ratelimit:" +:+ v = k)) as [_|_]; [|apply Hm].
    intros H. inversion H; subst l. clear H.
    apply Forall_app. split; [|constructor; [exact He | constructor]].
    apply Forall_kept.
    destruct (m !! ("ratelimit:" +:+ v)) as [l0|] eqn:Hl0; [apply (Hm _ _ Hl0) | constructor].
  - unfold cleanup. rewrite lookup_omap.
    destruct (m !! k) as [l0|] eqn:Hl0; cbn; [|discriminate].
    pose proof (Forall_kept (fun x => x <= T) (fresh t) l0 (Hm k l0 Hl0)) as Hb.
    destruct (List.filter (fresh t) l0); [discriminate|].
    intros H. inversion H; subst l. exact Hb.
Qed.

Lemma no_later_play (evs : list Event) (m : gmap string (list Z)) (T : Z) :
  no_later m T -> Forall (fun e => time_of e <= T) evs -> no_later (play m evs) T.
Proof.
  revert m. induction evs as [|e evs IH]; intros m Hm Hall; [exact Hm|].
  apply Forall_cons in Hall as [He Hall].
  apply (IH (step m e)); [now apply no_later_step | exact Hall].
Qed.

(** X4.  After any history of requests and sweeps up to [now], a request
    that names a user passes with between 0 and 9 requests remaining, or is
    refused with a number of seconds to wait that lies between 1 and 60. *)
Theorem verdicts_are_in_range (evs : list Event) (u : string) (now : Z) :
  u <> EmptyString ->
  Forall (fun e => time_of e <= now) evs ->
  match fst (rateLimiter (play ∅ evs) (Some u) now) with
  | Pass remaining => 0 <= remaining <= 9
  | Exceeded retryAfter => exists seconds, retryAfter = Some seconds /\ 1 <= seconds <= 60
  | Missing => False
  end.
Proof.
  intros Hu Hpast.
  assert (Hm : no_later (play ∅ evs) now).
  { apply no_later_play; [|exact Hpast]. intros k l H. rewrite lookup_empty in H. discriminate. }
  rewrite (rateLimiter_eq _ u now Hu). cbv zeta.
  assert (Hold : Forall (fun x => x <= now /\ now - x < RATE_LIMIT_WINDOW)
                   (live now (stored (play ∅ evs) u))).
  { apply List.Forall_forall. intros x Hx. apply List.filter_In in Hx as [Hin Hf].
    unfold fresh in Hf. apply Z.ltb_lt in Hf. split; [|exact Hf].
    unfold stored in Hin. destruct (play ∅ evs !! key_of u) as [l|] eqn:Hl; [|destruct Hin].
    pose proof (Hm _ _ Hl) as Hle. rewrite List.Forall_forall in Hle. now apply Hle. }
  destruct (RATE_LIMIT_MAX_REQUESTS <=? _) eqn:Hfull; cbn [fst].
  - apply Z.leb_le in Hfull.
    destruct (live now (stored (play ∅ evs) u)) as [|oldest rest].
    + cbn in Hfull. unfold RATE_LIMIT_MAX_REQUESTS in Hfull. lia.
    + eexists. split; [reflexivity|].
      apply Forall_cons in Hold as [[Hle Hlt] _].
      unfold ceil_seconds, RATE_LIMIT_WINDOW in *. split.
      * apply Z.div_le_lower_bound; lia.
      * enough ((60 * 1000 - (now - oldest) + 999) / 1000 < 61) by lia.
        apply Z.div_lt_upper_bound; lia.
  - apply Z.leb_gt in Hfull. rewrite length_app. cbn [List.length].
    unfold RATE_LIMIT_MAX_REQUESTS in *. lia.
Qed.

Lemma verdicts_are_in_range_witness :
  match fst (rateLimiter (play ∅ (burst "alice" 1000)) (Some "alice") 2000) with
  | Pass remaining => 0 <= remaining <= 9
  | Exceeded retryAfter => exists seconds, retryAfter = Some seconds /\ 1 <= seconds <= 60
  | Missing => False
  end.
Proof.
  apply (verdicts_are_in_range (burst "alice" 1000) "alice" 2000).
  - discriminate.
  - refine (bool_decide_unpack _ _). vm_compute. exact I.
Defined.

End LimiterMore.

Section Sweeps.
Import Auth.

Lemma cleanup_lookup (m : gmap string (list Z)) (t : Z) (k : string) :
  cleanup m t !! k
  = match m !! k with
    | Some l0 => match live t l0 with [] => None | l => Some l end
    | None => None
    end.
Proof. unfold cleanup. rewrite lookup_omap. destruct (m !! k); reflexivity. Qed.

(** X5.  What the clean-up leaves: under each key the entries that are
    inside the window, in their order, and no key whose entries have all
    expired.  A clean-up followed by a later one leaves what the later one
    alone would leave; so running it twice at one time changes nothing. *)
Theorem sweep_keeps_the_live_entries (m : gmap string (list Z)) (t : Z) :
  (forall k l,
     cleanup m t !! k = Some l
     <-> l <> [] /\ exists l0, m !! k = Some l0 /\ l = live t l0)
  /\ (forall t', t <= t' -> cleanup (cleanup m t) t' = cleanup m t').
Proof.
  split.
  - intros k l. rewrite cleanup_lookup. destruct (m !! k) as [l0|].
    + destruct (live t l0) as [|x rest] eqn:Hlive.
      * split; [discriminate|]. intros [Hne (l1 & Hl1 & ->)].
        inversion Hl1; subst l1. now rewrite Hlive in Hne.
      * split.
        -- intros H. inversion H; subst l. split; [discriminate|]. now exists l0.
        -- intros [_ (l1 & Hl1 & ->)]. inversion Hl1; subst l1. now rewrite Hlive.
    + split; [discriminate|]. intros [_ (l1 & Hl1 & _)]. discriminate.
  - intros t' Ht. apply map_eq. intros k. rewrite !cleanup_lookup.
    destruct (m !! k) as [l0|]; [|reflexivity].
    rewrite <- (live_live t t' l0 Ht).
    destruct (live t l0) as [|x rest]; reflexivity.
Qed.

Lemma stocked_step (m : gmap string (list Z)) (e : Event) : stocked m -> stocked (step m e).
Proof.
  intros Hm k l. destruct e as [v t|t]; cbn [step].
  - unfold rateLimiter. destruct (negb (Js.nonempty v)); [apply Hm|].
    destruct (RATE_LIMIT_MAX_REQUESTS <=? _); cbn [snd]; [apply Hm|].
    rewrite lookup_insert.
    destruct (decide ("ratelimit:" +:+ v = k)) as [_|_]; [|apply Hm].
    intros H. inversion H. now destruct (List.filter (fresh t) _).
  - rewrite cleanup_lookup. destruct (m !! k) as [l0|]; [|discriminate].
    destruct (live t l0); [discriminate|]. intros H. inversion H. discriminate.
Qed.

Lemma stocked_play (evs : list Event) (m : gmap string (list Z)) :
  stocked m -> stocked (play m evs).
Proof.
  revert m. induction evs as [|e evs IH]; intros m Hm; [exact Hm|].
  apply (IH (step m e)), stocked_step, Hm.
Qed.

(** X6.  Whatever requests and sweeps the process has seen, in whatever
    order and at whatever times, a list of its map holds at least one and at
    most ten timestamps. *)
Theorem stored_lists_hold_one_to_ten_entries (evs : list Event) (k : string) (l : list Z) :
  play ∅ evs !! k = Some l -> (1 <= List.length l <= 10)%nat.
Proof.
  intros Hl.
  assert (Hs : stocked (play ∅ evs)).
  { apply stocked_play. intros k' l' H. rewrite lookup_empty in H. discriminate. }
  pose proof (bounded_play evs ∅ bounded_empty k l Hl) as Hb.
  specialize (Hs k l Hl). unfold RATE_LIMIT_MAX_REQUESTS in Hb.
  destruct l; [contradiction|]. cbn [List.length] in *. lia.
Qed.

Lemma stored_lists_hold_one_to_ten_entries_witness :
  (1 <= List.length [70001; 70002; 70003]%Z <= 10)%nat.
Proof.
  apply (stored_lists_hold_one_to_ten_entries
           (burst "alice" 1000 ++ [Req "alice" 1500; Sweep 70000; Req "alice" 70001;
                                    Req "alice" 70002; Req "alice" 70003])
           "ratelimit:alice").
  vm_compute. reflexivity.
Defined.

End Sweeps.

Lemma sweep_keeps_the_live_entries_witness :
  Auth.cleanup (Auth.play ∅ (burst "alice" 1000 ++ burst "bob" 50000)) 61005
    !! "ratelimit:alice" = Some [1006; 1007; 1008; 1009]
  /\ Auth.cleanup (Auth.cleanup (Auth.play ∅ (burst "alice" 1000 ++ burst "bob" 50000)) 61005)
       120000
     = Auth.cleanup (Auth.play ∅ (burst "alice" 1000 ++ burst "bob" 50000)) 120000.
Proof.
  destruct (sweep_keeps_the_live_entries
              (Auth.play ∅ (burst "alice" 1000 ++ burst "bob" 50000)) 61005) as [Hkeeps Hlater].
  split.
  - apply Hkeeps. split; [discriminate|].
    exists [1000; 1001; 1002; 1003; 1004; 1005; 1006; 1007; 1008; 1009].
    split; vm_compute; reflexivity.
  - apply Hlater. lia.
Defined.

(** ** Keys and signatures *)
Section KeysMore.

Lemma triples_ind (P : list Z -> Prop) :
  P [] -> (forall a, P [a]) -> (forall a b, P [a; b]) ->
  (forall a b c r, P r -> P (a :: b :: c :: r)) ->
  forall l, P l.
Proof.
  intros H0 H1 H2 H3 l.
  enough (H : P l /\ (forall a, P (a :: l)) /\ (forall a b, P (a :: b :: l))) by apply H.
  induction l as [|x l (IH0 & IH1 & IH2)]; repeat split; auto.
Qed.

Lemma digit_read (v : Z) :
  0 <= v < 64 ->
  Base64.sextet (Base64.digit v) = Some v
  /\ Ascii.eqb (Base64.digit v) "=" = false.
Proof.
  intros Hv.
  assert (Hall : forallb (fun n =>
                    bool_decide (Base64.sextet (Base64.digit (Z.of_nat n)) = Some (Z.of_nat n))
                    && negb (Ascii.eqb (Base64.digit (Z.of_nat n)) "="))
                   (seq 0 64) = true) by (vm_compute; reflexivity).
  rewrite forallb_forall in Hall.
  specialize (Hall (Z.to_nat v)). rewrite Z2Nat.id in Hall by lia.
  assert (Hin : In (Z.to_nat v) (seq 0 64)) by (apply in_seq; lia).
  apply Hall, andb_true_iff in Hin as [H1 H2].
  split; [now apply bool_decide_eq_true in H1 | now apply negb_true_iff in H2].
Qed.

Lemma sextets_digit (v : Z) (r : list ascii) :
  0 <= v < 64 -> Base64.sextets (Base64.digit v :: r) = v :: Base64.sextets r.
Proof.
  intros Hv. destruct (digit_read v Hv) as [H1 H2]. cbn [Base64.sextets]. now rewrite H2, H1.
Qed.

(** The digits of a byte string: ranges of the four values a triple gives. *)
Lemma quarters (a b c : Z) :
  is_byte a -> is_byte b -> is_byte c ->
  0 <= a / 4 < 64 /\ 0 <= (a mod 4) * 16 + b / 16 < 64
  /\ 0 <= (b mod 16) * 4 + c / 64 < 64 /\ 0 <= c mod 64 < 64
  /\ 0 <= (a mod 4) * 16 < 64 /\ 0 <= (b mod 16) * 4 < 64.
Proof. unfold is_byte. intros. Z.to_euclidean_division_equations. lia. Qed.

Lemma decode_encode_chars (l : list Z) :
  Forall is_byte l -> Base64.bytes_of_sextets (Base64.sextets (Base64.encode_chars l)) = l.
Proof.
  induction l as [|a|a b|a b c r IH] using triples_ind; intros Hl.
  - reflexivity.
  - apply Forall_cons in Hl as [Ha _].
    destruct (quarters a 0 0 Ha) as (H1 & _ & _ & _ & H2 & _); [unfold is_byte; lia..|].
    cbn [Base64.encode_chars]. rewrite !sextets_digit by assumption.
    cbn [Base64.sextets Ascii.eqb Bool.eqb Base64.bytes_of_sextets]. f_equal.
    unfold is_byte in Ha. Z.to_euclidean_division_equations. lia.
  - apply Forall_cons in Hl as [Ha Hl]. apply Forall_cons in Hl as [Hb _].
    destruct (quarters a b 0 Ha Hb) as (H1 & H2 & _ & _ & _ & H3); [unfold is_byte; lia|].
    cbn [Base64.encode_chars]. rewrite !sextets_digit by assumption.
    cbn [Base64.sextets Ascii.eqb Bool.eqb Base64.bytes_of_sextets]. cbv zeta.
    unfold is_byte in Ha, Hb.
    f_equal; [|f_equal]; Z.to_euclidean_division_equations; lia.
  - apply Forall_cons in Hl as [Ha Hl]. apply Forall_cons in Hl as [Hb Hl].
    apply Forall_cons in Hl as [Hc Hl].
    destruct (quarters a b c Ha Hb Hc) as (H1 & H2 & H3 & H4 & _ & _).
    change (Base64.encode_chars (a :: b :: c :: r))
      with (Base64.digit (a / 4) :: Base64.digit ((a mod 4) * 16 + b / 16)
            :: Base64.digit ((b mod 16) * 4 + c / 64) :: Base64.digit (c mod 64)
            :: Base64.encode_chars r).
    rewrite !sextets_digit by assumption.
    cbn [Base64.bytes_of_sextets]. cbv zeta. rewrite (IH Hl).
    unfold is_byte in Ha, Hb, Hc.
    f_equal; [|f_equal; [|f_equal]]; Z.to_euclidean_division_equations; lia.
Qed.

(** The text of a byte string: digits, then nothing, one [=] or two. *)
Lemma encode_chars_shape (l : list Z) :
  Forall is_byte l ->
  exists digits pad,
    Base64.encode_chars l = digits ++ pad
    /\ Forall (fun c => Base64.is_std_digit c = true) digits
    /\ (pad = [] \/ pad = ["="%char] \/ pad = ["="%char; "="%char])
    /\ (l <> [] -> digits <> []).
Proof.
  induction l as [|a|a b|a b c r IH] using triples_ind; intros Hl.
  - exists [], []. split; [reflexivity|]. split; [constructor|]. split; [now left|]. 
    intros H. now destruct H.
  - apply Forall_cons in Hl as [Ha _].
    destruct (quarters a 0 0 Ha) as (H1 & _ & _ & _ & H2 & _); [unfold is_byte; lia..|].
    exists [Base64.digit (a / 4); Base64.digit ((a mod 4) * 16)], ["="%char; "="%char].
    split; [reflexivity|]. split; [|split; [auto | discriminate]].
    repeat constructor; apply digit_std; assumption.
  - apply Forall_cons in Hl as [Ha Hl]. apply Forall_cons in Hl as [Hb _].
    destruct (quarters a b 0 Ha Hb) as (H1 & H2 & _ & _ & _ & H3); [unfold is_byte; lia|].
    exists [Base64.digit (a / 4); Base64.digit ((a mod 4) * 16 + b / 16);
            Base64.digit ((b mod 16) * 4)], ["="%char].
    split; [reflexivity|]. split; [|split; [auto | discriminate]].
    repeat constructor; apply digit_std; assumption.
  - apply Forall_cons in Hl as [Ha Hl]. apply Forall_cons in Hl as [Hb Hl].
    apply Forall_cons in Hl as [Hc Hl].
    destruct (quarters a b c Ha Hb Hc) as (H1 & H2 & H3 & H4 & _ & _).
    destruct (IH Hl) as (digits & pad & Heq & Hstd & Hpad & _).
    exists (Base64.digit (a / 4) :: Base64.digit ((a mod 4) * 16 + b / 16)
            :: Base64.digit ((b mod 16) * 4 + c / 64) :: Base64.digit (c mod 64) :: digits), pad.
    split; [|split; [|split; [exact Hpad | discriminate]]].
    + change (Base64.encode_chars (a :: b :: c :: r))
        with (Base64.digit (a / 4) :: Base64.digit ((a mod 4) * 16 + b / 16)
              :: Base64.digit ((b mod 16) * 4 + c / 64) :: Base64.digit (c mod 64)
              :: Base64.encode_chars r).
      now rewrite Heq.
    + repeat (apply Forall_cons; split); trivial; apply digit_std; assumption.
Qed.

Lemma isB64_encode (bytes : list Z) :
  bytes <> [] -> Forall is_byte bytes -> Server.isB64 (Base64.encode bytes) = true.
Proof.
  intros Hne Hl. unfold Server.isB64, Base64.encode, Js.chars.
  rewrite list_ascii_of_string_of_list_ascii.
  destruct (encode_chars_shape bytes Hl) as (digits & pad & -> & Hstd & Hpad & Hd).
  destruct digits as [|c digits]; [now destruct (Hd Hne)|].
  apply Forall_cons in Hstd as [Hc Hstd]. cbn [app]. rewrite Hc, (drop_digits_app _ _ Hstd).
  destruct Hpad as [->| [->| ->]]; reflexivity.
Qed.

Lemma encode_chars_longer (l : list Z) :
  (List.length l + match l with [] => 0 | _ => 1 end <= List.length (Base64.encode_chars l))%nat.
Proof.
  induction l as [|a|a b|a b c r IH] using triples_ind; cbn [List.length Base64.encode_chars];
    lia.
Qed.

Lemma utf8_length (s : string) : (List.length (Js.chars s) <= List.length (Js.utf8 s))%nat.
Proof.
  unfold Js.utf8. induction (Js.chars s) as [|c l IH]; [reflexivity|].
  cbn [flat_map List.length]. rewrite length_app.
  assert (1 <= List.length (Js.utf8_char c))%nat; [|lia].
  unfold Js.utf8_char. destruct (Js.code c <? 128); cbn [List.length]; lia.
Qed.

Lemma chars_encode (bytes : list Z) :
  Js.chars (Base64.encode bytes) = Base64.encode_chars bytes.
Proof. apply list_ascii_of_string_of_list_ascii. Qed.

Lemma server_key_encode (bytes : list Z) :
  bytes <> [] -> Forall is_byte bytes -> Server.hmac_key (Base64.encode bytes) = bytes.
Proof.
  intros Hne Hl. unfold Server.hmac_key. rewrite (isB64_encode bytes Hne Hl).
  unfold Base64.decode. rewrite chars_encode. now apply decode_encode_chars.
Qed.

(** X7.  [hmacB64] of [src/server.js] signs with the bytes a base64 secret
    stands for: the padded standard base64 text of a byte string that is not
    empty matches the pattern of [isB64], and the key made of it is that byte
    string. *)
Theorem server_key_is_the_decoded_secret (bytes : list Z) :
  bytes <> [] -> Forall is_byte bytes ->
  Server.isB64 (Base64.encode bytes) = true
  /\ Server.hmac_key (Base64.encode bytes) = bytes.
Proof.
  intros Hne Hl. split; [now apply isB64_encode | now apply server_key_encode].
Qed.

Lemma server_key_is_the_decoded_secret_witness :
  Server.isB64 "c2VjcmV0LWJ5dGU=" = true
  /\ Server.hmac_key "c2VjcmV0LWJ5dGU=" = Js.utf8 "secret-byte".
Proof.
  apply (server_key_is_the_decoded_secret (Js.utf8 "secret-byte")).
  - discriminate.
  - refine (bool_decide_unpack _ _). vm_compute. exact I.
Defined.

(** X8.  [hmacBase64] of [src/utils/hmac.js] does not decode: for the
    base64 text of a byte string that is not empty its key is the text
    itself, one byte for each character, which is longer than the byte string
    and so is not the key [hmacB64] of [src/server.js] makes of the same
    secret. *)
Theorem hmac_js_signs_with_the_text_of_the_secret (bytes : list Z) :
  bytes <> [] -> Forall is_byte bytes ->
  Hmac.hmac_key (Base64.encode bytes) = Js.utf8 (Base64.encode bytes)
  /\ (List.length bytes < List.length (Hmac.hmac_key (Base64.encode bytes)))%nat
  /\ Hmac.hmac_key (Base64.encode bytes) <> Server.hmac_key (Base64.encode bytes).
Proof.
  intros Hne Hl.
  pose proof (isB64_encode bytes Hne Hl) as Hb.
  pose proof (isB64_not_url (Base64.encode bytes)) as Hurl.
  rewrite Hb in Hurl. cbn [andb] in Hurl. apply orb_false_iff in Hurl as [H1 H2].
  assert (Hkey : Hmac.hmac_key (Base64.encode bytes) = Js.utf8 (Base64.encode bytes)).
  { unfold Hmac.hmac_key. now rewrite (normalizedSecret_fixed _ H1 H2). }
  assert (Hlen : (List.length bytes < List.length (Hmac.hmac_key (Base64.encode bytes)))%nat).
  { rewrite Hkey. pose proof (utf8_length (Base64.encode bytes)) as Hu.
    rewrite chars_encode in Hu.
    pose proof (encode_chars_longer bytes) as He.
    destruct bytes; [contradiction|]. lia. }
  repeat split; trivial.
  rewrite (server_key_encode bytes Hne Hl).
  intros Heq. rewrite Heq in Hlen. lia.
Qed.

Lemma hmac_js_signs_with_the_text_of_the_secret_witness :
  Hmac.hmac_key "c2VjcmV0LWJ5dGU=" = Js.utf8 "c2VjcmV0LWJ5dGU="
  /\ (List.length (Js.utf8 "secret-byte") < List.length (Hmac.hmac_key "c2VjcmV0LWJ5dGU="))%nat
  /\ Hmac.hmac_key "c2VjcmV0LWJ5dGU=" <> Server.hmac_key "c2VjcmV0LWJ5dGU=".
Proof.
  apply (hmac_js_signs_with_the_text_of_the_secret (Js.utf8 "secret-byte")).
  - discriminate.
  - refine (bool_decide_unpack _ _). vm_compute. exact I.
Defined.

(** X9.  On a secret that does not match the base64 pattern and holds no
    [-] and no [_], the two signing functions of the repository agree: they
    give the same signature for every message. *)
Theorem signers_agree_on_a_plain_secret (secret message : string) :
  Server.isB64 secret = false ->
  Js.includes "-" secret = false -> Js.includes "_" secret = false ->
  Hmac.hmacBase64 secret message = Server.hmacB64 secret message.
Proof.
  intros Hb H1 H2. unfold Hmac.hmacBase64, Server.hmacB64, Hmac.hmac_key, Server.hmac_key.
  now rewrite Hb, (normalizedSecret_fixed secret H1 H2).
Qed.

Lemma signers_agree_on_a_plain_secret_witness :
  Hmac.hmacBase64 "s3cret!" "GET/auth/api-keys1700000000"
  = Server.hmacB64 "s3cret!" "GET/auth/api-keys1700000000".
Proof. apply signers_agree_on_a_plain_secret; reflexivity. Defined.

(** X10.  [isValidSignature] tests that a text is not empty and nothing
    more.  Every signature [generateSignature] makes passes it, and so does
    every signature of [hmacB64]. *)
Theorem every_signature_made_is_valid :
  (forall signature, Hmac.isValidSignature signature = true <-> signature <> EmptyString)
  /\ (forall secret method path timestamp body,
        Hmac.isValidSignature (Hmac.generateSignature secret method path timestamp body) = true)
  /\ (forall secret pre, Hmac.isValidSignature (Server.hmacB64 secret pre) = true).
Proof.
  assert (H : forall key msg,
             Hmac.isValidSignature (Base64.encode (Crypto.hmac_sha256 key msg)) = true).
  { intros key msg. destruct (digest_base64 key msg) as (digits & Heq & Hlen & _).
    unfold Hmac.isValidSignature. apply nonempty_true. intros He. rewrite He in Heq.
    destruct digits; discriminate. }
  split; [intros s; apply nonempty_true|]. split; intros; apply H.
Qed.

End KeysMore.

(** ** Trades: what is sent, how long it takes, what a failure reports *)
Section TradesMore.
Import Json Net Polymarket.
Variable env : Env.

Lemma attempt_status (out : FetchOutcome) :
  match out with
  | Rejects _ => status (attempt_of out) = 500
  | Resolves r => status (attempt_of out) = Net.status r \/ status (attempt_of out) = 500
  end.
Proof.
  destruct out as [e|r]; [reflexivity|]. unfold attempt_of.
  destruct (payload r) as [e|t p]; [now right|].
  destruct (ok r); [now left|]. destruct (body_value t p); auto.
Qed.

Lemma or_string_truthy (v : jsval) (s : string) :
  s <> EmptyString -> truthy (or_string v s) = true.
Proof.
  intros Hs. unfold or_string. destruct v as [j|]; [|now apply truthy_string].
  destruct (truthy j) eqn:Hj; [exact Hj | now apply truthy_string].
Qed.

Lemma conclude_report (a : Attempt) (who : Identity) :
  match conclude a who with
  | Placed orderId who' => truthy orderId = true /\ who' = who
  | Failed error st who' => truthy error = true /\ st = status a /\ who' = who
  end.
Proof.
  unfold conclude.
  assert (Ht : truthy (or_string (error a) "Trade failed") = true)
    by (apply or_string_truthy; discriminate).
  destruct (opt_prop "orderID" (data a)) as [orderID|]; [|auto].
  destruct (success a && truthy orderID) eqn:Hs; [|auto].
  apply andb_true_iff in Hs as [_ Hs]. auto.
Qed.

(** X11.  A refusal whose body is the JSON value [null] counts as a failure
    of the attempt itself: reading the error of the body throws, the attempt
    reports the status 500 instead of the status of the exchange, and so even
    a 403 is not tried again with the funder address. *)
Theorem refusal_with_a_null_body_is_not_retried
    (w : World) (credentials : Credentials) (signedOrder : json)
    (ownerAddress : string) (funderAddress : option string) (r : Response) (t : string) :
  let req := order_request ownerAddress (api_key credentials) (secret credentials)
               (passphrase credentials) signedOrder (clock env (reads w)) in
  upstream env (sent w) req = Resolves r ->
  ok r = false ->
  payload r = BodyText t (Parsed JNull) ->
  executeTrade credentials signedOrder ownerAddress funderAddress env w
  = (Ok (Failed (JStr (null_read "error")) 500 owner), after_attempt w req).
Proof.
  intros req Hup Hok Hbody. rewrite executeTrade_run. fold req. rewrite Hup.
  assert (Ha : attempt_of (Resolves r) = thrown (null_read "error")).
  { unfold attempt_of. now rewrite Hbody, Hok. }
  rewrite Ha. cbn [status thrown].
  assert (Hno : retry_with 500 ownerAddress funderAddress = None).
  { unfold retry_with. now destruct funderAddress. }
  rewrite Hno. reflexivity.
Qed.

(** X12.  [executeTrade] sends one request or two and reads the clock once
    for each; it waits, 350 milliseconds, exactly when it sends the second
    one, and then the result is the one of the funder address. *)
Theorem a_trade_waits_only_before_its_retry
    (w : World) (credentials : Credentials) (signedOrder : json)
    (ownerAddress : string) (funderAddress : option string) :
  exists result w',
    executeTrade credentials signedOrder ownerAddress funderAddress env w = (Ok result, w')
    /\ ((attemptedWith result = owner
         /\ List.length (sent w') = S (List.length (sent w))
         /\ reads w' = S (reads w)
         /\ waited w' = waited w)
        \/ (attemptedWith result = funder
            /\ List.length (sent w') = S (S (List.length (sent w)))
            /\ reads w' = S (S (reads w))
            /\ waited w' = waited w + 350)).
Proof.
  rewrite executeTrade_run.
  destruct (retry_with _ ownerAddress funderAddress) as [f|]; eexists; eexists;
    (split; [reflexivity|]); [right | left]; rewrite conclude_who;
    cbn [after_attempt after_sleep sent reads waited]; rewrite !length_app;
    cbn [List.length]; repeat split; lia.
Qed.

(** X13.  A trade that fails always names an error that is truthy, and
    its status is the status the exchange gave to the last request, or 500;
    it is 500 when that request failed in the transport. *)
Theorem a_failed_trade_reports_an_error
    (w : World) (credentials : Credentials) (signedOrder : json)
    (ownerAddress : string) (funderAddress : option string) :
  exists result w' earlier last,
    executeTrade credentials signedOrder ownerAddress funderAddress env w = (Ok result, w')
    /\ sent w' = earlier ++ [last]
    /\ match result with
       | Placed orderId _ => truthy orderId = true
       | Failed error st _ =>
           truthy error = true
           /\ match upstream env earlier last with
              | Rejects _ => st = 500
              | Resolves r => st = Net.status r \/ st = 500
              end
       end.
Proof.
  rewrite executeTrade_run.
  destruct (retry_with _ ownerAddress funderAddress) as [f|].
  - match goal with
    | |- context [after_attempt (after_sleep (after_attempt w ?r1)) ?r2] =>
        generalize r1 r2; intros req1 req2
    end.
    remember (upstream env (sent w ++ [req1]) req2) as out eqn:Hout.
    exists (conclude (attempt_of out) funder),
      (after_attempt (after_sleep (after_attempt w req1)) req2), (sent w ++ [req1]), req2.
    split; [reflexivity|]. split; [reflexivity|]. rewrite <- Hout.
    pose proof (conclude_report (attempt_of out) funder) as Hc.
    pose proof (attempt_status out) as Hs.
    destruct (conclude (attempt_of out) funder) as [orderId who'|error st who'];
      [apply Hc|]. destruct Hc as (Ht & -> & _). split; [exact Ht|].
    destruct out; exact Hs.
  - match goal with
    | |- context [after_attempt w ?r1] => generalize r1; intros req1
    end.
    remember (upstream env (sent w) req1) as out eqn:Hout.
    exists (conclude (attempt_of out) owner), (after_attempt w req1), (sent w), req1.
    split; [reflexivity|]. split; [reflexivity|]. rewrite <- Hout.
    pose proof (conclude_report (attempt_of out) owner) as Hc.
    pose proof (attempt_status out) as Hs.
    destruct (conclude (attempt_of out) owner) as [orderId who'|error st who'];
      [apply Hc|]. destruct Hc as (Ht & -> & _). split; [exact Ht|].
    destruct out; exact Hs.
Qed.

End TradesMore.

Lemma refusal_with_a_null_body_is_not_retried_witness :
  fst (Polymarket.executeTrade some_credentials some_order "0xAA" (Some "0xBB")
         blocking_with_null Net.start)
  = Net.Ok (Polymarket.Failed (JStr "Cannot read properties of null (reading 'error')") 500
              Polymarket.owner).
Proof.
  rewrite (refusal_with_a_null_body_is_not_retried blocking_with_null Net.start
             some_credentials some_order "0xAA" (Some "0xBB")
             {| Net.status := 403; Net.payload := json_body JNull |} "null");
    reflexivity.
Defined.

(** ** The handlers of [server.js]: what they send *)
Section HandlersMore.
Import Json Net Server.
Variable env : Env.
Variable cfg : Config.

(** Case analysis on what the next [match] of the goal looks at. *)
Ltac branch :=
  match goal with
  | |- context [match ?x with _ => _ end] =>
      lazymatch x with
      | context [match _ with _ => _ end] => fail
      | _ => destruct x eqn:?
      end
  end.

(** X14.  What decides whether the exchange is asked.  Without the relay
    key each of the three handlers answers 401 and nothing happens: nothing is
    sent, the clock is not read, the store stays as it is.  With the key, the
    sanity handler and the order handler answer 400 when the store has no row
    for the address, a request without address being looked up under the empty
    address, and the order handler answers 500 when its body is no JSON; in
    these cases too nothing is sent.  In the one case left, a row is there:
    the clock is read once and one request is sent, made of that row. *)
Theorem the_exchange_is_asked_only_with_the_key_and_a_row (STORE : gmap string Row)
    (relay_key : option string) (w : World) :
  (forall body,
     okRelay cfg relay_key = false ->
     auth_create cfg STORE relay_key body env w = (Ok (Replied unauthorized, STORE), w))
  /\ (forall address,
        let eoa := default EmptyString address in
        exists reply w',
          l2_sanity cfg STORE relay_key address env w = (Ok reply, w')
          /\ match okRelay cfg relay_key, STORE !! rowKey cfg eoa with
             | false, _ => reply = unauthorized /\ w' = w
             | true, None => reply = no_creds /\ w' = w
             | true, Some row =>
                 w' = after_request w
                        (sanity_request eoa row (Js.of_int (clock env (reads w) / 1000)))
             end)
  /\ (forall body parsed,
        exists reply w',
          order cfg STORE relay_key body parsed env w = (Ok reply, w')
          /\ match okRelay cfg relay_key, parsed with
             | false, _ => reply = unauthorized /\ w' = w
             | true, BadJson e => reply = crash e /\ w' = w
             | true, Fields address =>
                 let eoa := default EmptyString address in
                 match STORE !! rowKey cfg eoa with
                 | None => reply = no_creds /\ w' = w
                 | Some row =>
                     w' = after_request w
                            (order_request eoa row (Js.of_int (clock env (reads w) / 1000))
                               body)
                 end
             end).
Proof.
  split; [|split].
  - intros body Hkey. unfold auth_create. now rewrite Hkey.
  - intros address eoa. destruct (okRelay cfg relay_key) eqn:Hkey.
    + destruct (STORE !! rowKey cfg eoa) as [row|] eqn:Hrow.
      * destruct (l2_sanity_sends env cfg STORE relay_key address row w Hkey Hrow)
          as (reply & Hrun).
        exists reply. eexists. split; [exact Hrun | reflexivity].
      * exists no_creds, w. split; [|now split].
        unfold l2_sanity, try_catch, ret. rewrite Hkey. cbn [negb]. fold eoa.
        now rewrite Hrow.
    + exists unauthorized, w. split; [|now split]. unfold l2_sanity. now rewrite Hkey.
  - intros body parsed. destruct (okRelay cfg relay_key) eqn:Hkey.
    + destruct parsed as [e|address].
      * exists (crash e), w. split; [|now split]. unfold order. now rewrite Hkey.
      * cbv zeta. destruct (STORE !! rowKey cfg (default EmptyString address)) as [row|] eqn:Hrow.
        -- destruct (order_sends_row env cfg STORE relay_key body address row w Hkey Hrow)
             as (reply & Hrun).
           exists reply. eexists. split; [exact Hrun | reflexivity].
        -- exists no_creds, w. split; [|now split].
           unfold order, try_catch, bind, ret. rewrite Hkey. cbn [negb]. now rewrite Hrow.
    + exists unauthorized, w. split; [|now split]. unfold order. now rewrite Hkey.
Qed.

(** X15.  What one request to the relay costs the exchange: [auth-create]
    sends at most three requests, the sanity handler and the order handler at
    most one; each of the handlers returns, reads the clock at most once and
    never waits. *)
Theorem handlers_send_a_bounded_number_of_requests (STORE : gmap string Row)
    (relay_key : option string) (w : World) :
  (forall body,
     exists out STORE' w' requests,
       auth_create cfg STORE relay_key body env w = (Ok (out, STORE'), w')
       /\ sent w' = sent w ++ requests /\ (List.length requests <= 3)%nat
       /\ (reads w' <= S (reads w))%nat /\ waited w' = waited w)
  /\ (forall address,
        exists reply w' requests,
          l2_sanity cfg STORE relay_key address env w = (Ok reply, w')
          /\ sent w' = sent w ++ requests /\ (List.length requests <= 1)%nat
          /\ (reads w' <= S (reads w))%nat /\ waited w' = waited w)
  /\ (forall body parsed,
        exists reply w' requests,
          order cfg STORE relay_key body parsed env w = (Ok reply, w')
          /\ sent w' = sent w ++ requests /\ (List.length requests <= 1)%nat
          /\ (reads w' <= S (reads w))%nat /\ waited w' = waited w).
Proof.
  split; [|split].
  - intros body. unfold auth_create.
    destruct (negb (okRelay cfg relay_key)).
    { unfold ret. exists (Replied unauthorized), STORE, w, [].
      rewrite app_nil_r. repeat split; cbn; lia. }
    unfold tsSec, text_or_json, text_of. unfold try_catch, bind, fetch, now, ret, throw.
    repeat branch.
    all: do 4 eexists; (split; [reflexivity|]); cbn [sent reads waited].
    all: (split; [first [ symmetry; apply app_nil_r
                        | rewrite <- ?app_assoc; reflexivity ]|]).
    all: cbn [List.length app]; repeat split; lia.
  - intros address. unfold l2_sanity.
    destruct (negb (okRelay cfg relay_key)).
    { unfold ret. exists unauthorized, w, []. rewrite app_nil_r. repeat split; cbn; lia. }
    unfold tsSec, text_or_json, text_of. unfold try_catch, bind, fetch, now, ret, throw.
    repeat branch.
    all: do 3 eexists; (split; [reflexivity|]); cbn [sent reads waited].
    all: (split; [first [ symmetry; apply app_nil_r | reflexivity ]|]).
    all: cbn [List.length app]; repeat split; lia.
  - intros body parsed. unfold order.
    destruct (negb (okRelay cfg relay_key)).
    { unfold ret. exists unauthorized, w, []. rewrite app_nil_r. repeat split; cbn; lia. }
    unfold tsSec, text_or_json, text_of. unfold try_catch, bind, fetch, now, ret, throw.
    repeat branch.
    all: do 3 eexists; (split; [reflexivity|]); cbn [sent reads waited].
    all: (split; [first [ symmetry; apply app_nil_r | reflexivity ]|]).
    all: cbn [List.length app]; repeat split; lia.
Qed.

End HandlersMore.

Lemma the_exchange_is_asked_only_with_the_key_and_a_row_witness :
  Server.auth_create relay store_of_0xAbC1 (Some "not-the-key") (Server.Fields proof_of_0xAbC1)
    issuing Net.start
  = (Net.Ok (Server.Replied Server.unauthorized, store_of_0xAbC1), Net.start)
  /\ exists reply w',
       Server.order relay store_of_0xAbC1 (Some "relay-key") order_text
         (Server.Fields (Some "0xDeF2")) accepting_without_id Net.start
       = (Net.Ok reply, w')
       /\ reply = Server.no_creds /\ w' = Net.start.
Proof.
  split.
  - apply (the_exchange_is_asked_only_with_the_key_and_a_row issuing relay store_of_0xAbC1
             (Some "not-the-key") Net.start). reflexivity.
  - destruct (proj2 (proj2 (the_exchange_is_asked_only_with_the_key_and_a_row
                              accepting_without_id relay store_of_0xAbC1 (Some "relay-key")
                              Net.start)) order_text (Server.Fields (Some "0xDeF2")))
      as (reply & w' & Hrun & Hcase).
    exists reply, w'. split; [exact Hrun|]. vm_compute in Hcase. exact Hcase.
Defined.

(** ** The routes of [src/routes/polymarket.js] *)
Section RoutesMore.
Import Json Net Routes.
Variable env : Env.

Ltac cases :=
  match goal with
  | |- context [match ?x with _ => _ end] =>
      lazymatch x with
      | context [match _ with _ => _ end] => fail
      | _ => destruct x eqn:?
      end
  end.

(** The trade handler always answers. *)
Lemma trade_returns (db : Db) (body : TradeBody) (w : World) :
  exists reply w', trade db body env w = (Ok reply, w').
Proof.
  unfold trade, try_catch.
  match goal with |- context [match ?m env w with _ => _ end] => destruct (m env w) as [[a|e] w'] end;
    eauto.
Qed.

(** X16.  Every route stands behind the gate: a request the gate answers,
    with 401 or 403, gets that answer from each of the five routes, and
    nothing else happens: no quota is used, the database is neither read nor
    written, the clock is not read and nothing is sent to the exchange. *)
Theorem a_request_the_gate_answers_changes_nothing (cfg : Config)
    (authorization : option string) (code : Z) (reply : json) :
  Auth.authenticateRequest (auth cfg) authorization = Auth.Answer code reply ->
  let answer := {| Routes.code := code; Routes.reply := reply |} in
  (code = 401 \/ code = 403)
  /\ (forall m db body w, trade_route cfg m db authorization body env w = (Ok (answer, m), w))
  /\ (forall db userId w, status_route cfg db authorization userId env w = (Ok answer, w))
  /\ (forall db stamp now body,
        credentials_route cfg db authorization stamp now body = (answer, db))
  /\ (forall db userId, fetch_route cfg db authorization userId = answer)
  /\ (forall db userId, delete_route cfg db authorization userId = (answer, db)).
Proof.
  intros Hgate answer.
  unfold trade_route, status_route, credentials_route, fetch_route, delete_route.
  rewrite Hgate. cbn [of_verdict]. repeat split.
  unfold Auth.authenticateRequest in Hgate.
  destruct authorization as [h|]; [|inversion Hgate; now left].
  destruct (negb (Js.nonempty h)); [inversion Hgate; now left|].
  destruct (_ && _); inversion Hgate. now right.
Qed.

(** X17.  The limiter comes before the handler.  A request that passed the
    gate and names no user is answered 400 by the limiter, even when it
    carries complete credentials; one that is over the limit is answered 429.
    In both cases the handler does not run: the database is not read and
    nothing is sent to the exchange. *)
Theorem the_limiter_stops_a_request_before_the_handler (cfg : Config)
    (m : gmap string (list Z)) (db : Db) (authorization : option string)
    (body : TradeBody) (w : World) :
  Auth.authenticateRequest (auth cfg) authorization = Auth.Next ->
  (present (userId body) = false ->
   trade_route cfg m db authorization body env w
   = (Ok (error_reply 400 "Missing userId for rate limiting", m), w))
  /\ (forall u, userId body = Some u -> u <> EmptyString ->
      passes m u (clock env (reads w)) = false ->
      exists reply w',
        trade_route cfg m db authorization body env w = (Ok (reply, m), w')
        /\ code reply = 429 /\ sent w' = sent w /\ reads w' = S (reads w)).
Proof.
  intros Hgate. unfold trade_route. rewrite Hgate. cbn [of_verdict]. split.
  - intros Hnone. rewrite Hnone. unfold bind, ret.
    assert (Hm : Auth.rateLimiter m (userId body) 0 = (Auth.Missing, m)).
    { unfold present in Hnone. unfold Auth.rateLimiter.
      destruct (userId body) as [u|]; [|reflexivity]. now rewrite Hnone. }
    now rewrite Hm.
  - intros u Hu Hne Hover. rewrite Hu. unfold present.
    rewrite (proj2 (nonempty_true u) Hne). unfold bind, now, ret.
    unfold passes in Hover. rewrite (rateLimiter_eq m u _ Hne) in Hover |- *. cbv zeta in *.
    destruct (Auth.RATE_LIMIT_MAX_REQUESTS <=? _); [|discriminate Hover].
    cbn [of_limit]. do 2 eexists. split; [reflexivity|]. repeat split.
Qed.

(** X18.  Quota is used before the request is looked at: a trade request
    that passed the gate and the limiter leaves its timestamp in the list of
    its user whatever the handler then answers, be it 400 for a missing order
    or 404 for unknown credentials. *)
Theorem an_admitted_request_uses_quota_whatever_the_answer (cfg : Config)
    (m : gmap string (list Z)) (db : Db) (authorization : option string)
    (body : TradeBody) (u : string) (w : World) :
  Auth.authenticateRequest (auth cfg) authorization = Auth.Next ->
  userId body = Some u -> u <> EmptyString ->
  let t := clock env (reads w) in
  passes m u t = true ->
  exists reply w',
    trade_route cfg m db authorization body env w
    = (Ok (reply, <[key_of u := live t (stored m u) ++ [t]]> m), w')
    /\ trade db body env {| sent := sent w; reads := S (reads w); waited := waited w |}
       = (Ok reply, w').
Proof.
  intros Hgate Hu Hne t Hpass. unfold trade_route. rewrite Hgate. cbn [of_verdict].
  rewrite Hu. unfold present. rewrite (proj2 (nonempty_true u) Hne).
  unfold bind at 1. unfold now. fold t.
  unfold passes in Hpass. rewrite (rateLimiter_eq m u t Hne) in Hpass |- *. cbv zeta in *.
  destruct (Auth.RATE_LIMIT_MAX_REQUESTS <=? _); [discriminate Hpass|].
  cbn [of_limit]. unfold bind, ret.
  destruct (trade_returns db body {| sent := sent w; reads := S (reads w); waited := waited w |})
    as (reply & w' & Hrun).
  rewrite Hrun. eauto.
Qed.







(** The credentials the handler chooses are complete when the rows are. *)
Lemma chosen_is_complete (db : Db) (body : TradeBody) (w w' : World) (c : Chosen) :
  complete db ->
  (if usable (credentials body) then ret (of_provided <$> credentials body)
   else if present (userId body) then
     match query db with
     | Throw e => throw e
     | Ok rows => ret (of_row <$> (rows !! default EmptyString (userId body)))
     end
   else ret None) env w = (Ok (Some c), w') ->
  exists k s pp,
    chosen_api_key c = Some k /\ chosen_secret c = Some s /\ chosen_passphrase c = Some pp
    /\ Js.nonempty k && Js.nonempty s && Js.nonempty pp = true.
Proof.
  intros Hdb. destruct (usable (credentials body)) eqn:Husable.
  - unfold usable, present in Husable.
    destruct (credentials body) as [p|]; [|discriminate Husable].
    destruct (p_api_key p) as [k|] eqn:Hk; [|discriminate Husable].
    destruct (p_secret p) as [s|] eqn:Hs; [|now rewrite andb_false_r in Husable].
    destruct (p_passphrase p) as [pp|] eqn:Hpp; [|now rewrite andb_false_r in Husable].
    intros H. inversion H; subst. exists k, s, pp. cbn. auto.
  - destruct (present (userId body)); [|discriminate].
    destruct db as [| |rows]; cbn [query]; try discriminate.
    destruct (rows !! default EmptyString (userId body)) as [r|] eqn:Hr; [|discriminate].
    intros H. inversion H; subst. destruct (Hdb _ _ Hr) as (Hk & Hs & Hpp).
    exists (api_key r), (secret r), (passphrase r). cbn.
    now rewrite (proj2 (nonempty_true _) Hk), (proj2 (nonempty_true _) Hs),
      (proj2 (nonempty_true _) Hpp).
Qed.

(** X21.  Rows written through [POST /credentials] are complete, and
    deleting keeps them so; and as long as the rows of the database are
    complete, the trade handler never gives its answer 400 for incomplete
    credentials: credentials of the request are used only when all three are
    there, and otherwise a row is used. *)
Theorem incomplete_credentials_are_never_reported :
  complete (Ready ∅)
  /\ (forall cfg db stamp now body,
        complete db -> complete (snd (store_credentials cfg db stamp now body)))
  /\ (forall db userId, complete db -> complete (snd (delete_credentials db userId)))
  /\ (forall db body w,
        complete db -> fst (trade db body env w) <> Ok incomplete_credentials).
Proof.
  split; [|split; [|split]].
  - intros u r H. rewrite lookup_empty in H. discriminate.
  - intros cfg db stamp now body Hdb. unfold store_credentials.
    destruct (c_userId body) as [u|]; [|exact Hdb].
    destruct (c_apiKey body) as [k|]; [|exact Hdb].
    destruct (c_secret body) as [s|]; [|exact Hdb].
    destruct (c_passphrase body) as [pp|]; [|exact Hdb].
    destruct (c_walletAddress body) as [a|]; [|exact Hdb].
    destruct (Js.nonempty u && Js.nonempty k && Js.nonempty s && Js.nonempty pp
              && Js.nonempty a) eqn:Hall; cbn [negb]; [|exact Hdb].
    destruct db as [| |rows]; cbn [query snd]; try exact I.
    apply andb_true_iff in Hall as [Hall _]. apply andb_true_iff in Hall as [Hall Hpp].
    apply andb_true_iff in Hall as [Hall Hs]. apply andb_true_iff in Hall as [_ Hk].
    intros v r. unfold upsert. rewrite lookup_insert.
    destruct (decide (u = v)) as [_|_]; [|apply Hdb].
    intros H. inversion H. cbn. now rewrite <- !nonempty_true.
  - intros db u Hdb. unfold delete_credentials.
    destruct db as [| |rows]; cbn [query snd]; try exact I.
    intros v r Hr. apply lookup_delete_Some in Hr as [_ Hr]. now apply Hdb in Hr.
  - intros db body w Hdb. unfold trade, try_catch.
    destruct (signedOrder body) as [order|]; [|discriminate].
    destruct (walletAddress body) as [wallet|]; [|discriminate].
    destruct (negb (truthy order && Js.nonempty wallet)); [discriminate|].
    unfold bind at 1.
    match goal with
    | |- context [match ?sel env w with _ => _ end] =>
        pose proof (fun c w' => chosen_is_complete db body w w' c Hdb) as Hsel;
        destruct (sel env w) as [[[c|]|e] w']
    end; [|discriminate..].
    destruct (Hsel c w' eq_refl) as (k & s & pp & -> & -> & -> & ->). cbn [negb].
    destruct (userId body); [|discriminate].
    unfold bind, ret.
    destruct (Polymarket.executeTrade _ _ _ _ env w') as [[[orderId who|error st who]|e] w''];
      discriminate.
Qed.



(** X24.  Credentials that were stored can be fetched and deleted.  After
    [POST /credentials] answered 200, [GET /credentials/:userId] shows the
    user, the wallet address and the funder address of the request, [null]
    for an empty funder address, and never the secrets; the time of creation
    is the old one when the user had a row and the database is PostgreSQL, and
    a new one otherwise.  After [DELETE] the user is answered 404.  The
    answers for every other user stay as they were. *)
Theorem stored_credentials_are_shown_until_deleted (cfg : Config) (db : Db)
    (stamp now : string) (body : CredentialsBody) :
  code (fst (store_credentials cfg db stamp now body)) = 200 ->
  let db' := snd (store_credentials cfg db stamp now body) in
  exists u wallet,
    c_userId body = Some u /\ c_walletAddress body = Some wallet
    /\ fetch_credentials db' u
       = shown u wallet (or_null (c_funderAddress body))
           (match creation db u with
            | Some created => if isPostgres cfg then created else stamp
            | None => stamp
            end)
    /\ (forall v, v <> u -> fetch_credentials db' v = fetch_credentials db v)
    /\ fetch_credentials (snd (delete_credentials db' u)) u
       = error_reply 404 "Credentials not found"
    /\ (forall v, v <> u ->
        fetch_credentials (snd (delete_credentials db' u)) v = fetch_credentials db v).
Proof.
  unfold store_credentials.
  destruct (c_userId body) as [u|]; [|discriminate].
  destruct (c_apiKey body) as [k|]; [|discriminate].
  destruct (c_secret body) as [s|]; [|discriminate].
  destruct (c_passphrase body) as [pp|]; [|discriminate].
  destruct (c_walletAddress body) as [a|]; [|discriminate].
  destruct (negb _); [discriminate|].
  destruct db as [| |rows]; cbn [query]; try discriminate.
  intros _. cbn [snd]. exists u, a.
  split; [reflexivity|]. split; [reflexivity|].
  unfold fetch_credentials, delete_credentials, upsert. cbn [query snd creation].
  rewrite lookup_insert_eq, lookup_delete_eq. split; [|split; [|split]].
  - unfold shown. cbn. destruct (rows !! u); reflexivity.
  - intros v Hv. now rewrite lookup_insert_ne.
  - reflexivity.
  - intros v Hv. now rewrite lookup_delete_ne, lookup_insert_ne.
Qed.


End RoutesMore.

Lemma a_request_the_gate_answers_changes_nothing_witness :
  Routes.trade_route postgres_production used_up db_of_alice None trade_of_alice
    accepting_without_id Net.start
  = (Net.Ok (Routes.error_reply 401 "Missing authorization header", used_up), Net.start)
  /\ Routes.delete_route postgres_production db_of_alice (Some "Bearer guess") "alice"
     = (Routes.error_reply 403 "Invalid API key", db_of_alice).
Proof.
  split.
  - apply (a_request_the_gate_answers_changes_nothing accepting_without_id postgres_production
             None 401 (JObj [("error", JStr "Missing authorization header")]) eq_refl).
  - apply (a_request_the_gate_answers_changes_nothing accepting_without_id postgres_production
             (Some "Bearer guess") 403 (JObj [("error", JStr "Invalid API key")]) eq_refl).
Defined.

Lemma the_limiter_stops_a_request_before_the_handler_witness :
  Routes.trade_route sqlite_development ∅ db_of_alice (Some "Bearer any") trade_without_user
    accepting_without_id Net.start
  = (Net.Ok (Routes.error_reply 400 "Missing userId for rate limiting", ∅), Net.start)
  /\ exists reply w',
       Routes.trade_route sqlite_development used_up db_of_alice (Some "Bearer any")
         trade_of_alice accepting_without_id Net.start
       = (Net.Ok (reply, used_up), w')
       /\ Routes.code reply = 429 /\ Net.sent w' = [] /\ Net.reads w' = 1%nat.
Proof.
  split.
  - apply (the_limiter_stops_a_request_before_the_handler accepting_without_id
             sqlite_development ∅ db_of_alice (Some "Bearer any") trade_without_user
             Net.start eq_refl). reflexivity.
  - apply (proj2 (the_limiter_stops_a_request_before_the_handler accepting_without_id
                    sqlite_development used_up db_of_alice (Some "Bearer any") trade_of_alice
                    Net.start eq_refl) "alice").
    + reflexivity.
    + discriminate.
    + vm_compute. reflexivity.
Defined.

Lemma an_admitted_request_uses_quota_whatever_the_answer_witness :
  exists w',
    Routes.trade_route sqlite_development ∅ Routes.NotInitialized (Some "Bearer any")
      trade_of_alice accepting_without_id Net.start
    = (Net.Ok (Routes.error_reply 500 "Internal server error",
               <[key_of "alice" := [1700000000123]]> ∅), w').
Proof.
  destruct (an_admitted_request_uses_quota_whatever_the_answer accepting_without_id
              sqlite_development ∅ Routes.NotInitialized (Some "Bearer any") trade_of_alice
              "alice" Net.start) as (reply & w' & Hroute & Hreply).
  - reflexivity.
  - reflexivity.
  - discriminate.
  - vm_compute. reflexivity.
  - exists w'. rewrite Hroute. vm_compute in Hreply. inversion Hreply. reflexivity.
Defined.





Lemma stored_credentials_are_shown_until_deleted_witness :
  Routes.fetch_credentials
    (snd (Routes.store_credentials sqlite_development db_of_alice "2024-06-01 09:00:00"
            "2024-06-01T09:00:00.000Z" credentials_of_alice)) "alice"
  = shown "alice" "0xAA" None "2024-06-01 09:00:00"
  /\ Routes.fetch_credentials
       (snd (Routes.store_credentials postgres_production db_of_alice "2024-06-01 09:00:00"
               "2024-06-01T09:00:00.000Z" credentials_of_alice)) "alice"
     = shown "alice" "0xAA" None "2024-05-01 10:00:00".
Proof.
  split.
  - destruct (stored_credentials_are_shown_until_deleted sqlite_development db_of_alice
                "2024-06-01 09:00:00" "2024-06-01T09:00:00.000Z" credentials_of_alice eq_refl)
      as (u & wallet & Hu & Hw & Hshown & _).
    inversion Hu; subst u. inversion Hw; subst wallet. exact Hshown.
  - destruct (stored_credentials_are_shown_until_deleted postgres_production db_of_alice
                "2024-06-01 09:00:00" "2024-06-01T09:00:00.000Z" credentials_of_alice eq_refl)
      as (u & wallet & Hu & Hw & Hshown & _).
    inversion Hu; subst u. inversion Hw; subst wallet. exact Hshown.
Defined.

Lemma incomplete_credentials_are_never_reported_witness :
  complete (snd (Routes.store_credentials sqlite_development (Routes.Ready ∅)
                   "2024-06-01 09:00:00" "2024-06-01T09:00:00.000Z" credentials_of_alice))
  /\ fst (Routes.trade
            (snd (Routes.store_credentials sqlite_development (Routes.Ready ∅)
                    "2024-06-01 09:00:00" "2024-06-01T09:00:00.000Z" credentials_of_alice))
            trade_of_alice blocking_0xAA Net.start)
     <> Net.Ok incomplete_credentials.
Proof.
  destruct (incomplete_credentials_are_never_reported blocking_0xAA)
    as (Hempty & Hstore & _ & Htrade).
  pose proof (Hstore sqlite_development (Routes.Ready ∅) "2024-06-01 09:00:00"
                "2024-06-01T09:00:00.000Z" credentials_of_alice Hempty) as Hdb.
  split; [exact Hdb | now apply Htrade].
Defined.

